(** * Swarm-Drone-Sim: the agent simulation engine of [swarm_sim.py]

    A shallow embedding of the simulation core (geometry utilities,
    [Projectile], [Boid] and its behaviours) with the properties of its
    specification.

    Modelling conventions.
    - Python numbers that take part in float arithmetic (positions,
      velocities, health, ranges) are real numbers [R]: arithmetic is exact,
      IEEE rounding, infinities and NaN are outside this model.  The two
      steps of [Boid.update] whose bounds depend on rounding, the speed cap
      and the wrap-around, are modelled a second time over IEEE binary64
      numbers in the module [Binary64].  The theorems labelled with a claim
      (C) or a further property (X) are stated so that they do not depend on
      exactness: where rounding matters they carry the tolerance [TOL]; the
      lemmas that support them are facts of the exact model.  Counters and
      identifiers that the program only ever handles as [int] (timers, squad
      ids, indices) are [Z]; [//] and [%] on them are [Z.div] and
      [Z.modulo], which floor like Python's.
    - A [Boid] is a mutable Python object.  Objects live in a store
      [Heap := ref -> Boid]; a roster ([all_boids]) is a list of references,
      [leader_ref], [target_enemy] and [target_boid] are references, and
      [b != self] is reference inequality.  A method that mutates an object
      returns the updated store.
    - A Python exception ([IndexError], [ZeroDivisionError]) is [None].
    - The two [random.uniform(-1, 1)] draws of [handle_evade] are inputs. *)

From Stdlib Require Import Reals Lra Lia ZArith List String Bool Zfloor.
From Stdlib Require Floats.
Import ListNotations.

#[local] Open Scope R_scope.

(** ** Numbers *)

Definition Rltb (x y : R) : bool := if Rlt_dec x y then true else false.
Definition Rleb (x y : R) : bool := if Rle_dec x y then true else false.

(** [math.hypot(x, y)] *)
Definition hypot (x y : R) : R := sqrt (x * x + y * y).

(** Python's [x % m] on floats, for a positive [m]: the result has the sign
    of [m], i.e. [x - m * floor (x / m)]. *)
Definition py_fmod (x m : R) : R := x - m * IZR (Zfloor (x / m)).

Definition vec : Type := R * R.

(** [lst[i]] on a Python list: negative indices count from the end, an index
    out of range raises [IndexError]. *)
Definition py_index {A : Type} (l : list A) (i : Z) : option A :=
  let n := Z.of_nat (List.length l) in
  if (0 <=? i)%Z then nth_error l (Z.to_nat i)
  else if (- n <=? i)%Z then nth_error l (Z.to_nat (n + i))
  else None.

(** ** Constants *)

Definition WIDTH : R := 1000.
Definition HEIGHT : R := 700.
Definition BOID_RADIUS : R := 6.
Definition MAX_SPEED : R := 2.
Definition NEIGHBOR_RADIUS : R := 50.
Definition AVOID_RADIUS : R := 20.
Definition FORMATION_MODE : string := "V".
Definition BOIDS_PER_SQUAD : Z := 6.

(** ** Utility functions *)

Definition distance (a b : vec) : R := hypot (fst a - fst b) (snd a - snd b).

Definition get_formation_offset (index : Z) (mode : string) (total : Z)
  : option vec :=
  let spacing := 30%Z in
  if String.eqb mode "V" then
    let layer := ((index + 1) / 2)%Z in
    let side := if (index mod 2 =? 0)%Z then (-1)%Z else 1%Z in
    Some (IZR (side * spacing * layer), IZR (spacing * layer))
  else if String.eqb mode "CIRCLE" then
    if (total =? 0)%Z then None
    else
      let angle := 2 * PI / IZR total * IZR index in
      let radius := 60 in
      Some (cos angle * radius, sin angle * radius)
  else Some (0, 0).

(** ** The object store *)

(** A reference to a [Boid] object. *)
Definition ref : Type := nat.
Bind Scope nat_scope with ref.

(** The attributes of a [Boid] ([label] only feeds the renderer and is left
    out). *)
Record Boid : Type := mkBoid {
  position : vec;
  velocity : vec;
  squad_id : Z;
  is_leader : bool;
  index_in_squad : Z;
  leader_ref : option ref;
  formation_offset : vec;
  waypoints : list vec;
  current_wp : Z;
  health : R;
  attacking : bool;
  target_enemy : option ref;
  is_medic : bool;
  shielded : bool;
  shield_timer : Z;
  projectile_cooldown : Z;
  is_enemy : bool;
  firing_range : R;
  detection_range : R;
  state : string
}.

(** [Boid.__init__]; [v] is the random initial velocity. *)
Definition Boid_init (x y : R) (squad : Z) (leader : bool) (index : Z)
    (enemy : bool) (v : vec) : Boid :=
  {| position := (x, y);
     velocity := v;
     squad_id := squad;
     is_leader := leader;
     index_in_squad := index;
     leader_ref := None;
     formation_offset := (0, 0);
     waypoints := [];
     current_wp := 0;
     health := 100;
     attacking := false;
     target_enemy := None;
     is_medic := (index =? 0)%Z && negb leader && negb enemy;
     shielded := false;
     shield_timer := 0;
     projectile_cooldown := 0;
     is_enemy := enemy;
     firing_range := 200;
     detection_range := 300;
     state := "PATROL" |}.

(** Attribute assignment [b.f = x]. *)
Definition set_position (x : vec) (b : Boid) : Boid :=
  {| position := x;
     velocity := velocity b;
     squad_id := squad_id b;
     is_leader := is_leader b;
     index_in_squad := index_in_squad b;
     leader_ref := leader_ref b;
     formation_offset := formation_offset b;
     waypoints := waypoints b;
     current_wp := current_wp b;
     health := health b;
     attacking := attacking b;
     target_enemy := target_enemy b;
     is_medic := is_medic b;
     shielded := shielded b;
     shield_timer := shield_timer b;
     projectile_cooldown := projectile_cooldown b;
     is_enemy := is_enemy b;
     firing_range := firing_range b;
     detection_range := detection_range b;
     state := state b |}.

Definition set_velocity (x : vec) (b : Boid) : Boid :=
  {| position := position b;
     velocity := x;
     squad_id := squad_id b;
     is_leader := is_leader b;
     index_in_squad := index_in_squad b;
     leader_ref := leader_ref b;
     formation_offset := formation_offset b;
     waypoints := waypoints b;
     current_wp := current_wp b;
     health := health b;
     attacking := attacking b;
     target_enemy := target_enemy b;
     is_medic := is_medic b;
     shielded := shielded b;
     shield_timer := shield_timer b;
     projectile_cooldown := projectile_cooldown b;
     is_enemy := is_enemy b;
     firing_range := firing_range b;
     detection_range := detection_range b;
     state := state b |}.

Definition set_leader_ref (x : option ref) (b : Boid) : Boid :=
  {| position := position b;
     velocity := velocity b;
     squad_id := squad_id b;
     is_leader := is_leader b;
     index_in_squad := index_in_squad b;
     leader_ref := x;
     formation_offset := formation_offset b;
     waypoints := waypoints b;
     current_wp := current_wp b;
     health := health b;
     attacking := attacking b;
     target_enemy := target_enemy b;
     is_medic := is_medic b;
     shielded := shielded b;
     shield_timer := shield_timer b;
     projectile_cooldown := projectile_cooldown b;
     is_enemy := is_enemy b;
     firing_range := firing_range b;
     detection_range := detection_range b;
     state := state b |}.

Definition set_formation_offset (x : vec) (b : Boid) : Boid :=
  {| position := position b;
     velocity := velocity b;
     squad_id := squad_id b;
     is_leader := is_leader b;
     index_in_squad := index_in_squad b;
     leader_ref := leader_ref b;
     formation_offset := x;
     waypoints := waypoints b;
     current_wp := current_wp b;
     health := health b;
     attacking := attacking b;
     target_enemy := target_enemy b;
     is_medic := is_medic b;
     shielded := shielded b;
     shield_timer := shield_timer b;
     projectile_cooldown := projectile_cooldown b;
     is_enemy := is_enemy b;
     firing_range := firing_range b;
     detection_range := detection_range b;
     state := state b |}.

Definition set_current_wp (x : Z) (b : Boid) : Boid :=
  {| position := position b;
     velocity := velocity b;
     squad_id := squad_id b;
     is_leader := is_leader b;
     index_in_squad := index_in_squad b;
     leader_ref := leader_ref b;
     formation_offset := formation_offset b;
     waypoints := waypoints b;
     current_wp := x;
     health := health b;
     attacking := attacking b;
     target_enemy := target_enemy b;
     is_medic := is_medic b;
     shielded := shielded b;
     shield_timer := shield_timer b;
     projectile_cooldown := projectile_cooldown b;
     is_enemy := is_enemy b;
     firing_range := firing_range b;
     detection_range := detection_range b;
     state := state b |}.

Definition set_health (x : R) (b : Boid) : Boid :=
  {| position := position b;
     velocity := velocity b;
     squad_id := squad_id b;
     is_leader := is_leader b;
     index_in_squad := index_in_squad b;
     leader_ref := leader_ref b;
     formation_offset := formation_offset b;
     waypoints := waypoints b;
     current_wp := current_wp b;
     health := x;
     attacking := attacking b;
     target_enemy := target_enemy b;
     is_medic := is_medic b;
     shielded := shielded b;
     shield_timer := shield_timer b;
     projectile_cooldown := projectile_cooldown b;
     is_enemy := is_enemy b;
     firing_range := firing_range b;
     detection_range := detection_range b;
     state := state b |}.

Definition set_attacking (x : bool) (b : Boid) : Boid :=
  {| position := position b;
     velocity := velocity b;
     squad_id := squad_id b;
     is_leader := is_leader b;
     index_in_squad := index_in_squad b;
     leader_ref := leader_ref b;
     formation_offset := formation_offset b;
     waypoints := waypoints b;
     current_wp := current_wp b;
     health := health b;
     attacking := x;
     target_enemy := target_enemy b;
     is_medic := is_medic b;
     shielded := shielded b;
     shield_timer := shield_timer b;
     projectile_cooldown := projectile_cooldown b;
     is_enemy := is_enemy b;
     firing_range := firing_range b;
     detection_range := detection_range b;
     state := state b |}.

Definition set_target_enemy (x : option ref) (b : Boid) : Boid :=
  {| position := position b;
     velocity := velocity b;
     squad_id := squad_id b;
     is_leader := is_leader b;
     index_in_squad := index_in_squad b;
     leader_ref := leader_ref b;
     formation_offset := formation_offset b;
     waypoints := waypoints b;
     current_wp := current_wp b;
     health := health b;
     attacking := attacking b;
     target_enemy := x;
     is_medic := is_medic b;
     shielded := shielded b;
     shield_timer := shield_timer b;
     projectile_cooldown := projectile_cooldown b;
     is_enemy := is_enemy b;
     firing_range := firing_range b;
     detection_range := detection_range b;
     state := state b |}.

Definition set_shielded (x : bool) (b : Boid) : Boid :=
  {| position := position b;
     velocity := velocity b;
     squad_id := squad_id b;
     is_leader := is_leader b;
     index_in_squad := index_in_squad b;
     leader_ref := leader_ref b;
     formation_offset := formation_offset b;
     waypoints := waypoints b;
     current_wp := current_wp b;
     health := health b;
     attacking := attacking b;
     target_enemy := target_enemy b;
     is_medic := is_medic b;
     shielded := x;
     shield_timer := shield_timer b;
     projectile_cooldown := projectile_cooldown b;
     is_enemy := is_enemy b;
     firing_range := firing_range b;
     detection_range := detection_range b;
     state := state b |}.

Definition set_shield_timer (x : Z) (b : Boid) : Boid :=
  {| position := position b;
     velocity := velocity b;
     squad_id := squad_id b;
     is_leader := is_leader b;
     index_in_squad := index_in_squad b;
     leader_ref := leader_ref b;
     formation_offset := formation_offset b;
     waypoints := waypoints b;
     current_wp := current_wp b;
     health := health b;
     attacking := attacking b;
     target_enemy := target_enemy b;
     is_medic := is_medic b;
     shielded := shielded b;
     shield_timer := x;
     projectile_cooldown := projectile_cooldown b;
     is_enemy := is_enemy b;
     firing_range := firing_range b;
     detection_range := detection_range b;
     state := state b |}.

Definition set_projectile_cooldown (x : Z) (b : Boid) : Boid :=
  {| position := position b;
     velocity := velocity b;
     squad_id := squad_id b;
     is_leader := is_leader b;
     index_in_squad := index_in_squad b;
     leader_ref := leader_ref b;
     formation_offset := formation_offset b;
     waypoints := waypoints b;
     current_wp := current_wp b;
     health := health b;
     attacking := attacking b;
     target_enemy := target_enemy b;
     is_medic := is_medic b;
     shielded := shielded b;
     shield_timer := shield_timer b;
     projectile_cooldown := x;
     is_enemy := is_enemy b;
     firing_range := firing_range b;
     detection_range := detection_range b;
     state := state b |}.

Definition set_state (x : string) (b : Boid) : Boid :=
  {| position := position b;
     velocity := velocity b;
     squad_id := squad_id b;
     is_leader := is_leader b;
     index_in_squad := index_in_squad b;
     leader_ref := leader_ref b;
     formation_offset := formation_offset b;
     waypoints := waypoints b;
     current_wp := current_wp b;
     health := health b;
     attacking := attacking b;
     target_enemy := target_enemy b;
     is_medic := is_medic b;
     shielded := shielded b;
     shield_timer := shield_timer b;
     projectile_cooldown := projectile_cooldown b;
     is_enemy := is_enemy b;
     firing_range := firing_range b;
     detection_range := detection_range b;
     state := x |}.

(** The store maps every reference to the object behind it; Python
    references never dangle, so the map is total. *)
Definition Heap : Type := ref -> Boid.

(** In-place mutation of the object that [r] refers to; every alias of [r]
    sees it. *)
Definition modify (h : Heap) (r : ref) (f : Boid -> Boid) : Heap :=
  fun r' => if Nat.eqb r' r then f (h r) else h r'.

(** [min(l, key=...)] on a non-empty list [x :: l]: the first element whose
    key is minimal (a later element replaces the current one only when its
    key is strictly smaller). *)
Fixpoint py_min (key : ref -> R) (best : ref) (l : list ref) : ref :=
  match l with
  | [] => best
  | x :: l' => if Rltb (key x) (key best) then py_min key x l'
               else py_min key best l'
  end.

(** [sum(...)], accumulating from the left. *)
Definition py_sum (l : list R) : R := fold_left Rplus l 0.

(** ** Projectile *)

Module Projectile.

Record t : Type := mk {
  pos : vec;
  target_boid : ref;
  velocity : vec;
  speed : R;
  active : bool
}.

(** [Projectile(pos, target_boid)] *)
Definition init (p : vec) (tgt : ref) : t :=
  {| pos := p; target_boid := tgt; velocity := (0, 0); speed := 5;
     active := true |}.

Definition set_active (x : bool) (p : t) : t :=
  {| pos := pos p; target_boid := target_boid p; velocity := velocity p;
     speed := speed p; active := x |}.

(** The velocity and position assignments of [Projectile.update]
    (lines 86-94): re-aim at the target's current position and advance. *)
Definition advance (h : Heap) (p : t) : t :=
  let tp := position (h (target_boid p)) in
  let dx := fst tp - fst (pos p) in
  let dy := snd tp - snd (pos p) in
  let dist := distance (pos p) tp in
  let v := if Rltb 0 dist then (dx / dist * speed p, dy / dist * speed p)
           else (0, 0) in
  {| pos := (fst (pos p) + fst v, snd (pos p) + snd v);
     target_boid := target_boid p; velocity := v; speed := speed p;
     active := active p |}.

(** [Projectile.update]: the store after the call and the projectile after
    the call. *)
Definition update (h : Heap) (p : t) : Heap * t :=
  if negb (active p) || Rleb (health (h (target_boid p))) 0 then
    (h, set_active false p)
  else
    let p1 := advance h p in
    if Rltb (distance (pos p1) (position (h (target_boid p1)))) BOID_RADIUS
    then
      let h1 :=
        if negb (shielded (h (target_boid p1))) then
          modify h (target_boid p1) (fun b => set_health (health b - 5) b)
        else h in
      (h1, set_active false p1)
    else (h, p1).

End Projectile.

(** ** Boid *)

(** The store together with the module-level list [projectiles], which
    [handle_engage] appends to. *)
Record World : Type := mkWorld {
  heap : Heap;
  projectiles : list Projectile.t
}.

(** [Boid.heal_ally]: one iteration of the loop over [squad_allies]. *)
Definition heal_one (self : ref) (h : Heap) (ally : ref) : Heap :=
  if Rltb (distance (position (h self)) (position (h ally))) 60
     && Rltb (health (h ally)) 100
  then
    let h1 := modify h ally (fun b => set_health (health b + 0.2) b) in
    if Rltb 100 (health (h1 ally)) then modify h1 ally (set_health 100)
    else h1
  else h.

Definition heal_ally (h : Heap) (self : ref) (all_boids : list ref) : Heap :=
  if is_medic (h self) then
    let squad_allies :=
      filter (fun b => (squad_id (h b) =? squad_id (h self))%Z
                       && negb (Nat.eqb b self)
                       && negb (is_enemy (h b))) all_boids in
    fold_left (heal_one self) squad_allies h
  else h.

(** [Boid.apply_shield]: one iteration of the loop over
    [squad_members_to_shield]. *)
Definition shield_one (h : Heap) (ally : ref) : Heap :=
  modify (modify h ally (set_shielded true)) ally (set_shield_timer 180).

Definition apply_shield (h : Heap) (self : ref) (all_boids : list ref)
  : Heap :=
  if is_leader (h self) && negb (is_enemy (h self))
     && (shield_timer (h self) <=? 0)%Z
  then
    let squad_members_to_shield :=
      filter (fun b => (squad_id (h b) =? squad_id (h self))%Z
                       && negb (is_leader (h b))
                       && negb (is_enemy (h b))) all_boids in
    let h1 := fold_left shield_one squad_members_to_shield h in
    modify h1 self (set_shield_timer 600)
  else h.

(** [b.is_enemy != self.is_enemy and b.health > 0]: a live agent of the
    opposing faction. *)
Definition opposing_live (h : Heap) (self b : ref) : bool :=
  negb (Bool.eqb (is_enemy (h b)) (is_enemy (h self)))
  && Rltb 0 (health (h b)).

(** The steering part of [Boid.handle_patrol] (lines 219-240). *)
Definition patrol_steer (h : Heap) (self : ref) (squad_size : Z)
  : option Heap :=
  let me := h self in
  if is_leader me then
    match waypoints me with
    | [] => Some h
    | _ :: _ =>
      match py_index (waypoints me) (current_wp me) with
      | None => None
      | Some target =>
        let dx := fst target - fst (position me) in
        let dy := snd target - snd (position me) in
        if Rltb (distance (position me) target) 10 then
          Some (modify h self
                  (set_current_wp
                     ((current_wp me + 1)
                        mod Z.of_nat (List.length (waypoints me)))%Z))
        else
          Some (modify h self
                  (set_velocity (fst (velocity me) + 0.05 * dx,
                                 snd (velocity me) + 0.05 * dy)))
      end
    end
  else
    match leader_ref me with
    | Some l =>
      if Rltb 0 (health (h l)) then
        match get_formation_offset (index_in_squad me) FORMATION_MODE
                squad_size with
        | None => None
        | Some off =>
          let target := (fst (position (h l)) + fst off,
                         snd (position (h l)) + snd off) in
          let dx := fst target - fst (position me) in
          let dy := snd target - snd (position me) in
          Some (modify h self
                  (fun b =>
                     set_velocity (fst (velocity me) + 0.04 * dx,
                                   snd (velocity me) + 0.04 * dy)
                       (set_formation_offset off b)))
        end
      else Some (modify h self (set_leader_ref None))
    | None => Some (modify h self (set_leader_ref None))
    end.

(** [enemies_in_detection_range] of [Boid.handle_patrol] (lines 243-244). *)
Definition enemies_in_detection_range (h : Heap) (self : ref)
    (all_boids : list ref) : list ref :=
  let potential_enemies := filter (opposing_live h self) all_boids in
  filter (fun b => Rltb (distance (position (h self)) (position (h b)))
                        (detection_range (h self)))
         potential_enemies.

(** The target acquisition of [Boid.handle_patrol] (lines 246-249). *)
Definition patrol_acquire (h : Heap) (self : ref) (all_boids : list ref)
  : Heap :=
  match enemies_in_detection_range h self all_boids with
  | [] => h
  | e :: rest =>
    let key := fun e => distance (position (h self)) (position (h e)) in
    modify h self
      (fun b => set_attacking true
                  (set_state "ENGAGE"
                     (set_target_enemy (Some (py_min key e rest)) b)))
  end.

Definition handle_patrol (h : Heap) (self : ref) (all_boids : list ref)
    (squad_size : Z) : option Heap :=
  match patrol_steer h self squad_size with
  | None => None
  | Some h1 => Some (patrol_acquire h1 self all_boids)
  end.

Definition handle_engage (w : World) (self : ref) (all_boids : list ref)
  : World :=
  let h := heap w in
  let me := h self in
  let w1 :=
    match target_enemy me with
    | Some e =>
      if Rltb 0 (health (h e)) then
        let h1 :=
          if Rltb (firing_range me * 0.8)
                  (distance (position me) (position (h e)))
          then
            let dx := fst (position (h e)) - fst (position me) in
            let dy := snd (position (h e)) - snd (position me) in
            modify h self
              (set_velocity (fst (velocity me) + 0.05 * dx,
                             snd (velocity me) + 0.05 * dy))
          else
            modify h self
              (set_velocity (fst (velocity me) * 0.9,
                             snd (velocity me) * 0.9)) in
        if (projectile_cooldown (h1 self) =? 0)%Z
           && Rleb (distance (position (h1 self)) (position (h1 e)))
                   (firing_range (h1 self))
        then
          {| heap := modify h1 self (set_projectile_cooldown 60);
             projectiles :=
               projectiles w ++ [Projectile.init (position (h1 self)) e] |}
        else {| heap := h1; projectiles := projectiles w |}
      else
        {| heap := modify h self
                     (fun b => set_state "PATROL"
                                 (set_target_enemy None
                                    (set_attacking false b)));
           projectiles := projectiles w |}
    | None =>
      {| heap := modify h self
                   (fun b => set_state "PATROL"
                               (set_target_enemy None
                                  (set_attacking false b)));
         projectiles := projectiles w |}
    end in
  if Rltb (health (heap w1 self)) 30 && negb (is_enemy (heap w1 self)) then
    {| heap := modify (heap w1) self (set_state "EVADE");
       projectiles := projectiles w1 |}
  else w1.

(** [threats] of [Boid.handle_evade] (line 279). *)
Definition threats (h : Heap) (self : ref) (all_boids : list ref)
  : list ref :=
  filter (fun b => opposing_live h self b
                   && Rltb (distance (position (h self)) (position (h b)))
                           (detection_range (h self) * 1.5))
         all_boids.

(** The minimum-speed step of [Boid.handle_evade] (lines 288-291) on a
    velocity [v]; [rnd] holds the values of the two [random.uniform(-1, 1)]
    calls, which are only made when the speed is zero. *)
Definition evade_min_speed (v : vec) (rnd : R * R) : vec :=
  let speed := hypot (fst v) (snd v) in
  if Rltb speed (MAX_SPEED / 2) then
    let v0 := if Rltb 0 speed then fst v / speed * (MAX_SPEED / 2)
              else fst rnd * MAX_SPEED / 2 in
    let v1 := if Rltb 0 speed then snd v / speed * (MAX_SPEED / 2)
              else snd rnd * MAX_SPEED / 2 in
    (v0, v1)
  else v.

Definition handle_evade (h : Heap) (self : ref) (all_boids : list ref)
    (rnd : R * R) : Heap :=
  let me := h self in
  match threats h self all_boids with
  | t0 :: rest =>
    let key := fun t => distance (position me) (position (h t)) in
    let closest_threat := py_min key t0 rest in
    let dx := fst (position me) - fst (position (h closest_threat)) in
    let dy := snd (position me) - snd (position (h closest_threat)) in
    let boosted := (fst (velocity me) + dx * 0.1,
                    snd (velocity me) + dy * 0.1) in
    modify h self (set_velocity (evade_min_speed boosted rnd))
  | [] =>
    if Rltb 50 (health me) then modify h self (set_state "PATROL")
    else modify h self (set_state "PATROL")
  end.

(** [Boid.update], timers (lines 162-167). *)
Definition tick_timers (b : Boid) : Boid :=
  let b1 := if (0 <? projectile_cooldown b)%Z
            then set_projectile_cooldown (projectile_cooldown b - 1)%Z b
            else b in
  let b2 := if (0 <? shield_timer b1)%Z
            then set_shield_timer (shield_timer b1 - 1)%Z b1
            else b1 in
  if shielded b2 && (shield_timer b2 <=? 0)%Z then set_shielded false b2
  else b2.

(** [Boid.update], state machine dispatch (lines 170-175). *)
Definition dispatch (w : World) (self : ref) (all_boids : list ref)
    (squad_size : Z) (rnd : R * R) : option World :=
  let st := state (heap w self) in
  if String.eqb st "PATROL" then
    match handle_patrol (heap w) self all_boids squad_size with
    | None => None
    | Some h1 => Some {| heap := h1; projectiles := projectiles w |}
    end
  else if String.eqb st "ENGAGE" then Some (handle_engage w self all_boids)
  else if String.eqb st "EVADE" then
    Some {| heap := handle_evade (heap w) self all_boids rnd;
            projectiles := projectiles w |}
  else Some w.

(** [neighbors] of [Boid.update] (line 180). *)
Definition neighbors (h : Heap) (self : ref) (all_boids : list ref)
  : list ref :=
  filter (fun b => negb (Nat.eqb b self)
                   && Rltb (distance (position (h self)) (position (h b)))
                           NEIGHBOR_RADIUS)
         all_boids.

(** [Boid.update], separation loop (lines 195-198), on the velocity. *)
Definition separate (h : Heap) (self : ref) (v : vec) (b : ref) : vec :=
  if Rltb (distance (position (h self)) (position (h b))) AVOID_RADIUS then
    (fst v + (fst (position (h self)) - fst (position (h b))) * 0.05,
     snd v + (snd (position (h self)) - snd (position (h b))) * 0.05)
  else v.

(** [Boid.update], flocking (lines 180-198). *)
Definition flock (h : Heap) (self : ref) (all_boids : list ref) : Heap :=
  match neighbors h self all_boids with
  | [] => h
  | (_ :: _) as nbrs =>
    let me := h self in
    let n := INR (List.length nbrs) in
    let avg_pos := (py_sum (map (fun b => fst (position (h b))) nbrs) / n,
                    py_sum (map (fun b => snd (position (h b))) nbrs) / n) in
    let vc := (fst (velocity me) + 0.01 * (fst avg_pos - fst (position me)),
               snd (velocity me) + 0.01 * (snd avg_pos - snd (position me)))
    in
    let avg_vel := (py_sum (map (fun b => fst (velocity (h b))) nbrs) / n,
                    py_sum (map (fun b => snd (velocity (h b))) nbrs) / n) in
    let va := (fst vc + 0.05 * (fst avg_vel - fst vc),
               snd vc + 0.05 * (snd avg_vel - snd vc)) in
    modify h self (set_velocity (fold_left (separate h self) nbrs va))
  end.

(** [Boid.update], speed cap (lines 201-204), on the velocity. *)
Definition cap_speed (v : vec) : vec :=
  let speed := hypot (fst v) (snd v) in
  if Rltb MAX_SPEED speed then
    (fst v / speed * MAX_SPEED, snd v / speed * MAX_SPEED)
  else v.

(** [Boid.update], integration and wrap-around (lines 207-212). *)
Definition integrate (b : Boid) : Boid :=
  let p := (fst (position b) + fst (velocity b),
            snd (position b) + snd (velocity b)) in
  set_position (py_fmod (fst p) WIDTH, py_fmod (snd p) HEIGHT) b.

(** The world when [Boid.update] on a live agent reaches the flocking step
    (lines 162-175): timers, then the behaviour of the current state. *)
Definition update_behave (w : World) (self : ref) (all_boids : list ref)
    (squad_size : Z) (rnd : R * R) : option World :=
  let w1 := {| heap := modify (heap w) self tick_timers;
               projectiles := projectiles w |} in
  dispatch w1 self all_boids squad_size rnd.

(** The world when [Boid.update] on a live agent reaches its last statement,
    the call of [heal_ally] (lines 162-212); the neighbor set of line 180 is
    [neighbors (heap w2) self all_boids], inside [flock]. *)
Definition update_motion (w : World) (self : ref) (all_boids : list ref)
    (squad_size : Z) (rnd : R * R) : option World :=
  match update_behave w self all_boids squad_size rnd with
  | None => None
  | Some w2 =>
    let h3 := flock (heap w2) self all_boids in
    let h4 := modify h3 self (fun b => set_velocity (cap_speed (velocity b)) b)
    in
    Some {| heap := modify h4 self integrate;
            projectiles := projectiles w2 |}
  end.

Definition update (w : World) (self : ref) (all_boids : list ref)
    (squad_size : Z) (rnd : R * R) : option World :=
  if Rleb (health (heap w self)) 0 then Some w
  else
    match update_motion w self all_boids squad_size rnd with
    | None => None
    | Some w5 =>
      Some {| heap := heal_ally (heap w5) self all_boids;
              projectiles := projectiles w5 |}
    end.

(** ** The game loop *)

(** The roster filter of the game loop (line 423). *)
Definition live_roster (h : Heap) (boids : list ref) : list ref :=
  filter (fun b => Rltb 0 (health (h b))) boids.

(** The loop over the agents (lines 428-431, without the drawing):
    [b.update(boids, BOIDS_PER_SQUAD)] for the agents [todo] still to come,
    in order; [rnds] holds the random draws of the successive calls. *)
Fixpoint update_each (w : World) (todo all_boids : list ref)
    (rnds : list (R * R)) : option World :=
  match todo with
  | [] => Some w
  | b :: rest =>
    match update w b all_boids BOIDS_PER_SQUAD (hd (0, 0) rnds) with
    | None => None
    | Some w1 => update_each w1 rest all_boids (tl rnds)
    end
  end.

(** Lines 423 and 428-431: the roster is pruned, then every agent of the
    pruned roster is updated with the pruned roster as [all_boids]. *)
Definition boid_pass (w : World) (boids : list ref) (rnds : list (R * R))
  : option (World * list ref) :=
  let boids' := live_roster (heap w) boids in
  match update_each w boids' boids' rnds with
  | None => None
  | Some w' => Some (w', boids')
  end.

(** * Vocabulary of the statements *)

(** What one iteration of the shield loop makes of an agent. *)
Definition shielded_boid (b : Boid) : Boid :=
  set_shield_timer 180 (set_shielded true b).

(** The filter of [squad_members_to_shield]. *)
Definition shield_member (h : Heap) (self b : ref) : bool :=
  (squad_id (h b) =? squad_id (h self))%Z
  && negb (is_leader (h b)) && negb (is_enemy (h b)).

(** Two agents that agree on every attribute but [shielded] and
    [shield_timer]. *)
Definition eq_except_shield (b b' : Boid) : Prop :=
  position b' = position b /\ velocity b' = velocity b
  /\ squad_id b' = squad_id b /\ is_leader b' = is_leader b
  /\ index_in_squad b' = index_in_squad b /\ leader_ref b' = leader_ref b
  /\ formation_offset b' = formation_offset b
  /\ waypoints b' = waypoints b /\ current_wp b' = current_wp b
  /\ health b' = health b /\ attacking b' = attacking b
  /\ target_enemy b' = target_enemy b /\ is_medic b' = is_medic b
  /\ projectile_cooldown b' = projectile_cooldown b
  /\ is_enemy b' = is_enemy b /\ firing_range b' = firing_range b
  /\ detection_range b' = detection_range b /\ state b' = state b.

(** [b] is a live agent of the faction opposing [self] strictly within
    [self]'s detection range. *)
Definition detectable (h : Heap) (self b : ref) : Prop :=
  is_enemy (h b) <> is_enemy (h self)
  /\ 0 < health (h b)
  /\ distance (position (h self)) (position (h b)) < detection_range (h self).

Definition detectableb (h : Heap) (self b : ref) : bool :=
  opposing_live h self b
  && Rltb (distance (position (h self)) (position (h b)))
          (detection_range (h self)).

(** Two stores that agree on what target acquisition reads. *)
Definition sense_eq (h h' : Heap) : Prop :=
  forall b, position (h' b) = position (h b)
            /\ health (h' b) = health (h b)
            /\ is_enemy (h' b) = is_enemy (h b)
            /\ detection_range (h' b) = detection_range (h b).

(** An agent's waypoint index is usable: [waypoints[current_wp]] does not
    raise. *)
Definition wp_valid (b : Boid) : Prop :=
  waypoints b = []
  \/ (- Z.of_nat (List.length (waypoints b)) <= current_wp b
      < Z.of_nat (List.length (waypoints b)))%Z.

(** The attributes that no step of [update] before the position update
    assigns, and the usability of the waypoint index. *)
Definition core_stable (b b' : Boid) : Prop :=
  position b' = position b
  /\ health b' = health b /\ squad_id b' = squad_id b
  /\ is_leader b' = is_leader b /\ is_medic b' = is_medic b
  /\ is_enemy b' = is_enemy b /\ index_in_squad b' = index_in_squad b
  /\ firing_range b' = firing_range b
  /\ detection_range b' = detection_range b /\ waypoints b' = waypoints b
  /\ (wp_valid b -> wp_valid b').

(** [h'] differs from [h] only in the object [self], and there only outside
    the stable attributes. *)
Definition only_self (self : ref) (h h' : Heap) : Prop :=
  (forall b, b <> self -> h' b = h b) /\ core_stable (h self) (h' self).

(** The condition of the healing loop on [ally], read in the store [h]. *)
Definition heal_due (h : Heap) (self ally : ref) : bool :=
  Rltb (distance (position (h self)) (position (h ally))) 60
  && Rltb (health (h ally)) 100.

(** What a healing step makes of an agent. *)
Definition healed (b : Boid) : Boid :=
  set_health (if Rltb 100 (health b + 0.2) then 100 else health b + 0.2) b.

(** The filter of [squad_allies]. *)
Definition squad_ally (h : Heap) (self b : ref) : bool :=
  (squad_id (h b) =? squad_id (h self))%Z && negb (Nat.eqb b self)
  && negb (is_enemy (h b)).

(** [b] is an agent that a medic [self] heals: a non-enemy member of the
    roster with the squad_id of [self], other than [self], closer than 60 to
    the position [p] of [self], with health below 100. *)
Definition heal_recipient (h : Heap) (self : ref) (p : vec)
    (all_boids : list ref) (b : ref) : Prop :=
  In b all_boids /\ is_enemy (h b) = false
  /\ squad_id (h b) = squad_id (h self) /\ b <> self
  /\ distance p (position (h b)) < 60 /\ health (h b) < 100.

(** * Example stores *)

(** A store for the examples: a player leader (0) with its medic (1) and a
    second follower (2), all of squad 0; every other reference is an enemy
    leader of squad 100. *)
Definition squad0 : Heap :=
  fun r =>
    match r with
    | 0%nat => Boid_init 150 350 0 true 0 false (0, 0)
    | 1%nat => set_leader_ref (Some 0%nat)
                 (Boid_init 160 350 0 false 0 false (0, 0))
    | 2%nat => set_leader_ref (Some 0%nat)
                 (Boid_init 170 350 0 false 1 false (0, 0))
    | _ => Boid_init 900 350 100 true 0 true (0, 0)
    end.

Definition roster0 : list ref := [0; 1; 2; 3]%nat.

(** A store for the targeting examples: a player leader (0) at (150, 350)
    without waypoints, two enemies (1 and 2) both 100 units away on either
    side of it, and enemies far away behind every other reference. *)
Definition skirmish : Heap :=
  fun r =>
    match r with
    | 0%nat => Boid_init 150 350 0 true 0 false (0, 0)
    | 1%nat => Boid_init 250 350 100 true 0 true (0, 0)
    | 2%nat => Boid_init 50 350 100 false 0 true (0, 0)
    | _ => Boid_init 900 350 101 true 0 true (0, 0)
    end.

(** A store for the evasion example: a wounded player follower (0) in state
    EVADE at (160, 350) moving at (-1, 0) towards an enemy (1) at
    (150, 350). *)
Definition retreat : Heap :=
  fun r =>
    match r with
    | 0%nat => set_state "EVADE"
                 (set_health 20 (Boid_init 160 350 0 false 1 false (-1, 0)))
    | _ => Boid_init 150 350 100 true 0 true (0, 0)
    end.

(** A world for the motion examples: a lone player leader without waypoints
    near the bottom-right corner, at (999, 699), moving at (3, 4). *)
Definition lone : World :=
  {| heap := fun _ => Boid_init 999 699 0 true 0 false (3, 4);
     projectiles := [] |}.

(** A store for the healing example: squad 0 with a wounded leader (0, health
    50), its medic (1) and a slightly damaged follower (2, health 99.9);
    every other reference is a wounded enemy far away. *)
Definition wounded : Heap :=
  fun r =>
    match r with
    | 0%nat => set_health 50 (Boid_init 150 350 0 true 0 false (0, 0))
    | 1%nat => set_leader_ref (Some 0%nat)
                 (Boid_init 160 350 0 false 0 false (0, 0))
    | 2%nat => set_health 99.9
                 (set_leader_ref (Some 0%nat)
                    (Boid_init 170 350 0 false 1 false (0, 0)))
    | _ => set_health 40 (Boid_init 900 350 100 true 0 true (0, 0))
    end.

(** A store for the example: squad 0 with a wounded leader (0), its medic
    (1) and a dead follower (2, health 0) that is still where it fell, 20
    units from the leader and 10 from the medic. *)
Definition fallen : Heap :=
  fun r =>
    match r with
    | 0%nat => set_health 50 (Boid_init 150 350 0 true 0 false (0, 0))
    | 1%nat => set_leader_ref (Some 0%nat)
                 (Boid_init 160 350 0 false 0 false (0, 0))
    | 2%nat => set_health 0
                 (set_leader_ref (Some 0%nat)
                    (Boid_init 170 350 0 false 1 false (0, 0)))
    | _ => Boid_init 900 350 100 true 0 true (0, 0)
    end.

(** * The rest of the engine *)

(** ** Ping *)

Module Ping.

Record t : Type := mk {
  pos : vec;
  radius : Z;
  max_radius : Z;
  active : bool
}.

(** [Ping(pos)]; the position is copied. *)
Definition init (p : vec) : t :=
  {| pos := p; radius := 0; max_radius := 100; active := true |}.

(** [Ping.update] (lines 61-65). *)
Definition update (p : t) : t :=
  if (radius p <? max_radius p)%Z then
    {| pos := pos p; radius := radius p + 3; max_radius := max_radius p;
       active := active p |}
  else
    {| pos := pos p; radius := radius p; max_radius := max_radius p;
       active := false |}.

End Ping.

(** ** Waypoints *)

(** Attribute assignment [b.waypoints = x]. *)
Definition set_waypoints (x : list vec) (b : Boid) : Boid :=
  {| position := position b;
     velocity := velocity b;
     squad_id := squad_id b;
     is_leader := is_leader b;
     index_in_squad := index_in_squad b;
     leader_ref := leader_ref b;
     formation_offset := formation_offset b;
     waypoints := x;
     current_wp := current_wp b;
     health := health b;
     attacking := attacking b;
     target_enemy := target_enemy b;
     is_medic := is_medic b;
     shielded := shielded b;
     shield_timer := shield_timer b;
     projectile_cooldown := projectile_cooldown b;
     is_enemy := is_enemy b;
     firing_range := firing_range b;
     detection_range := detection_range b;
     state := state b |}.

(** [Boid.add_waypoint] (lines 131-133). *)
Definition add_waypoint (h : Heap) (self : ref) (pos : vec) : Heap :=
  modify h self (fun b => set_waypoints (waypoints b ++ [pos]) b).

(** ** The game loop, continued *)

(** The module-level state of the game: the store with the list
    [projectiles], the list [boids] and the list [pings]. *)
Record Game : Type := mkGame {
  world : World;
  boids : list ref;
  pings : list Ping.t
}.

(** The left-click handler (lines 396-402), one iteration of its loop over
    [boids] for a click at [click]. *)
Definition shield_click_one (click : vec) (all_boids : list ref)
    (g : Heap * list Ping.t) (b : ref) : Heap * list Ping.t :=
  let h := fst g in
  if is_leader (h b) && negb (is_enemy (h b))
     && Rltb (distance (position (h b)) click) (BOID_RADIUS * 2)
  then
    let h1 := apply_shield h b all_boids in
    (h1, snd g ++ [Ping.init (position (h1 b))])
  else g.

(** The left-click handler (lines 396-402). *)
Definition shield_click (g : Game) (click : vec) : Game :=
  let r := fold_left (shield_click_one click (boids g)) (boids g)
             (heap (world g), pings g) in
  {| world := {| heap := fst r; projectiles := projectiles (world g) |};
     boids := boids g;
     pings := snd r |}.

(** The search loop of the right-click handler (lines 406-412), one
    iteration; [None] stands for [closest_leader = None] with
    [min_dist = float('inf')]. *)
Definition closer_leader (h : Heap) (mouse_pos : vec)
    (acc : option (ref * R)) (b : ref) : option (ref * R) :=
  if is_leader (h b) && negb (is_enemy (h b)) then
    let dist := distance (position (h b)) mouse_pos in
    match acc with
    | None => Some (b, dist)
    | Some (_, min_dist) =>
      if Rltb dist min_dist then Some (b, dist) else acc
    end
  else acc.

(** The right-click handler (lines 403-417). *)
Definition waypoint_click (g : Game) (mouse_pos : vec) : Game :=
  let h := heap (world g) in
  match fold_left (closer_leader h mouse_pos) (boids g) None with
  | Some (closest_leader, _) =>
    {| world :=
         {| heap := modify h closest_leader
                      (fun b => set_state "PATROL"
                                  (set_current_wp 0
                                     (set_waypoints [mouse_pos] b)));
            projectiles := projectiles (world g) |};
       boids := boids g;
       pings := pings g |}
  | None => g
  end.

(** The loop over the projectiles (lines 434-436, without the drawing): the
    store and the projectiles after it. *)
Fixpoint projectile_pass (h : Heap) (ps : list Projectile.t)
  : Heap * list Projectile.t :=
  match ps with
  | [] => (h, [])
  | p :: rest =>
    let (h1, p1) := Projectile.update h p in
    let (h2, rest') := projectile_pass h1 rest in
    (h2, p1 :: rest')
  end.

(** One frame of the game loop without events and drawing (lines 422-441):
    the three lists are filtered, then the agents, the projectiles (those
    fired in this frame included) and the pings are updated. *)
Definition frame (g : Game) (rnds : list (R * R)) : option Game :=
  let projectiles' := filter Projectile.active (projectiles (world g)) in
  let pings' := filter Ping.active (pings g) in
  match boid_pass {| heap := heap (world g); projectiles := projectiles' |}
          (boids g) rnds with
  | None => None
  | Some (w1, boids') =>
    let (h2, ps2) := projectile_pass (heap w1) (projectiles w1) in
    Some {| world := {| heap := h2; projectiles := ps2 |};
            boids := boids';
            pings := map Ping.update pings' |}
  end.

(** Successive frames; [rnds] holds the random draws of each frame. *)
Fixpoint frames (g : Game) (rnds : list (list (R * R))) : option Game :=
  match rnds with
  | [] => Some g
  | r :: rest =>
    match frame g r with
    | None => None
    | Some g1 => frames g1 rest
    end
  end.

(** Successive calls of [Projectile.update] on one projectile. *)
Fixpoint projectile_updates (n : nat) (h : Heap) (p : Projectile.t)
  : Heap * Projectile.t :=
  match n with
  | O => (h, p)
  | S n' =>
    let (h1, p1) := Projectile.update h p in projectile_updates n' h1 p1
  end.

(** * Vocabulary of the further statements *)

(** The number of projectiles of [ps] whose target is [b]. *)
Definition aimed_at (b : ref) (ps : list Projectile.t) : nat :=
  List.length (filter (fun p => Nat.eqb (Projectile.target_boid p) b) ps).

(** The shield attributes of an agent. *)
Definition shield_state (b : Boid) : bool * Z :=
  (shielded b, shield_timer b).

(** What the timer step of [update] (lines 164-167) does to the shield
    attributes. *)
Definition tick_shield (s : bool * Z) : bool * Z :=
  let t := if (0 <? snd s)%Z then (snd s - 1)%Z else snd s in
  (if fst s && (t <=? 0)%Z then false else fst s, t).

(** The agent [self] is about to fire at [e]: it is alive and in state
    ENGAGE, [e] is its live target within firing range, and its cooldown
    will be 0 after the decrement at the start of the update. *)
Definition ready_to_fire (h : Heap) (self e : ref) : Prop :=
  0 < health (h self) /\ state (h self) = "ENGAGE"%string
  /\ target_enemy (h self) = Some e /\ 0 < health (h e)
  /\ (0 <= projectile_cooldown (h self) <= 1)%Z
  /\ distance (position (h self)) (position (h e)) <= firing_range (h self).

(** A store for the firing example: a player leader (0) in state ENGAGE with
    the enemy (1) at distance 100 as its target and no cooldown. *)
Definition duel : Heap :=
  fun r =>
    match r with
    | 0%nat => set_state "ENGAGE"
                 (set_target_enemy (Some 1%nat)
                    (Boid_init 150 350 0 true 0 false (0, 0)))
    | _ => Boid_init 250 350 100 true 0 true (0, 0)
    end.

(** No agent of the roster is a live agent of the faction opposing
    [self]. *)
Definition no_opposition (h : Heap) (self : ref) (all_boids : list ref)
  : Prop :=
  forall b, In b all_boids -> opposing_live h self b = false.

(** The attributes that make up the role of an agent. *)
Definition role (b : Boid) : Z * bool * bool * bool * Z * R * R :=
  (squad_id b, is_leader b, is_medic b, is_enemy b, index_in_squad b,
   firing_range b, detection_range b).

(** The agent [b] is a player leader within reach of a click at [click]
    (the test of the left-click handler). *)
Definition clicked (h : Heap) (click : vec) (b : ref) : bool :=
  is_leader (h b) && negb (is_enemy (h b))
  && Rltb (distance (position (h b)) click) (BOID_RADIUS * 2).

(** The agent [b] is a player leader (the test of the right-click
    handler). *)
Definition player_leader (h : Heap) (b : ref) : bool :=
  is_leader (h b) && negb (is_enemy (h b)).

(** The game of the examples with the store [h], the roster [roster0] and no
    projectiles or pings. *)
Definition game0 (h : Heap) : Game :=
  {| world := {| heap := h; projectiles := [] |};
     boids := roster0;
     pings := [] |}.

(** The waypoint index of an agent is in range: it is 0 when there is no
    waypoint and a position of the list otherwise. *)
Definition wp_index_ok (b : Boid) : Prop :=
  (0 <= current_wp b)%Z
  /\ (current_wp b = 0
      \/ current_wp b < Z.of_nat (List.length (waypoints b)))%Z.

(** The waypoint index that the patrol step of a leader leaves (lines
    219-229): the next index, cyclically, when the waypoint at the current
    index is strictly within 10 units, and the current index otherwise. *)
Definition patrol_next_wp (b : Boid) : Z :=
  match py_index (waypoints b) (current_wp b) with
  | Some target =>
    if Rltb (distance (position b) target) 10
    then ((current_wp b + 1) mod Z.of_nat (List.length (waypoints b)))%Z
    else current_wp b
  | None => current_wp b
  end.

(** The leader reference and the formation offset that the patrol step of a
    follower leaves (lines 230-240), read in the store [h]. *)
Definition patrol_follow (h : Heap) (b : Boid) (squad_size : Z)
  : option ref * option vec :=
  match leader_ref b with
  | Some l =>
    if Rltb 0 (health (h l))
    then (Some l,
          get_formation_offset (index_in_squad b) FORMATION_MODE squad_size)
    else (None, Some (formation_offset b))
  | None => (None, Some (formation_offset b))
  end.

(** * Binary64 arithmetic

    The speed cap and the wrap-around of [Boid.update] over the numbers
    Python computes with: [float] is IEEE binary64 and its operations round
    to nearest, ties to even, as Python's do. *)

Module Binary64.

Import PrimFloat FloatOps SpecFloat.

Definition vec : Type := float * float.

Definition WIDTH : float := 1000.
Definition HEIGHT : float := 700.
Definition MAX_SPEED : float := 2.

(** The value of a finite number, as a pair [(m, e)] that stands for
    [m * 2 ^ e]; [None] for an infinity or a NaN. *)
Definition mantissa_exponent (x : float) : option (Z * Z) :=
  match Prim2SF x with
  | S754_zero _ => Some (0%Z, 0%Z)
  | S754_finite s m e => Some (if s then Z.neg m else Z.pos m, e)
  | S754_infinity _ | S754_nan => None
  end.

(** The number with the value [m * 2 ^ e], for a value that binary64
    represents, with the sign [s] when the value is zero. *)
Definition of_mantissa_exponent (s : bool) (m e : Z) : float :=
  match m with
  | Z0 => if s then neg_zero else zero
  | Z.pos p => SF2Prim (S754_finite false p e)
  | Z.neg p => SF2Prim (S754_finite true p e)
  end.


(** C's [fmod], which Python's [%] on floats calls: the remainder of the
    division truncated towards zero, with the sign of [x]; it is exact. *)
Definition fmod (x y : float) : float :=
  match mantissa_exponent x, mantissa_exponent y with
  | Some (mx, ex), Some (my, ey) =>
    if (my =? 0)%Z then nan
    else
      let e := Z.min ex ey in
      let r := Z.rem (mx * 2 ^ (ex - e)) (my * 2 ^ (ey - e)) in
      of_mantissa_exponent (get_sign x) r e
  | Some _, None => if is_nan y then nan else x
  | None, _ => nan
  end.

(** Python's [x % m] on floats ([float_rem] of CPython): [None] is
    ZeroDivisionError. *)
Definition py_fmod (x m : float) : option float :=
  if (m =? 0)%float then None
  else
    let r := fmod x m in
    if is_nan r then Some r
    else if (r =? 0)%float then Some (if get_sign m then neg_zero else zero)
    else if xorb (m <? 0)%float (r <? 0)%float then Some (r + m)%float
    else Some r.

(** [math.hypot] on two arguments: the square root of the exact sum of the
    squares, rounded once.  CPython computes the norm in extended precision
    with an error below one unit in the last place, which gives this
    correctly rounded value except in rare cases. *)
Definition hypot (x y : float) : float :=
  if is_infinity x || is_infinity y then infinity
  else
    match mantissa_exponent x, mantissa_exponent y with
    | Some (mx, ex), Some (my, ey) =>
      let e := Z.min ex ey in
      let a := (mx * 2 ^ (ex - e))%Z in
      let b := (my * 2 ^ (ey - e))%Z in
      match (a * a + b * b)%Z with
      | Z.pos n => SF2Prim (SFsqrt prec emax (S754_finite false n (2 * e)))
      | _ => zero
      end
    | _, _ => nan
    end.

(** [Boid.update], speed cap (lines 200-204). *)
Definition cap_speed (v : vec) : vec :=
  let speed := hypot (fst v) (snd v) in
  if (MAX_SPEED <? speed)%float then
    ((fst v / speed * MAX_SPEED)%float, (snd v / speed * MAX_SPEED)%float)
  else v.

(** [Boid.update], integration and wrap-around (lines 207-212), on the
    position [p] and the velocity [v]. *)
Definition integrate (p v : vec) : option vec :=
  match py_fmod (fst p + fst v)%float WIDTH,
        py_fmod (snd p + snd v)%float HEIGHT with
  | Some x, Some y => Some (x, y)
  | _, _ => None
  end.


End Binary64.

(** * Rounding *)

(** The tolerance of the statements that depend on rounding: it is far above
    the rounding errors of binary64 arithmetic on numbers of the size of the
    screen, and far below every distance the engine compares with. *)
Definition TOL : R := 1e-9.


(** The speed cap (lines 200-204) when every operation returns its exact
    result times [1 + d] for an error [d] of its own: [d0] for
    [math.hypot], [dx] and [dy] for the two quotients, [ex] and [ey] for the
    two products. *)
Definition cap_speed_rounded (d0 dx dy ex ey : R) (v : vec) : vec :=
  let speed := hypot (fst v) (snd v) * (1 + d0) in
  if Rltb MAX_SPEED speed then
    (fst v / speed * (1 + dx) * MAX_SPEED * (1 + ex),
     snd v / speed * (1 + dy) * MAX_SPEED * (1 + ey))
  else v.

(** The quotient [x / m] truncated towards zero, as in C's [fmod]. *)
Definition Rtrunc (x : R) : Z := if Rle_dec 0 x then Zfloor x else Zceil x.

(** Python's [x % m] on floats for a positive [m] when the only operation
    that rounds, the addition of [m] to a negative remainder, returns
    [rnd] of its exact result; the remainder of C's [fmod] is exact. *)
Definition py_fmod_rounded (rnd : R -> R) (x m : R) : R :=
  let r := x - m * IZR (Rtrunc (x / m)) in
  if Rltb r 0 then rnd (r + m) else r.

(** * Properties *)

(** ** Auxiliary facts: comparisons, the store, [hypot] *)

Lemma Rltb_true (x y : R) : x < y -> Rltb x y = true.
Proof.
  intros H; unfold Rltb.
  destruct (Rlt_dec x y); [reflexivity | contradiction].
Qed.

Lemma Rltb_false (x y : R) : y <= x -> Rltb x y = false.
Proof. intros H; unfold Rltb; destruct (Rlt_dec x y); [lra | reflexivity]. Qed.

Lemma Rltb_iff (x y : R) : Rltb x y = true <-> x < y.
Proof.
  unfold Rltb; destruct (Rlt_dec x y); split; intros; auto; try discriminate;
    try contradiction.
Qed.

Lemma Rleb_true (x y : R) : x <= y -> Rleb x y = true.
Proof.
  intros H; unfold Rleb.
  destruct (Rle_dec x y); [reflexivity | contradiction].
Qed.

Lemma Rleb_false (x y : R) : y < x -> Rleb x y = false.
Proof. intros H; unfold Rleb; destruct (Rle_dec x y); [lra | reflexivity]. Qed.

Lemma modify_same (h : Heap) (r : ref) (f : Boid -> Boid) :
  modify h r f r = f (h r).
Proof. unfold modify; now rewrite Nat.eqb_refl. Qed.

Lemma modify_other (h : Heap) (r r' : ref) (f : Boid -> Boid) :
  r' <> r -> modify h r f r' = h r'.
Proof.
  intros H; unfold modify.
  destruct (Nat.eqb_spec r' r); [contradiction | reflexivity].
Qed.

Lemma hypot_nonneg (x y : R) : 0 <= hypot x y.
Proof. apply sqrt_pos. Qed.

Lemma hypot_sqr (x y : R) : hypot x y * hypot x y = x * x + y * y.
Proof. unfold hypot; apply sqrt_sqrt; nra. Qed.

Lemma hypot_0_0 : hypot 0 0 = 0.
Proof.
  unfold hypot; replace (0 * 0 + 0 * 0) with 0 by ring; apply sqrt_0.
Qed.

Lemma hypot_lt_iff (x y r : R) :
  0 <= r -> (hypot x y < r <-> x * x + y * y < r * r).
Proof.
  intros Hr; pose proof (hypot_nonneg x y); pose proof (hypot_sqr x y).
  split; intros; nra.
Qed.

(** ** C1: formation offsets *)

(** C1, as stated, fails: for follower index 0 in mode V with squad size 6 the
    code returns offset (0, 0), not (-30, 30), and for index 2 it returns
    (-30, 30), not (-60, 60); the layer is the floor of (index+1)/2, not its
    ceiling. *)
Lemma formation_offset_V_not_ceiling :
  get_formation_offset 0 "V" 6 = Some (0, 0)
  /\ get_formation_offset 0 "V" 6 <> Some (-30, 30)
  /\ get_formation_offset 2 "V" 6 = Some (-30, 30)
  /\ get_formation_offset 2 "V" 6 <> Some (-60, 60).
Proof.
  repeat split; try reflexivity.
  - cbn. intros E. injection E as E0 E1. lra.
  - cbn. intros E. injection E as E0 E1. lra.
Qed.

(** C1, amended: in mode V the offset is (side * 30 * layer, 30 * layer) where
    layer is the floor of (index+1)/2 (the integer with
    2*layer <= index+1 < 2*layer+2) and side is -1 for an even index and +1
    for an odd one, whatever the squad size; with squad size 6 this gives
    (0, 0) for index 0, (30, 30) for index 1 and (-30, 30) for index 2. *)
Theorem formation_offset_V_floor :
  (forall index total : Z,
      exists layer side : Z,
        get_formation_offset index "V" total
        = Some (IZR (side * 30 * layer), IZR (30 * layer))
        /\ (2 * layer <= index + 1 < 2 * layer + 2)%Z
        /\ side = (if Z.even index then -1 else 1)%Z)
  /\ get_formation_offset 0 "V" 6 = Some (0, 0)
  /\ get_formation_offset 1 "V" 6 = Some (30, 30)
  /\ get_formation_offset 2 "V" 6 = Some (-30, 30).
Proof.
  split; [| repeat split; reflexivity].
  intros index total.
  exists ((index + 1) / 2)%Z, (if Z.even index then -1 else 1)%Z.
  split; [| split; [| reflexivity]].
  - unfold get_formation_offset; cbn [String.eqb Ascii.eqb Bool.eqb].
    rewrite Zeven_mod. reflexivity.
  - pose proof (Z.mod_pos_bound (index + 1) 2 ltac:(lia)).
    pose proof (Z.div_mod (index + 1) 2 ltac:(lia)). lia.
Qed.

(** ** C5, C10: shield activation *)

Lemma fold_shield_one (l : list ref) (h : Heap) (r : ref) :
  fold_left shield_one l h r
  = if existsb (Nat.eqb r) l then shielded_boid (h r) else h r.
Proof.
  revert h; induction l as [| a l IH]; intros h; cbn [fold_left existsb].
  - reflexivity.
  - rewrite IH. unfold shield_one.
    destruct (Nat.eqb_spec r a) as [-> | Hne]; cbn [orb].
    + rewrite !modify_same. now destruct (existsb (Nat.eqb a) l).
    + now rewrite !modify_other by assumption.
Qed.

Lemma existsb_eqb_In (r : ref) (l : list ref) :
  existsb (Nat.eqb r) l = true <-> In r l.
Proof.
  rewrite existsb_exists; split.
  - intros (x & Hx & E). apply Nat.eqb_eq in E. now subst.
  - intros H; exists r; split; [assumption | apply Nat.eqb_refl].
Qed.

(** The store after a successful activation, agent by agent. *)
Lemma apply_shield_active (h : Heap) (self : ref) (all_boids : list ref)
    (b : ref) :
  is_leader (h self) = true -> is_enemy (h self) = false ->
  (shield_timer (h self) <= 0)%Z ->
  apply_shield h self all_boids b
  = if Nat.eqb b self then set_shield_timer 600 (h self)
    else if existsb (Nat.eqb b) (filter (shield_member h self) all_boids)
         then shielded_boid (h b)
         else h b.
Proof.
  intros Hl He Ht. unfold apply_shield.
  rewrite Hl, He. apply Z.leb_le in Ht. rewrite Ht. cbn [andb negb].
  fold (shield_member h self).
  destruct (Nat.eqb_spec b self) as [-> | Hne].
  - rewrite modify_same, fold_shield_one.
    destruct (existsb _ _) eqn:E; [| reflexivity].
    apply existsb_eqb_In, filter_In in E. destruct E as [_ E].
    unfold shield_member in E. rewrite Hl in E.
    rewrite andb_false_r in E. discriminate.
  - rewrite modify_other by assumption. apply fold_shield_one.
Qed.

Lemma apply_shield_inactive (h : Heap) (self : ref) (all_boids : list ref) :
  (shield_timer (h self) > 0)%Z \/ is_leader (h self) = false
  \/ is_enemy (h self) = true ->
  apply_shield h self all_boids = h.
Proof.
  intros H. unfold apply_shield.
  destruct H as [H | [H | H]].
  - apply Z.gt_lt, Z.leb_gt in H. rewrite H. now rewrite andb_false_r.
  - now rewrite H.
  - rewrite H. cbn [negb]. now rewrite andb_false_r.
Qed.

(** C5: apply_shield on a non-enemy leader whose shield_timer is <= 0 sets
    shielded = true and shield_timer = 180 on every non-leader non-enemy agent
    of the roster that shares its squad_id, and sets the leader's own
    shield_timer to 600 whether or not there is such a follower; called when
    shield_timer > 0, or on a non-leader or an enemy agent, it leaves every
    agent of the store as it was. *)
Theorem apply_shield_spec (h : Heap) (self : ref) (all_boids : list ref) :
  (is_leader (h self) = true -> is_enemy (h self) = false ->
   (shield_timer (h self) <= 0)%Z ->
   (forall b, In b all_boids -> squad_id (h b) = squad_id (h self) ->
              is_leader (h b) = false -> is_enemy (h b) = false ->
              shielded (apply_shield h self all_boids b) = true
              /\ shield_timer (apply_shield h self all_boids b) = 180%Z)
   /\ shield_timer (apply_shield h self all_boids self) = 600%Z)
  /\ ((shield_timer (h self) > 0)%Z \/ is_leader (h self) = false
      \/ is_enemy (h self) = true ->
      forall b, apply_shield h self all_boids b = h b).
Proof.
  split.
  - intros Hl He Ht. split.
    + intros b Hin Hs Hbl Hbe.
      rewrite (apply_shield_active h self all_boids b Hl He Ht).
      destruct (Nat.eqb_spec b self) as [-> | Hne]; [congruence |].
      assert (E : existsb (Nat.eqb b) (filter (shield_member h self) all_boids)
                  = true).
      { apply existsb_eqb_In, filter_In. split; [assumption |].
        unfold shield_member. rewrite Hs, Hbl, Hbe, Z.eqb_refl. reflexivity. }
      rewrite E. split; reflexivity.
    + rewrite (apply_shield_active h self all_boids self Hl He Ht).
      rewrite Nat.eqb_refl. reflexivity.
  - intros H b. now rewrite apply_shield_inactive.
Qed.

(** C10: a successful apply_shield leaves the activating leader's shielded
    flag as it was (the leader only gets shield_timer = 600); every agent
    keeps all attributes other than shielded and shield_timer; and an agent
    that is neither the leader nor a same-squad non-leader non-enemy member
    of the roster is not modified at all. *)
Theorem apply_shield_frame (h : Heap) (self : ref) (all_boids : list ref) :
  is_leader (h self) = true -> is_enemy (h self) = false ->
  (shield_timer (h self) <= 0)%Z ->
  shielded (apply_shield h self all_boids self) = shielded (h self)
  /\ apply_shield h self all_boids self = set_shield_timer 600 (h self)
  /\ (forall b, eq_except_shield (h b) (apply_shield h self all_boids b))
  /\ (forall b, b <> self ->
                ~ (In b all_boids /\ squad_id (h b) = squad_id (h self)
                   /\ is_leader (h b) = false /\ is_enemy (h b) = false) ->
                apply_shield h self all_boids b = h b).
Proof.
  intros Hl He Ht.
  pose proof (fun b => apply_shield_active h self all_boids b Hl He Ht) as A.
  split; [| split; [| split]].
  - rewrite A, Nat.eqb_refl. reflexivity.
  - rewrite A, Nat.eqb_refl. reflexivity.
  - intros b. rewrite A.
    destruct (Nat.eqb_spec b self) as [-> | Hne].
    + unfold eq_except_shield; repeat split.
    + destruct (existsb _ _); unfold eq_except_shield; repeat split.
  - intros b Hne Hnot. rewrite A.
    destruct (Nat.eqb_spec b self) as [-> | _]; [contradiction |].
    destruct (existsb _ _) eqn:E; [| reflexivity].
    exfalso; apply Hnot.
    apply existsb_eqb_In, filter_In in E. destruct E as [Hin E].
    unfold shield_member in E.
    apply andb_true_iff in E; destruct E as [E E3].
    apply andb_true_iff in E; destruct E as [E1 E2].
    apply Z.eqb_eq in E1. apply negb_true_iff in E2, E3. auto.
Qed.

(** The shield scenario: the first activation shields both followers and
    starts the leader's cooldown, an immediate second one is a no-op. *)
Lemma apply_shield_spec_witness :
  (shielded (apply_shield squad0 0 roster0 1%nat) = true
   /\ shield_timer (apply_shield squad0 0 roster0 1%nat) = 180%Z)
  /\ shield_timer (apply_shield squad0 0 roster0 0%nat) = 600%Z
  /\ (forall b, apply_shield (apply_shield squad0 0 roster0) 0 roster0 b
                = apply_shield squad0 0 roster0 b).
Proof.
  destruct (apply_shield_spec squad0 0 roster0) as [A _].
  destruct (A eq_refl eq_refl ltac:(cbn; lia)) as [F L].
  split; [| split].
  - apply F; try reflexivity. cbn; auto.
  - exact L.
  - destruct (apply_shield_spec (apply_shield squad0 0 roster0) 0 roster0)
      as [_ B].
    apply B. left. rewrite L. lia.
Defined.

Lemma apply_shield_frame_witness :
  shielded (apply_shield squad0 0 roster0 0%nat) = false
  /\ apply_shield squad0 0 roster0 3%nat = squad0 3%nat.
Proof.
  destruct (apply_shield_frame squad0 0 roster0 eq_refl eq_refl
              ltac:(cbn; lia)) as (A & _ & _ & D).
  split.
  - exact A.
  - apply D; [discriminate |].
    intros (_ & E & _). cbn in E. discriminate.
Defined.

(** ** C4: projectile hit resolution *)

Lemma hypot_x_0_abs (x : R) : hypot x 0 = Rabs x.
Proof.
  unfold hypot. replace (x * x + 0 * 0) with (Rsqr x) by (unfold Rsqr; ring).
  apply sqrt_Rsqr_abs.
Qed.

Lemma distance_same_y (x1 x2 y : R) :
  distance (x1, y) (x2, y) = Rabs (x1 - x2).
Proof.
  unfold distance; cbn [fst snd].
  replace (y - y) with 0 by ring. apply hypot_x_0_abs.
Qed.

(** Rewrites comparisons of concrete reals to their truth value. *)
Ltac rcmp :=
  repeat first
    [ rewrite Rltb_true by lra | rewrite Rltb_false by lra
    | rewrite Rleb_true by lra | rewrite Rleb_false by lra ].

(** Rewrites [Rabs] of a concrete real to its value. *)
Ltac rabs :=
  repeat first
    [ rewrite Rabs_pos_eq by lra | rewrite Rabs_left1 by lra ].

(** C4: when Projectile.update moves an active projectile strictly within
    BOID_RADIUS of its live target, the target's health decreases by exactly
    5 if the target is not shielded and is unchanged if it is shielded, and
    the projectile's active flag becomes false in both cases; no other agent
    is touched. *)
Theorem projectile_hit (h : Heap) (p : Projectile.t) :
  Projectile.active p = true ->
  0 < health (h (Projectile.target_boid p)) ->
  distance (Projectile.pos (Projectile.advance h p))
           (position (h (Projectile.target_boid p))) < BOID_RADIUS ->
  let h' := fst (Projectile.update h p) in
  let p' := snd (Projectile.update h p) in
  let tgt := Projectile.target_boid p in
  Projectile.active p' = false
  /\ (shielded (h tgt) = false -> health (h' tgt) = health (h tgt) - 5)
  /\ (shielded (h tgt) = true -> health (h' tgt) = health (h tgt))
  /\ (forall b, b <> tgt -> h' b = h b).
Proof.
  intros Ha Hlive Hhit h' p' tgt. subst h' p'.
  unfold Projectile.update.
  rewrite Ha, (Rleb_false _ _ Hlive). cbn [negb orb].
  change (Projectile.target_boid (Projectile.advance h p)) with tgt.
  fold tgt in Hhit. rewrite (Rltb_true _ _ Hhit).
  cbn [fst snd]. split; [reflexivity |]. split; [| split].
  - intros Hs. rewrite Hs. cbn [negb]. now rewrite modify_same.
  - intros Hs. rewrite Hs. reflexivity.
  - intros b Hb. destruct (shielded (h tgt)); cbn [negb];
      [reflexivity | now apply modify_other].
Qed.

(** A projectile fired from (156, 350) at the unshielded medic at
    (160, 350): it advances by 5 to (161, 350), one unit from the target,
    and takes 5 of its 100 health. *)
Lemma projectile_hit_witness :
  Projectile.active
    (snd (Projectile.update squad0 (Projectile.init (156, 350) 1))) = false
  /\ health (fst (Projectile.update squad0 (Projectile.init (156, 350) 1))
               1%nat) = 100 - 5.
Proof.
  assert (D : distance (156, 350) (160, 350) = 4).
  { rewrite distance_same_y. rabs. lra. }
  assert (Hhit : distance
                   (Projectile.pos
                      (Projectile.advance squad0
                         (Projectile.init (156, 350) 1)))
                   (position (squad0 1%nat)) < BOID_RADIUS).
  { unfold Projectile.advance. cbn. rewrite D. rcmp. cbn.
    replace (156 + (160 - 156) / 4 * 5) with 161 by lra.
    replace (350 + (350 - 350) / 4 * 5) with 350 by lra.
    rewrite distance_same_y. rabs. unfold BOID_RADIUS. lra. }
  destruct (projectile_hit squad0 (Projectile.init (156, 350) 1) eq_refl
              ltac:(cbn; lra) Hhit) as (A & B & _).
  split; [exact A | exact (B eq_refl)].
Defined.

(** ** C6: target acquisition while patrolling *)

Section PyMin.

Variable key : ref -> R.

(** [py_min] returns the first element of minimal key: the elements before
    it have a strictly larger key, the elements after it a key at least as
    large. *)
Lemma py_min_first (l : list ref) (best : ref) :
  exists l1 l2,
    best :: l = l1 ++ py_min key best l :: l2
    /\ (forall x, In x l1 -> key (py_min key best l) < key x)
    /\ (forall x, In x l2 -> key (py_min key best l) <= key x).
Proof.
  revert best; induction l as [| x l IH]; intros best; cbn [py_min].
  - exists [], []. repeat split; intros y [].
  - destruct (Rlt_dec (key x) (key best)) as [Hlt | Hge].
    + rewrite (Rltb_true _ _ Hlt).
      destruct (IH x) as (l1 & l2 & E & H1 & H2).
      exists (best :: l1), l2. split; [cbn; now rewrite E |].
      split; [| exact H2].
      intros y [<- | Hy]; [| now apply H1].
      assert (Hx : In x (l1 ++ py_min key x l :: l2))
        by (rewrite <- E; now left).
      apply in_app_or in Hx. destruct Hx as [Hx | [Hx | Hx]].
      * specialize (H1 _ Hx). lra.
      * rewrite Hx. exact Hlt.
      * specialize (H2 _ Hx). lra.
    + rewrite (Rltb_false _ _ (Rnot_lt_le _ _ Hge)).
      destruct (IH best) as (l1 & l2 & E & H1 & H2).
      destruct l1 as [| b1 l1].
      * cbn in E. injection E as E0 E1.
        exists [], (x :: l2). split; [cbn; congruence |].
        split; [intros y [] |].
        intros y [<- | Hy]; [rewrite <- E0; lra | now apply H2].
      * cbn in E. injection E as E0 E1. subst b1.
        exists (best :: x :: l1), l2.
        split; [cbn; do 2 f_equal; exact E1 |]. split; [| exact H2].
        assert (Hb : key (py_min key best l) < key best)
          by (apply H1; now left).
        intros y [<- | [<- | Hy]]; [exact Hb | lra |].
        apply H1. now right.
Qed.

End PyMin.

Lemma filter_filter_andb {A : Type} (f g : A -> bool) (l : list A) :
  filter g (filter f l) = filter (fun x => f x && g x) l.
Proof.
  induction l as [| a l IH]; cbn; [reflexivity |].
  destruct (f a); cbn; [destruct (g a) |]; now rewrite IH.
Qed.

(** A split of a filtered list comes from a split of the list. *)
Lemma filter_split {A : Type} (f : A -> bool) (l : list A) (l1' l2' : list A)
    (e : A) :
  filter f l = l1' ++ e :: l2' ->
  exists l1 l2, l = l1 ++ e :: l2 /\ filter f l1 = l1' /\ filter f l2 = l2'
                /\ f e = true.
Proof.
  revert l1'; induction l as [| a l IH]; intros l1' E; cbn in E.
  - destruct l1'; discriminate.
  - destruct (f a) eqn:Fa.
    + destruct l1' as [| b l1']; cbn in E; injection E as E0 E1.
      * subst a. exists [], l. repeat split; assumption.
      * subst b. destruct (IH _ E1) as (l1 & l2 & -> & F1 & F2 & Fe).
        exists (a :: l1), l2. cbn. rewrite Fa, F1. repeat split; assumption.
    + destruct (IH _ E) as (l1 & l2 & -> & F1 & F2 & Fe).
      exists (a :: l1), l2. cbn. rewrite Fa. repeat split; assumption.
Qed.

Lemma detectableb_iff (h : Heap) (self b : ref) :
  detectableb h self b = true <-> detectable h self b.
Proof.
  unfold detectableb, detectable, opposing_live.
  rewrite !andb_true_iff, negb_true_iff, !Rltb_iff, eqb_false_iff.
  tauto.
Qed.

Lemma enemies_in_detection_range_filter (h : Heap) (self : ref)
    (all_boids : list ref) :
  enemies_in_detection_range h self all_boids
  = filter (detectableb h self) all_boids.
Proof. unfold enemies_in_detection_range. apply filter_filter_andb. Qed.

Lemma sense_eq_detectableb (h h' : Heap) (self b : ref) :
  sense_eq h h' -> detectableb h' self b = detectableb h self b.
Proof.
  intros S. unfold detectableb, opposing_live.
  destruct (S b) as (-> & -> & -> & _).
  destruct (S self) as (-> & _ & -> & ->). reflexivity.
Qed.

Lemma patrol_steer_sense (h h1 : Heap) (self : ref) (squad_size : Z) :
  patrol_steer h self squad_size = Some h1 -> sense_eq h h1.
Proof.
  unfold patrol_steer. intros E b.
  assert (G : forall f, (forall x, position (f x) = position x
                                   /\ health (f x) = health x
                                   /\ is_enemy (f x) = is_enemy x
                                   /\ detection_range (f x)
                                      = detection_range x) ->
                        position (modify h self f b) = position (h b)
                        /\ health (modify h self f b) = health (h b)
                        /\ is_enemy (modify h self f b) = is_enemy (h b)
                        /\ detection_range (modify h self f b)
                           = detection_range (h b)).
  { intros f Hf. unfold modify. destruct (Nat.eqb_spec b self) as [-> |];
      [apply Hf | repeat split]. }
  repeat match type of E with
         | (if ?c then _ else _) = _ => destruct c
         | match ?c with _ => _ end = _ => destruct c
         end;
    try discriminate; injection E as <-;
    try (apply G; intros x; repeat split); repeat split.
Qed.

(** C6: whenever handle_patrol runs to completion and some live agent of the
    opposing faction in the roster lies strictly within detection_range, the
    state becomes 'ENGAGE' and target_enemy is set to such an agent of
    minimum distance; among equidistant candidates it is the one that comes
    first in roster order (every candidate before it in the roster is
    strictly farther, every candidate after it is at least as far). *)
Theorem handle_patrol_nearest (h h' : Heap) (self : ref)
    (all_boids : list ref) (squad_size : Z) :
  handle_patrol h self all_boids squad_size = Some h' ->
  (exists b, In b all_boids /\ detectable h self b) ->
  state (h' self) = "ENGAGE"%string
  /\ exists e l1 l2,
      target_enemy (h' self) = Some e
      /\ all_boids = l1 ++ e :: l2
      /\ detectable h self e
      /\ (forall x, In x l1 -> detectable h self x ->
                    distance (position (h self)) (position (h e))
                    < distance (position (h self)) (position (h x)))
      /\ (forall x, In x l2 -> detectable h self x ->
                    distance (position (h self)) (position (h e))
                    <= distance (position (h self)) (position (h x))).
Proof.
  unfold handle_patrol. intros E (b & Hin & Hb).
  destruct (patrol_steer h self squad_size) as [h1 |] eqn:Es;
    [| discriminate].
  injection E as <-.
  pose proof (patrol_steer_sense _ _ _ _ Es) as S.
  unfold patrol_acquire.
  rewrite enemies_in_detection_range_filter.
  rewrite (filter_ext _ (detectableb h self)
             (fun x => sense_eq_detectableb h h1 self x S)).
  destruct (filter (detectableb h self) all_boids) as [| e0 rest] eqn:F.
  { exfalso. assert (Hf : In b (filter (detectableb h self) all_boids))
      by (apply filter_In; split; [assumption | now apply detectableb_iff]).
    rewrite F in Hf. destruct Hf. }
  rewrite modify_same. split; [reflexivity |].
  set (key := fun e => distance (position (h1 self)) (position (h1 e))).
  assert (K : forall x, key x
                        = distance (position (h self)) (position (h x))).
  { intros x. unfold key. destruct (S x) as (-> & _).
    destruct (S self) as (-> & _). reflexivity. }
  destruct (py_min_first key rest e0) as (l1' & l2' & Ed & H1 & H2).
  rewrite <- F in Ed.
  destruct (filter_split _ _ _ _ _ Ed) as (l1 & l2 & El & F1 & F2 & Fe).
  exists (py_min key e0 rest), l1, l2.
  split; [reflexivity |]. split; [exact El |].
  split; [now apply detectableb_iff |]. split.
  - intros x Hx Dx. rewrite <- !K. apply H1. rewrite <- F1.
    apply filter_In. split; [assumption | now apply detectableb_iff].
  - intros x Hx Dx. rewrite <- !K. apply H2. rewrite <- F2.
    apply filter_In. split; [assumption | now apply detectableb_iff].
Qed.

Lemma py_index_valid {A : Type} (l : list A) (i : Z) :
  (- Z.of_nat (List.length l) <= i < Z.of_nat (List.length l))%Z ->
  exists x, py_index l i = Some x.
Proof.
  intros Hi. unfold py_index.
  destruct (Z.leb_spec 0 i).
  - destruct (nth_error l (Z.to_nat i)) eqn:E; [eauto |].
    apply nth_error_None in E. lia.
  - destruct (Z.leb_spec (- Z.of_nat (List.length l)) i); [| lia].
    destruct (nth_error l (Z.to_nat (Z.of_nat (List.length l) + i))) eqn:E;
      [eauto |].
    apply nth_error_None in E. lia.
Qed.

(** [handle_patrol] returns whenever the waypoint index is usable. *)
Lemma handle_patrol_returns (h : Heap) (self : ref) (all_boids : list ref)
    (squad_size : Z) :
  wp_valid (h self) ->
  exists h', handle_patrol h self all_boids squad_size = Some h'.
Proof.
  intros V. unfold handle_patrol, patrol_steer.
  destruct (is_leader (h self)).
  - destruct V as [-> | V]; [eauto |].
    destruct (waypoints (h self)) as [| p l] eqn:W; [eauto |].
    destruct (py_index_valid (p :: l) _ V) as [x ->].
    destruct (Rltb _ _); eauto.
  - destruct (leader_ref (h self)); [| eauto].
    destruct (Rltb _ _); [| eauto].
    unfold get_formation_offset, FORMATION_MODE. cbn. eauto.
Qed.

Lemma skirmish_detectable_1 : detectable skirmish 0 1.
Proof.
  unfold detectable. cbn. rewrite distance_same_y. rabs.
  repeat split; [discriminate | lra | lra].
Defined.

Lemma handle_patrol_nearest_witness :
  state (patrol_acquire skirmish 0 roster0 0%nat) = "ENGAGE"%string
  /\ exists e l1 l2,
      target_enemy (patrol_acquire skirmish 0 roster0 0%nat) = Some e
      /\ roster0 = l1 ++ e :: l2
      /\ detectable skirmish 0 e
      /\ (forall x, In x l1 -> detectable skirmish 0 x ->
                    distance (position (skirmish 0%nat))
                             (position (skirmish e))
                    < distance (position (skirmish 0%nat))
                               (position (skirmish x)))
      /\ (forall x, In x l2 -> detectable skirmish 0 x ->
                    distance (position (skirmish 0%nat))
                             (position (skirmish e))
                    <= distance (position (skirmish 0%nat))
                                (position (skirmish x))).
Proof.
  apply (handle_patrol_nearest skirmish _ 0 roster0 6 eq_refl).
  exists 1%nat. split; [cbn; auto | exact skirmish_detectable_1].
Defined.

(** Two equidistant candidates: the earlier one in the roster is chosen. *)
Example patrol_tie_first :
  target_enemy (patrol_acquire skirmish 0 roster0 0%nat) = Some 1%nat
  /\ target_enemy (patrol_acquire skirmish 0 [0; 2; 1; 3]%nat 0%nat)
     = Some 2%nat.
Proof.
  assert (D1 : distance (150, 350) (250, 350) = 100)
    by (rewrite distance_same_y; rabs; lra).
  assert (D2 : distance (150, 350) (50, 350) = 100)
    by (rewrite distance_same_y; rabs; lra).
  assert (D3 : distance (150, 350) (900, 350) = 750)
    by (rewrite distance_same_y; rabs; lra).
  split.
  - unfold patrol_acquire, enemies_in_detection_range, opposing_live.
    cbn. rcmp. cbn. rewrite D1, D2, D3. rcmp. cbn.
    rewrite D1, D2. rcmp. reflexivity.
  - unfold patrol_acquire, enemies_in_detection_range, opposing_live.
    cbn. rcmp. cbn. rewrite D1, D2, D3. rcmp. cbn.
    rewrite D1, D2. rcmp. reflexivity.
Qed.

(** ** C2: minimum speed while evading *)

Lemma hypot_scale (k x y : R) :
  0 <= k -> hypot (k * x) (k * y) = k * hypot x y.
Proof.
  intros Hk. unfold hypot.
  replace (k * x * (k * x) + k * y * (k * y))
    with ((k * k) * (x * x + y * y)) by ring.
  rewrite sqrt_mult by nra. now rewrite sqrt_square.
Qed.

(** Rescaling a non-zero vector [v] to length [m]. *)
Lemma hypot_rescale (x y m : R) :
  0 < hypot x y -> 0 <= m ->
  hypot (x / hypot x y * m) (y / hypot x y * m) = m.
Proof.
  intros Hs Hm.
  replace (x / hypot x y * m) with (m / hypot x y * x) by (field; lra).
  replace (y / hypot x y * m) with (m / hypot x y * y) by (field; lra).
  rewrite hypot_scale.
  - field; lra.
  - apply Rmult_le_pos; [lra |]. left. now apply Rinv_0_lt_compat.
Qed.

(** The slow, non-zero case of the minimum-speed step: the velocity keeps its
    direction and gets magnitude exactly MAX_SPEED / 2; no random number is
    used. *)
Lemma evade_min_speed_rescale (v : vec) (rnd : R * R) :
  0 < hypot (fst v) (snd v) -> hypot (fst v) (snd v) < MAX_SPEED / 2 ->
  let v' := evade_min_speed v rnd in
  hypot (fst v') (snd v') = MAX_SPEED / 2
  /\ exists k, 0 < k /\ v' = (k * fst v, k * snd v).
Proof.
  intros Hpos Hslow v'. subst v'. unfold evade_min_speed.
  rewrite (Rltb_true _ _ Hslow), (Rltb_true _ _ Hpos). cbn [fst snd]. split.
  - apply hypot_rescale; [assumption | unfold MAX_SPEED; lra].
  - exists (MAX_SPEED / 2 / hypot (fst v) (snd v)). split.
    + apply Rdiv_lt_0_compat; [unfold MAX_SPEED; lra | assumption].
    + f_equal; field; lra.
Qed.

(** The fast case: the boosted velocity is kept. *)
Lemma evade_min_speed_fast (v : vec) (rnd : R * R) :
  MAX_SPEED / 2 <= hypot (fst v) (snd v) -> evade_min_speed v rnd = v.
Proof.
  intros H. unfold evade_min_speed. now rewrite (Rltb_false _ _ H).
Qed.

(** The zero case: the two components are the two random draws, each scaled
    by MAX_SPEED / 2, independently of each other. *)
Lemma evade_min_speed_zero (v : vec) (rnd : R * R) :
  hypot (fst v) (snd v) = 0 ->
  evade_min_speed v rnd = (fst rnd * MAX_SPEED / 2, snd rnd * MAX_SPEED / 2).
Proof.
  intros H. unfold evade_min_speed. rewrite H.
  rewrite Rltb_true by (unfold MAX_SPEED; lra).
  rewrite Rltb_false by lra. reflexivity.
Qed.

Lemma retreat_threats : threats retreat 0 [0; 1]%nat = [1%nat].
Proof.
  assert (D : distance (160, 350) (150, 350) = 10)
    by (rewrite distance_same_y; rabs; lra).
  unfold threats, opposing_live. cbn. rewrite D. rcmp.
  reflexivity.
Qed.

(** C2, the zero-velocity case on a concrete run: the flee boost
    0.1 * (position - threat position) = (1, 0) cancels the velocity (-1, 0)
    exactly; with random draws 1/2 and 1/2 the new velocity is (1/2, 1/2),
    whose magnitude is strictly below MAX_SPEED / 2, so it is neither of
    magnitude MAX_SPEED / 2 nor at least that fast. *)
Theorem handle_evade_zero_velocity_slow :
  let v' := velocity (handle_evade retreat 0 [0; 1]%nat (1 / 2, 1 / 2) 0%nat)
  in
  v' = (1 / 2, 1 / 2)
  /\ hypot (fst v') (snd v') < MAX_SPEED / 2
  /\ hypot (fst v') (snd v') <> MAX_SPEED / 2.
Proof.
  assert (V : velocity
                (handle_evade retreat 0 [0; 1]%nat (1 / 2, 1 / 2) 0%nat)
              = (1 / 2, 1 / 2)).
  { unfold handle_evade. rewrite retreat_threats. cbn [py_min].
    rewrite modify_same. cbn.
    replace (-1 + (160 - 150) * 0.1) with 0 by lra.
    replace (0 + (350 - 350) * 0.1) with 0 by lra.
    rewrite evade_min_speed_zero by (cbn; apply hypot_0_0).
    cbn. unfold MAX_SPEED. f_equal; lra. }
  cbv zeta. rewrite V. cbn [fst snd].
  assert (S : hypot (1 / 2) (1 / 2) < MAX_SPEED / 2).
  { apply hypot_lt_iff; unfold MAX_SPEED; lra. }
  split; [reflexivity |]. split; [exact S | lra].
Qed.

(** ** What [Boid.update] leaves alone *)

(** Closes [core_stable] for a composition of attribute assignments. *)
Ltac stable := unfold core_stable, wp_valid; repeat split; auto.

Lemma core_stable_refl (b : Boid) : core_stable b b.
Proof. stable. Qed.

Lemma core_stable_trans (a b c : Boid) :
  core_stable a b -> core_stable b c -> core_stable a c.
Proof.
  unfold core_stable.
  intros (A0 & A1 & A2 & A3 & A4 & A5 & A6 & A7 & A8 & A9 & Av)
         (B0 & B1 & B2 & B3 & B4 & B5 & B6 & B7 & B8 & B9 & Bv).
  repeat split; try congruence. auto.
Qed.

Lemma only_self_refl (self : ref) (h : Heap) : only_self self h h.
Proof. split; [reflexivity | apply core_stable_refl]. Qed.

Lemma only_self_trans (self : ref) (h1 h2 h3 : Heap) :
  only_self self h1 h2 -> only_self self h2 h3 -> only_self self h1 h3.
Proof.
  intros [A1 A2] [B1 B2]. split.
  - intros b Hb. now rewrite B1, A1.
  - eapply core_stable_trans; eassumption.
Qed.

Lemma only_self_modify (self : ref) (h : Heap) (f : Boid -> Boid) :
  core_stable (h self) (f (h self)) -> only_self self h (modify h self f).
Proof.
  intros Hf. split.
  - intros b Hb. now apply modify_other.
  - now rewrite modify_same.
Qed.

Create HintDb frame.
#[local] Hint Resolve only_self_refl only_self_modify core_stable_refl
  : frame.

Lemma tick_timers_stable (b : Boid) : core_stable b (tick_timers b).
Proof.
  unfold tick_timers.
  destruct (0 <? projectile_cooldown b)%Z;
    match goal with |- context [(0 <? ?t)%Z] => destruct (0 <? t)%Z end;
    match goal with |- context [if ?c then _ else _] => destruct c end;
    stable.
Qed.

Lemma patrol_steer_frame (h h1 : Heap) (self : ref) (squad_size : Z) :
  patrol_steer h self squad_size = Some h1 -> only_self self h h1.
Proof.
  unfold patrol_steer. intros E.
  destruct (is_leader (h self)).
  - destruct (waypoints (h self)) as [| p l] eqn:W;
      [injection E as <-; apply only_self_refl |].
    destruct (py_index (p :: l) (current_wp (h self))); [| discriminate].
    destruct (Rltb _ _); injection E as <-; apply only_self_modify;
      [| stable].
    unfold core_stable. repeat split. intros _. right.
    cbn [waypoints current_wp set_current_wp]. rewrite W.
    pose proof (Z.mod_pos_bound (current_wp (h self) + 1)
                  (Z.of_nat (List.length (p :: l)))
                  ltac:(cbn [List.length]; lia)).
    cbn [List.length Z.of_nat] in *. lia.
  - repeat match type of E with
           | (if ?c then _ else _) = _ => destruct c
           | match ?c with _ => _ end = _ => destruct c
           end;
      try discriminate; injection E as <-; apply only_self_modify; stable.
Qed.

Lemma patrol_acquire_frame (h : Heap) (self : ref) (all_boids : list ref) :
  only_self self h (patrol_acquire h self all_boids).
Proof.
  unfold patrol_acquire.
  destruct (enemies_in_detection_range h self all_boids);
    auto with frame.
  apply only_self_modify; stable.
Qed.

Lemma handle_patrol_frame (h h' : Heap) (self : ref) (all_boids : list ref)
    (squad_size : Z) :
  handle_patrol h self all_boids squad_size = Some h' -> only_self self h h'.
Proof.
  unfold handle_patrol. intros E.
  destruct (patrol_steer h self squad_size) as [h1 |] eqn:Es;
    [| discriminate].
  injection E as <-.
  eapply only_self_trans; [eapply patrol_steer_frame; eassumption |].
  apply patrol_acquire_frame.
Qed.

Lemma handle_engage_frame (w : World) (self : ref) (all_boids : list ref) :
  only_self self (heap w) (heap (handle_engage w self all_boids)).
Proof.
  unfold handle_engage.
  set (w1 := match target_enemy (heap w self) with
             | Some e => _ | None => _ end).
  assert (F1 : only_self self (heap w) (heap w1)).
  { subst w1.
    destruct (target_enemy (heap w self)) as [e |]; cbn [heap];
      [| apply only_self_modify; stable].
    destruct (Rltb 0 (health (heap w e))); cbn [heap];
      [| apply only_self_modify; stable].
    set (h1 := if Rltb _ _ then _ else _).
    assert (F : only_self self (heap w) h1).
    { subst h1. destruct (Rltb _ _);
        apply only_self_modify; stable. }
    destruct (_ && _); cbn [heap]; [| exact F].
    eapply only_self_trans; [exact F |].
    apply only_self_modify; stable. }
  destruct (_ && _); cbn [heap]; [| exact F1].
  eapply only_self_trans; [exact F1 |].
  apply only_self_modify; stable.
Qed.

Lemma handle_evade_frame (h : Heap) (self : ref) (all_boids : list ref)
    (rnd : R * R) :
  only_self self h (handle_evade h self all_boids rnd).
Proof.
  unfold handle_evade.
  destruct (threats h self all_boids);
    [destruct (Rltb _ _) |];
    apply only_self_modify; stable.
Qed.

Lemma dispatch_frame (w w2 : World) (self : ref) (all_boids : list ref)
    (squad_size : Z) (rnd : R * R) :
  dispatch w self all_boids squad_size rnd = Some w2 ->
  only_self self (heap w) (heap w2).
Proof.
  unfold dispatch. intros E.
  destruct (String.eqb _ "PATROL").
  - destruct (handle_patrol _ _ _ _) as [h1 |] eqn:Ep; [| discriminate].
    injection E as <-. cbn [heap]. eapply handle_patrol_frame; eassumption.
  - destruct (String.eqb _ "ENGAGE").
    + injection E as <-. apply handle_engage_frame.
    + destruct (String.eqb _ "EVADE"); injection E as <-.
      * cbn [heap]. apply handle_evade_frame.
      * apply only_self_refl.
Qed.

Lemma flock_frame (h : Heap) (self : ref) (all_boids : list ref) :
  only_self self h (flock h self all_boids).
Proof.
  unfold flock. destruct (neighbors h self all_boids); auto with frame.
  apply only_self_modify; stable.
Qed.

(** Up to the call of [heal_ally], [update] assigns to [self] only: the
    store [h4] after the speed cap differs from the initial one in
    attributes of [self] other than the stable ones, its velocity is a capped
    one, and the position update follows. *)
Lemma update_motion_inv (w w5 : World) (self : ref) (all_boids : list ref)
    (squad_size : Z) (rnd : R * R) :
  update_motion w self all_boids squad_size rnd = Some w5 ->
  exists (h4 : Heap) (v : vec),
    only_self self (heap w) h4
    /\ velocity (h4 self) = cap_speed v
    /\ heap w5 = modify h4 self integrate.
Proof.
  unfold update_motion, update_behave. intros E.
  destruct (dispatch _ _ _ _ _) as [w2 |] eqn:Ed; [| discriminate].
  injection E as <-. cbn [heap].
  apply dispatch_frame in Ed. cbn [heap] in Ed.
  eexists. exists (velocity (flock (heap w2) self all_boids self)).
  split; [| split; [| reflexivity]].
  - eapply only_self_trans;
      [| apply only_self_modify; stable].
    eapply only_self_trans; [| apply flock_frame].
    eapply only_self_trans; [| exact Ed].
    apply only_self_modify, tick_timers_stable.
  - now rewrite modify_same.
Qed.

(** [update] returns whenever the waypoint index of [self] is usable. *)
Lemma update_returns (w : World) (self : ref) (all_boids : list ref)
    (squad_size : Z) (rnd : R * R) :
  wp_valid (heap w self) ->
  exists w', update w self all_boids squad_size rnd = Some w'.
Proof.
  intros V. unfold update. destruct (Rleb _ _); [eauto |].
  unfold update_motion, update_behave, dispatch. cbn [heap projectiles].
  destruct (String.eqb _ "PATROL"); [| repeat destruct (String.eqb _ _); eauto].
  destruct (handle_patrol_returns (modify (heap w) self tick_timers) self
              all_boids squad_size) as [h' ->]; [| eauto].
  rewrite modify_same. unfold wp_valid.
  destruct (tick_timers_stable (heap w self))
    as (_ & _ & _ & _ & _ & _ & _ & _ & _ & -> & _).
  assert (C : current_wp (tick_timers (heap w self))
              = current_wp (heap w self)).
  { unfold tick_timers.
    destruct (0 <? projectile_cooldown (heap w self))%Z;
      match goal with |- context [(0 <? ?t)%Z] => destruct (0 <? t)%Z end;
      match goal with |- context [if ?c then _ else _] => destruct c end;
      reflexivity. }
  rewrite C. exact V.
Qed.

(** Healing assigns [health] only. *)
Lemma heal_one_frame (self : ref) (h : Heap) (a b : ref) :
  heal_one self h a b = set_health (health (heal_one self h a b)) (h b).
Proof.
  assert (Eta : forall x : Boid, x = set_health (health x) x)
    by (intros []; reflexivity).
  unfold heal_one. destruct (_ && _); [| apply Eta].
  destruct (Nat.eqb_spec b a) as [-> | Hne].
  - destruct (Rltb 100 _); rewrite ?modify_same; reflexivity.
  - destruct (Rltb 100 _); rewrite ?modify_other by assumption; apply Eta.
Qed.

Lemma heal_fold_frame (self : ref) (l : list ref) (h : Heap) (b : ref) :
  fold_left (heal_one self) l h b
  = set_health (health (fold_left (heal_one self) l h b)) (h b).
Proof.
  revert h; induction l as [| a l IH]; intros h; cbn [fold_left].
  - destruct (h b); reflexivity.
  - rewrite IH at 1. rewrite heal_one_frame. reflexivity.
Qed.

Lemma heal_ally_frame (h : Heap) (self : ref) (all_boids : list ref)
    (b : ref) :
  heal_ally h self all_boids b
  = set_health (health (heal_ally h self all_boids b)) (h b).
Proof.
  unfold heal_ally. destruct (is_medic (h self)).
  - apply heal_fold_frame.
  - destruct (h b); reflexivity.
Qed.

(** ** C7: speed cap *)



(** In exact arithmetic the capped speed is at most MAX_SPEED. *)
Lemma cap_speed_bound (v : vec) :
  hypot (fst (cap_speed v)) (snd (cap_speed v)) <= MAX_SPEED.
Proof.
  unfold cap_speed.
  destruct (Rlt_dec MAX_SPEED (hypot (fst v) (snd v))) as [Hf | Hs].
  - rewrite (Rltb_true _ _ Hf). cbn [fst snd].
    rewrite hypot_rescale; unfold MAX_SPEED in *; lra.
  - rewrite (Rltb_false _ _ (Rnot_lt_le _ _ Hs)). lra.
Qed.


Lemma Rabs_le_bounds (a b : R) : Rabs a <= b -> - b <= a <= b.
Proof. unfold Rabs. destruct (Rcase_abs a); lra. Qed.

Lemma hypot_le_bound (x y r : R) :
  0 <= r -> x * x + y * y <= r * r -> hypot x y <= r.
Proof.
  intros Hr H. unfold hypot. rewrite <- (sqrt_square r) by assumption.
  apply sqrt_le_1; nra.
Qed.


(** Without rounding errors the rounded speed cap is the speed cap. *)
Lemma cap_speed_rounded_exact (v : vec) :
  cap_speed_rounded 0 0 0 0 0 v = cap_speed v.
Proof.
  unfold cap_speed_rounded, cap_speed. rewrite Rplus_0_r, Rmult_1_r.
  destruct (Rltb _ _); [| reflexivity].
  f_equal; ring.
Qed.

(** The bound of the amended claim survives rounding: with relative errors
    of at most [1e-15] in every operation (those of binary64 are at most
    [2 ^ -52], about [2.3e-16]), the capped velocity has a magnitude of at
    most MAX_SPEED + TOL. *)
Lemma cap_speed_rounded_bound (d0 dx dy ex ey : R) (v : vec) :
  Rabs d0 <= 1e-15 -> Rabs dx <= 1e-15 -> Rabs dy <= 1e-15 ->
  Rabs ex <= 1e-15 -> Rabs ey <= 1e-15 ->
  hypot (fst (cap_speed_rounded d0 dx dy ex ey v))
        (snd (cap_speed_rounded d0 dx dy ex ey v)) <= MAX_SPEED + TOL.
Proof.
  intros H0 Hdx Hdy Hex Hey.
  apply Rabs_le_bounds in H0, Hdx, Hdy, Hex, Hey.
  unfold cap_speed_rounded, MAX_SPEED, TOL.
  set (s := hypot (fst v) (snd v)).
  pose proof (hypot_nonneg (fst v) (snd v)) as Hs. fold s in Hs.
  pose proof (hypot_sqr (fst v) (snd v)) as Hq. fold s in Hq.
  destruct (Rlt_dec 2 (s * (1 + d0))) as [Hf | Hf].
  - rewrite (Rltb_true _ _ Hf). cbn [fst snd].
    assert (Hpos : 0 < s) by nra.
    set (kx := (1 + dx) * 2 * (1 + ex) / (1 + d0)).
    set (ky := (1 + dy) * 2 * (1 + ey) / (1 + d0)).
    replace (fst v / (s * (1 + d0)) * (1 + dx) * 2 * (1 + ex))
      with (kx * (fst v / s)) by (unfold kx; field; lra).
    replace (snd v / (s * (1 + d0)) * (1 + dy) * 2 * (1 + ey))
      with (ky * (snd v / s)) by (unfold ky; field; lra).
    assert (Bx : 0 <= kx <= 2 + 1e-9).
    { unfold kx. split.
      - apply Rmult_le_pos; [nra | left; apply Rinv_0_lt_compat; lra].
      - apply (Rmult_le_reg_r (1 + d0)); [lra |].
        replace ((1 + dx) * 2 * (1 + ex) / (1 + d0) * (1 + d0))
          with ((1 + dx) * 2 * (1 + ex)) by (field; lra).
        nra. }
    assert (By : 0 <= ky <= 2 + 1e-9).
    { unfold ky. split.
      - apply Rmult_le_pos; [nra | left; apply Rinv_0_lt_compat; lra].
      - apply (Rmult_le_reg_r (1 + d0)); [lra |].
        replace ((1 + dy) * 2 * (1 + ey) / (1 + d0) * (1 + d0))
          with ((1 + dy) * 2 * (1 + ey)) by (field; lra).
        nra. }
    assert (U : fst v / s * (fst v / s) + snd v / s * (snd v / s) = 1).
    { replace (fst v / s * (fst v / s) + snd v / s * (snd v / s))
        with ((fst v * fst v + snd v * snd v) / (s * s)) by (field; lra).
      rewrite <- Hq. field. lra. }
    apply hypot_le_bound; [lra |].
    assert (Ux : 0 <= fst v / s * (fst v / s)) by nra.
    assert (Uy : 0 <= snd v / s * (snd v / s)) by nra.
    assert (Kx : kx * kx <= (2 + 1e-9) * (2 + 1e-9)) by nra.
    assert (Ky : ky * ky <= (2 + 1e-9) * (2 + 1e-9)) by nra.
    replace (kx * (fst v / s) * (kx * (fst v / s))
             + ky * (snd v / s) * (ky * (snd v / s)))
      with (kx * kx * (fst v / s * (fst v / s))
            + ky * ky * (snd v / s * (snd v / s))) by ring.
    nra.
  - rewrite Rltb_false by lra. fold s. nra.
Qed.



(** ** C8: toroidal wrap *)


(** The rounded wrap-around without rounding is [py_fmod]. *)
Lemma py_fmod_rounded_exact (x m : R) :
  0 < m -> py_fmod_rounded (fun r => r) x m = py_fmod x m.
Proof.
  intros Hm. unfold py_fmod_rounded, py_fmod, Rtrunc.
  assert (E : x = x / m * m) by (field; lra).
  destruct (Rle_dec 0 (x / m)) as [Hq | Hq].
  - pose proof (Zfloor_bound (x / m)) as [Hl Hu].
    rewrite Rltb_false; [reflexivity |].
    apply (Rmult_le_compat_r m) in Hl; lra.
  - pose proof (Zfloor_bound (x / m)) as [Hl Hu].
    pose proof (Zceil_bound (x / m)) as [Cl Cu].
    destruct (Req_dec (IZR (Zceil (x / m))) (x / m)) as [Hc | Hc].
    + assert (F : Zfloor (x / m) = Zceil (x / m))
        by (apply Zfloor_eq; lra).
      rewrite F, Hc. rewrite Rltb_false; [reflexivity |].
      replace (m * (x / m)) with x by (field; lra). lra.
    + assert (F : Zfloor (x / m) = (Zceil (x / m) - 1)%Z).
      { apply Zfloor_eq. rewrite minus_IZR. lra. }
      rewrite F, minus_IZR. rewrite Rltb_true; [ring |].
      assert (Hlt : x / m < IZR (Zceil (x / m))) by lra.
      apply (Rmult_lt_compat_r m) in Hlt; lra.
Qed.

(** The closed bounds of the amended claim survive rounding: whatever the
    rounding of the one inexact operation, as long as it is monotone and
    keeps 0 and [m], the result lies between 0 and [m], both included. *)
Lemma py_fmod_rounded_bound (rnd : R -> R) (x m : R) :
  (forall a b, a <= b -> rnd a <= rnd b) -> rnd 0 = 0 -> rnd m = m ->
  0 < m -> 0 <= py_fmod_rounded rnd x m <= m.
Proof.
  intros Hmono H0 Hrm Hm. unfold py_fmod_rounded, Rtrunc.
  assert (E : x = x / m * m) by (field; lra).
  assert (B : - m < x - m * IZR (if Rle_dec 0 (x / m)
                                  then Zfloor (x / m) else Zceil (x / m))
              < m).
  { destruct (Rle_dec 0 (x / m)) as [Hq | Hq].
    - pose proof (Zfloor_bound (x / m)) as [Hl Hu].
      apply (Rmult_le_compat_r m) in Hl; [| lra].
      apply (Rmult_lt_compat_r m) in Hu; lra.
    - pose proof (Zceil_bound (x / m)) as [Cl Cu].
      apply (Rmult_lt_compat_r m) in Cl; [| lra].
      apply (Rmult_le_compat_r m) in Cu; lra. }
  set (r := x - m * IZR (if Rle_dec 0 (x / m)
                         then Zfloor (x / m) else Zceil (x / m))) in *.
  clearbody r.
  destruct (Rlt_dec r 0) as [Hn | Hn].
  - rewrite (Rltb_true _ _ Hn).
    pose proof (Hmono 0 (r + m) ltac:(lra)) as L.
    pose proof (Hmono (r + m) m ltac:(lra)) as U.
    lra.
  - rewrite Rltb_false by lra. lra.
Qed.





Lemma hypot_3_4 : hypot 3 4 = 5.
Proof.
  unfold hypot. replace (3 * 3 + 4 * 4) with (5 * 5) by lra.
  apply sqrt_square; lra.
Qed.

(** The run behind the two witnesses: the speed 5 is capped to 2, giving the
    velocity (6/5, 8/5); the position (1000.2, 700.6) wraps to
    (0.2, 0.6). *)
Example lone_update :
  exists w', update lone 0 [0%nat] 6 (0, 0) = Some w'
             /\ velocity (heap w' 0%nat) = (6 / 5, 8 / 5)
             /\ position (heap w' 0%nat) = (1 / 5, 3 / 5).
Proof.
  eexists. split.
  - unfold update. rewrite Rleb_false by (cbn; lra).
    unfold update_motion, update_behave, dispatch. cbn. reflexivity.
  - cbn. unfold cap_speed. cbn. rewrite hypot_3_4. unfold MAX_SPEED. rcmp.
    cbn. split; [f_equal; lra |].
    unfold py_fmod, WIDTH, HEIGHT.
    rewrite (Zfloor_eq 1) by lra. rewrite (Zfloor_eq 1) by lra.
    f_equal; lra.
Qed.

(** ** C9: healing *)

Lemma health_healed (b : Boid) :
  health (healed b) = Rmin (health b + 0.2) 100.
Proof.
  unfold healed, Rmin, Rltb. cbn [health set_health].
  destruct (Rlt_dec 100 (health b + 0.2)), (Rle_dec (health b + 0.2) 100);
    lra.
Qed.

Lemma heal_one_eq (self : ref) (h : Heap) (a b : ref) :
  heal_one self h a b
  = if heal_due h self a && Nat.eqb b a then healed (h b) else h b.
Proof.
  unfold heal_one. fold (heal_due h self a).
  destruct (heal_due h self a); cbn [andb]; [| reflexivity].
  rewrite modify_same. cbn [health set_health].
  destruct (Nat.eqb_spec b a) as [-> | Hne].
  - unfold healed. destruct (Rltb 100 _); rewrite ?modify_same; reflexivity.
  - destruct (Rltb 100 _); rewrite ?modify_other by assumption; reflexivity.
Qed.

Lemma heal_due_stable (self : ref) (h : Heap) (a b : ref) :
  b <> a -> heal_due (heal_one self h a) self b = heal_due h self b.
Proof.
  intros Hne. unfold heal_due.
  rewrite (heal_one_frame self h a self). cbn [position set_health].
  rewrite (heal_one_eq self h a b).
  destruct (Nat.eqb_spec b a); [contradiction |].
  now rewrite andb_false_r.
Qed.

(** The healing loop over a list without repetition: every agent of the list
    that meets the loop condition is healed once, nothing else changes. *)
Lemma heal_fold_spec (self : ref) (l : list ref) (h : Heap) (b : ref) :
  NoDup l ->
  fold_left (heal_one self) l h b
  = if existsb (Nat.eqb b) l && heal_due h self b then healed (h b)
    else h b.
Proof.
  intros N; revert h; induction N as [| a l Hnin N IH]; intros h;
    cbn [fold_left existsb]; [reflexivity |].
  rewrite IH. destruct (Nat.eqb_spec b a) as [-> | Hne]; cbn [orb].
  - assert (E : existsb (Nat.eqb a) l = false).
    { destruct (existsb (Nat.eqb a) l) eqn:E; [| reflexivity].
      apply existsb_eqb_In in E. contradiction. }
    rewrite E. cbn [andb]. rewrite heal_one_eq, Nat.eqb_refl.
    now rewrite andb_true_r.
  - rewrite heal_due_stable by assumption. rewrite heal_one_eq.
    destruct (Nat.eqb_spec b a); [contradiction |].
    now rewrite andb_false_r.
Qed.

Lemma heal_recipient_iff (h : Heap) (self : ref) (all_boids : list ref)
    (b : ref) :
  existsb (Nat.eqb b) (filter (squad_ally h self) all_boids)
  && heal_due h self b = true
  <-> heal_recipient h self (position (h self)) all_boids b.
Proof.
  unfold heal_recipient, heal_due, squad_ally.
  rewrite andb_true_iff, existsb_eqb_In, filter_In, !andb_true_iff,
    !negb_true_iff, !Rltb_iff, Z.eqb_eq, Nat.eqb_neq.
  tauto.
Qed.

(** [heal_ally] on a medic and a roster without repetition, agent by
    agent. *)
Lemma heal_ally_medic (h : Heap) (self : ref) (all_boids : list ref)
    (b : ref) :
  is_medic (h self) = true -> NoDup all_boids ->
  (heal_recipient h self (position (h self)) all_boids b ->
   heal_ally h self all_boids b = healed (h b))
  /\ (~ heal_recipient h self (position (h self)) all_boids b ->
      heal_ally h self all_boids b = h b).
Proof.
  intros Hm N. unfold heal_ally. rewrite Hm. fold (squad_ally h self).
  rewrite heal_fold_spec by now apply NoDup_filter.
  pose proof (heal_recipient_iff h self all_boids b) as I.
  destruct (_ && _); split; intros H; try reflexivity.
  - exfalso. apply H, I. reflexivity.
  - apply I in H. discriminate.
Qed.

(** C9: heal_ally run on a medic increases by exactly 0.2, clamped at 100,
    the health of every non-enemy agent of the roster with the medic's
    squad_id, other than the medic, within distance 60, whose health is
    below 100, and changes no other health; run on a non-medic it changes
    nothing; and whenever the update of a live medic returns, whatever its
    state, exactly these agents (distances taken from the medic's position
    after its move) have been healed in this way.  The roster lists every
    agent once. *)
Theorem heal_ally_spec (self : ref) (all_boids : list ref) :
  (forall h : Heap,
      is_medic (h self) = true -> NoDup all_boids ->
      forall b,
        (heal_recipient h self (position (h self)) all_boids b ->
         health (heal_ally h self all_boids b)
         = Rmin (health (h b) + 0.2) 100)
        /\ (~ heal_recipient h self (position (h self)) all_boids b ->
            health (heal_ally h self all_boids b) = health (h b)))
  /\ (forall h : Heap,
         is_medic (h self) = false ->
         forall b, heal_ally h self all_boids b = h b)
  /\ (forall (w w' : World) (squad_size : Z) (rnd : R * R),
         is_medic (heap w self) = true -> NoDup all_boids ->
         0 < health (heap w self) ->
         update w self all_boids squad_size rnd = Some w' ->
         forall b,
           (heal_recipient (heap w) self (position (heap w' self))
              all_boids b ->
            health (heap w' b) = Rmin (health (heap w b) + 0.2) 100)
           /\ (~ heal_recipient (heap w) self (position (heap w' self))
                 all_boids b ->
               health (heap w' b) = health (heap w b))).
Proof.
  split; [| split].
  - intros h Hm N b.
    destruct (heal_ally_medic h self all_boids b Hm N) as [A B].
    split; intros H.
    + rewrite A by assumption. apply health_healed.
    + now rewrite B.
  - intros h Hm b. unfold heal_ally. now rewrite Hm.
  - intros w w' squad_size rnd Hm N Hlive E b.
    unfold update in E. rewrite (Rleb_false _ _ Hlive) in E.
    destruct (update_motion _ _ _ _ _) as [w5 |] eqn:Em; [| discriminate].
    injection E as <-. cbn [heap].
    destruct (update_motion_inv _ _ _ _ _ _ Em)
      as (h4 & v & [Ho Hs] & _ & E5).
    destruct Hs as (S0 & S1 & S2 & S3 & S4 & S5 & _).
    (* the store before healing agrees with the initial one on what
       healing reads, except for the position of the medic *)
    assert (P : position (heal_ally (heap w5) self all_boids self)
                = position (heap w5 self))
      by (rewrite heal_ally_frame; reflexivity).
    assert (M5 : is_medic (heap w5 self) = true)
      by (rewrite E5, modify_same; cbn; congruence).
    assert (Q : forall x, x <> self -> heap w5 x = heap w x)
      by (intros x Hx; rewrite E5, modify_other by assumption; auto).
    assert (Sq : squad_id (heap w5 self) = squad_id (heap w self))
      by (rewrite E5, modify_same; cbn; congruence).
    assert (R5 : heal_recipient (heap w5) self (position (heap w5 self))
                   all_boids b
                 <-> heal_recipient (heap w) self
                       (position (heal_ally (heap w5) self all_boids self))
                       all_boids b).
    { rewrite P. unfold heal_recipient. rewrite Sq.
      destruct (Nat.eq_dec b self) as [-> | Hb]; [tauto |].
      rewrite (Q b Hb). tauto. }
    destruct (heal_ally_medic (heap w5) self all_boids b M5 N) as [A B].
    assert (Hb : health (heap w5 b) = health (heap w b)).
    { destruct (Nat.eq_dec b self) as [-> | Hb]; [| now rewrite Q].
      rewrite E5, modify_same. cbn. exact S1. }
    split; intros H.
    + rewrite A by now apply R5. rewrite health_healed. now rewrite Hb.
    + rewrite B by (intros H'; now apply H, R5). exact Hb.
Qed.

Lemma py_fmod_id (x m : R) : 0 <= x < m -> py_fmod x m = x.
Proof.
  intros [H0 Hm]. unfold py_fmod.
  rewrite (Zfloor_eq 0).
  - lra.
  - split.
    + apply Rmult_le_pos; [assumption |].
      left. apply Rinv_0_lt_compat. lra.
    + apply (Rmult_lt_reg_r m); [lra |].
      replace (x / m * m) with x by (field; lra). lra.
Qed.

Lemma hypot_components (x y : R) :
  - hypot x y <= x <= hypot x y /\ - hypot x y <= y <= hypot x y.
Proof.
  pose proof (hypot_nonneg x y). pose proof (hypot_sqr x y).
  repeat split; nra.
Qed.

(** The move of a live agent during [update]: its position advances by a
    velocity of magnitude at most MAX_SPEED and is wrapped. *)
Lemma update_position (w w' : World) (self : ref) (all_boids : list ref)
    (squad_size : Z) (rnd : R * R) :
  update w self all_boids squad_size rnd = Some w' ->
  0 < health (heap w self) ->
  exists v : vec,
    hypot (fst v) (snd v) <= MAX_SPEED
    /\ position (heap w' self)
       = (py_fmod (fst (position (heap w self)) + fst v) WIDTH,
          py_fmod (snd (position (heap w self)) + snd v) HEIGHT).
Proof.
  unfold update. intros E Hlive.
  rewrite (Rleb_false _ _ Hlive) in E.
  destruct (update_motion _ _ _ _ _) as [w5 |] eqn:Em; [| discriminate].
  injection E as <-. cbn [heap].
  rewrite heal_ally_frame. cbn [position set_health].
  destruct (update_motion_inv _ _ _ _ _ _ Em)
    as (h4 & v & [_ Hs] & Ev & ->).
  destruct Hs as (S0 & _).
  exists (cap_speed v). split; [apply cap_speed_bound |].
  rewrite modify_same. cbn [position integrate set_position].
  now rewrite Ev, S0.
Qed.

Lemma roster0_NoDup : NoDup roster0.
Proof.
  unfold roster0.
  repeat (constructor; [cbn; intuition discriminate |]). constructor.
Defined.

(** The medic heals the leader to 50.2 and the follower to 100, leaves the
    enemy alone, a non-medic heals nobody, and the same holds at the end of
    the medic's update. *)
Lemma heal_ally_spec_witness :
  health (heal_ally wounded 1 roster0 0%nat) = Rmin (50 + 0.2) 100
  /\ health (heal_ally wounded 1 roster0 2%nat) = Rmin (99.9 + 0.2) 100
  /\ health (heal_ally wounded 1 roster0 3%nat) = 40
  /\ (forall b, heal_ally wounded 0 roster0 b = wounded b)
  /\ exists w',
      update {| heap := wounded; projectiles := [] |} 1 roster0 6 (0, 0)
      = Some w'
      /\ health (heap w' 0%nat) = Rmin (50 + 0.2) 100
      /\ health (heap w' 3%nat) = 40.
Proof.
  destruct (heal_ally_spec 1 roster0) as (A & B & C).
  pose proof (A wounded eq_refl roster0_NoDup) as A'.
  assert (D0 : distance (160, 350) (150, 350) = 10)
    by (rewrite distance_same_y; rabs; lra).
  assert (D2 : distance (160, 350) (170, 350) = 10)
    by (rewrite distance_same_y; rabs; lra).
  split; [| split; [| split; [| split]]].
  - apply (A' 0%nat). unfold heal_recipient. cbn. rewrite D0.
    repeat split; auto; try discriminate; lra.
  - apply (A' 2%nat). unfold heal_recipient. cbn. rewrite D2.
    repeat split; auto; try discriminate; lra.
  - apply (A' 3%nat). unfold heal_recipient. cbn.
    intros (_ & E & _). discriminate.
  - destruct (heal_ally_spec 0 roster0) as (_ & B0 & _).
    apply (B0 wounded eq_refl).
  - set (w0 := {| heap := wounded; projectiles := [] |}).
    destruct (update_returns w0 1 roster0 6 (0, 0)) as [w' E];
      [left; reflexivity |].
    assert (Hlive : 0 < health (heap w0 1%nat)) by (cbn; lra).
    pose proof (C w0 w' 6%Z (0, 0) eq_refl roster0_NoDup Hlive E) as C'.
    exists w'. split; [exact E |]. split.
    + apply (C' 0%nat).
      destruct (update_position _ _ _ _ _ _ E Hlive) as (v & Hv & ->).
      cbn [heap w0 wounded position set_leader_ref Boid_init fst snd].
      destruct (hypot_components (fst v) (snd v)) as [Hx Hy].
      pose proof (hypot_sqr (fst v) (snd v)) as Hq.
      pose proof (hypot_nonneg (fst v) (snd v)) as Hn.
      unfold MAX_SPEED in Hv.
      rewrite !py_fmod_id by (unfold WIDTH, HEIGHT; lra).
      unfold heal_recipient. cbn.
      repeat split; auto; try discriminate; try lra.
      unfold distance; cbn [fst snd]. apply hypot_lt_iff; [lra | nra].
    + apply (C' 3%nat). unfold heal_recipient. cbn.
      intros (_ & E3 & _). discriminate.
Defined.

(** ** C3: dead agents *)

(** C3, as stated, fails: with the dead follower 2 in the roster, the update
    of the leader puts it into the leader's neighbor set, heal_ally of the
    medic raises its health from 0 to 0.2, and apply_shield of the leader
    sets its shielded flag and its shield_timer; none of the three tests the
    health of the roster's agents. *)
Lemma dead_agent_not_excluded :
  health (fallen 2%nat) <= 0
  /\ 0 < health (fallen 0%nat)
  /\ (exists w2,
         update_behave {| heap := fallen; projectiles := [] |} 0 roster0
           6 (0, 0) = Some w2
         /\ In 2%nat (neighbors (heap w2) 0 roster0))
  /\ health (fallen 2%nat) < health (heal_ally fallen 1 roster0 2%nat)
  /\ shielded (fallen 2%nat) = false
  /\ shielded (apply_shield fallen 0 roster0 2%nat) = true
  /\ shield_timer (fallen 2%nat) = 0%Z
  /\ shield_timer (apply_shield fallen 0 roster0 2%nat) = 180%Z.
Proof.
  assert (D01 : distance (150, 350) (160, 350) = 10)
    by (rewrite distance_same_y; rabs; lra).
  assert (D02 : distance (150, 350) (170, 350) = 20)
    by (rewrite distance_same_y; rabs; lra).
  assert (D03 : distance (150, 350) (900, 350) = 750)
    by (rewrite distance_same_y; rabs; lra).
  assert (D12 : distance (160, 350) (170, 350) = 10)
    by (rewrite distance_same_y; rabs; lra).
  split; [cbn; lra |]. split; [cbn; lra |]. split; [| split].
  - eexists. split.
    + unfold update_behave, dispatch, handle_patrol, patrol_acquire,
        enemies_in_detection_range, opposing_live.
      cbn. rcmp. cbn. rewrite D03. rcmp. cbn. reflexivity.
    + unfold neighbors. cbn. rewrite D01, D02, D03. unfold NEIGHBOR_RADIUS.
      rcmp. cbn. auto.
  - destruct (heal_ally_medic fallen 1 roster0 2 eq_refl roster0_NoDup)
      as [A _].
    rewrite A.
    + rewrite health_healed. cbn. unfold Rmin.
      destruct (Rle_dec (0 + 0.2) 100); lra.
    + unfold heal_recipient. cbn. rewrite D12.
      repeat split; auto; try discriminate; lra.
  - rewrite (apply_shield_active fallen 0 roster0 2 eq_refl eq_refl)
      by (cbn; lia).
    cbn. repeat split.
Qed.

Lemma live_roster_alive (h : Heap) (boids : list ref) (b : ref) :
  In b (live_roster h boids) <-> In b boids /\ 0 < health (h b).
Proof. unfold live_roster. now rewrite filter_In, Rltb_iff. Qed.

Lemma heal_fold_notin (self : ref) (l : list ref) (h : Heap) (b : ref) :
  ~ In b l -> fold_left (heal_one self) l h b = h b.
Proof.
  revert h; induction l as [| a l IH]; intros h Hnin; cbn [fold_left];
    [reflexivity |].
  rewrite IH by (intros H; apply Hnin; now right).
  rewrite heal_one_eq.
  destruct (Nat.eqb_spec b a) as [-> | _]; [exfalso; apply Hnin; now left |].
  now rewrite andb_false_r.
Qed.

(** [heal_ally] touches agents of the roster only. *)
Lemma heal_ally_outside (h : Heap) (self : ref) (all_boids : list ref)
    (b : ref) :
  ~ In b all_boids -> heal_ally h self all_boids b = h b.
Proof.
  intros Hnin. unfold heal_ally. destruct (is_medic (h self)); [| reflexivity].
  apply heal_fold_notin. intros H. apply filter_In in H. tauto.
Qed.

(** [apply_shield] touches the caller and agents of the roster only. *)
Lemma apply_shield_outside (h : Heap) (self : ref) (all_boids : list ref)
    (b : ref) :
  b <> self -> ~ In b all_boids -> apply_shield h self all_boids b = h b.
Proof.
  intros Hne Hnin. unfold apply_shield.
  destruct (_ && _); [| reflexivity].
  rewrite modify_other by assumption. rewrite fold_shield_one.
  destruct (existsb _ _) eqn:E; [| reflexivity].
  apply existsb_eqb_In, filter_In in E. tauto.
Qed.

(** C3, amended: on a roster that has been filtered to its live agents
    (health > 0), as the game loop does before it calls Boid.update, an agent
    whose health is <= 0 is never in another agent's flocking neighbor set,
    never has its health changed by heal_ally, and never has shielded or
    shield_timer changed by another agent's apply_shield. *)
Theorem dead_excluded_on_live_roster (h : Heap) (boids : list ref)
    (self : ref) :
  (forall (w w2 : World) (squad_size : Z) (rnd : R * R),
      heap w = h ->
      update_behave w self (live_roster h boids) squad_size rnd = Some w2 ->
      forall b, In b (neighbors (heap w2) self (live_roster h boids)) ->
                0 < health (heap w2 b))
  /\ (forall b,
         health (heal_ally h self (live_roster h boids) b) <> health (h b) ->
         0 < health (h b))
  /\ (forall b,
         b <> self ->
         shielded (apply_shield h self (live_roster h boids) b)
         <> shielded (h b)
         \/ shield_timer (apply_shield h self (live_roster h boids) b)
            <> shield_timer (h b) ->
         0 < health (h b)).
Proof.
  split; [| split].
  - intros w w2 squad_size rnd <- Ed b Hin.
    unfold update_behave in Ed.
    apply dispatch_frame in Ed. cbn [heap] in Ed.
    assert (F : only_self self (heap w) (heap w2)).
    { eapply only_self_trans; [| exact Ed].
      apply only_self_modify, tick_timers_stable. }
    apply filter_In in Hin. destruct Hin as [Hin _].
    apply live_roster_alive in Hin. destruct Hin as [_ Hlive].
    destruct F as [Fo (_ & Fh & _)].
    destruct (Nat.eq_dec b self) as [-> | Hb];
      [now rewrite Fh | now rewrite Fo].
  - intros b Hch.
    destruct (in_dec Nat.eq_dec b (live_roster h boids)) as [Hin | Hnin].
    + now apply live_roster_alive in Hin.
    + exfalso. apply Hch. now rewrite heal_ally_outside.
  - intros b Hne Hch.
    destruct (in_dec Nat.eq_dec b (live_roster h boids)) as [Hin | Hnin].
    + now apply live_roster_alive in Hin.
    + exfalso. rewrite apply_shield_outside in Hch by assumption.
      destruct Hch as [Hch | Hch]; now apply Hch.
Qed.

Lemma fallen_live_roster : live_roster fallen roster0 = [0; 1; 3]%nat.
Proof. unfold live_roster. cbn. rcmp. reflexivity. Qed.

(** On the pruned roster of the example the dead follower 2 is gone: the
    leader's neighbor set is the medic alone, which is alive, and the agent
    whose health the medic changes, the leader, is alive. *)
Lemma dead_excluded_on_live_roster_witness :
  (exists w2,
      update_behave {| heap := fallen; projectiles := [] |} 0
        (live_roster fallen roster0) 6 (0, 0) = Some w2
      /\ neighbors (heap w2) 0 (live_roster fallen roster0) = [1%nat]
      /\ 0 < health (heap w2 1%nat))
  /\ health (heal_ally fallen 1 (live_roster fallen roster0) 0%nat)
     <> health (fallen 0%nat)
  /\ 0 < health (fallen 0%nat)
  /\ shielded (apply_shield fallen 0 (live_roster fallen roster0) 1%nat)
     <> shielded (fallen 1%nat)
  /\ 0 < health (fallen 1%nat).
Proof.
  destruct (dead_excluded_on_live_roster fallen roster0 0) as (A & _ & C).
  destruct (dead_excluded_on_live_roster fallen roster0 1) as (_ & B & _).
  assert (D01 : distance (150, 350) (160, 350) = 10)
    by (rewrite distance_same_y; rabs; lra).
  assert (D10 : distance (160, 350) (150, 350) = 10)
    by (rewrite distance_same_y; rabs; lra).
  assert (D03 : distance (150, 350) (900, 350) = 750)
    by (rewrite distance_same_y; rabs; lra).
  assert (N : exists w2,
             update_behave {| heap := fallen; projectiles := [] |} 0
               (live_roster fallen roster0) 6 (0, 0) = Some w2
             /\ neighbors (heap w2) 0 (live_roster fallen roster0)
                = [1%nat]).
  { eexists. rewrite fallen_live_roster. split.
    - unfold update_behave, dispatch, handle_patrol, patrol_acquire,
        enemies_in_detection_range, opposing_live.
      cbn. rcmp. cbn. rewrite D03. rcmp. cbn. reflexivity.
    - unfold neighbors. cbn. rewrite D01, D03. unfold NEIGHBOR_RADIUS.
      rcmp. cbn. reflexivity. }
  assert (H0 : health (heal_ally fallen 1 (live_roster fallen roster0) 0%nat)
               <> health (fallen 0%nat)).
  { rewrite fallen_live_roster.
    assert (ND : NoDup [0; 1; 3]%nat).
    { repeat (constructor; [cbn; intuition discriminate |]). constructor. }
    destruct (heal_ally_medic fallen 1 [0; 1; 3]%nat 0 eq_refl ND) as [H _].
    rewrite H.
    - rewrite health_healed. cbn. unfold Rmin.
      destruct (Rle_dec (50 + 0.2) 100); lra.
    - unfold heal_recipient. cbn. rewrite D10.
      repeat split; auto; try discriminate; lra. }
  assert (H1 : shielded
                 (apply_shield fallen 0 (live_roster fallen roster0) 1%nat)
               <> shielded (fallen 1%nat)).
  { rewrite fallen_live_roster.
    rewrite (apply_shield_active fallen 0 [0; 1; 3]%nat 1 eq_refl eq_refl)
      by (cbn; lia).
    cbn. discriminate. }
  split; [| split; [exact H0 | split; [exact (B _ H0) | split]]].
  - destruct N as (w2 & E & En). exists w2.
    split; [exact E |]. split; [exact En |].
    apply (A {| heap := fallen; projectiles := [] |} _ _ _ eq_refl E).
    rewrite En. now left.
  - exact H1.
  - apply (C 1%nat); [discriminate | left; exact H1].
Defined.

(** ** The game loop passes live rosters only *)

Lemma heal_one_mono (self : ref) (h : Heap) (a b : ref) :
  health (h b) <= health (heal_one self h a b).
Proof.
  rewrite heal_one_eq.
  destruct (heal_due h self a) eqn:Hd; cbn [andb]; [| lra].
  destruct (Nat.eqb_spec b a) as [-> | _]; [| lra].
  rewrite health_healed. unfold heal_due in Hd.
  apply andb_true_iff in Hd. destruct Hd as [_ Hd]. apply Rltb_iff in Hd.
  unfold Rmin. destruct (Rle_dec _ _); lra.
Qed.

Lemma heal_fold_mono (self : ref) (l : list ref) (h : Heap) (b : ref) :
  health (h b) <= health (fold_left (heal_one self) l h b).
Proof.
  revert h; induction l as [| a l IH]; intros h; cbn [fold_left]; [lra |].
  eapply Rle_trans; [apply (heal_one_mono self h a b) | apply IH].
Qed.

(** No agent loses health in an [update]. *)
Lemma update_health_mono (w w' : World) (self : ref) (all_boids : list ref)
    (squad_size : Z) (rnd : R * R) (b : ref) :
  update w self all_boids squad_size rnd = Some w' ->
  health (heap w b) <= health (heap w' b).
Proof.
  unfold update. intros E.
  destruct (Rleb _ _); [injection E as <-; lra |].
  destruct (update_motion _ _ _ _ _) as [w5 |] eqn:Em; [| discriminate].
  injection E as <-. cbn [heap].
  destruct (update_motion_inv _ _ _ _ _ _ Em)
    as (h4 & v & [Ho (_ & Hs & _)] & _ & E5).
  assert (H5 : health (heap w5 b) = health (heap w b)).
  { rewrite E5. destruct (Nat.eq_dec b self) as [-> | Hb].
    - rewrite modify_same. cbn. exact Hs.
    - rewrite modify_other by assumption. now rewrite Ho. }
  rewrite <- H5. unfold heal_ally.
  destruct (is_medic _); [apply heal_fold_mono | lra].
Qed.

(** [update] keeps the waypoint index of every agent usable. *)
Lemma update_wp_valid (w w' : World) (self : ref) (all_boids : list ref)
    (squad_size : Z) (rnd : R * R) (b : ref) :
  update w self all_boids squad_size rnd = Some w' ->
  wp_valid (heap w b) -> wp_valid (heap w' b).
Proof.
  unfold update. intros E V.
  destruct (Rleb _ _); [now injection E as <- |].
  destruct (update_motion _ _ _ _ _) as [w5 |] eqn:Em; [| discriminate].
  injection E as <-. cbn [heap].
  destruct (update_motion_inv _ _ _ _ _ _ Em)
    as (h4 & v & [Ho Hs] & _ & E5).
  rewrite heal_ally_frame. unfold wp_valid.
  cbn [waypoints current_wp set_health].
  rewrite E5. destruct (Nat.eq_dec b self) as [-> | Hb].
  - rewrite modify_same. cbn [waypoints current_wp integrate set_position].
    now apply Hs.
  - rewrite modify_other by assumption. now rewrite Ho.
Qed.

Lemma update_each_app (l1 l2 : list ref) (w : World) (all_boids : list ref)
    (rnds : list (R * R)) :
  update_each w (l1 ++ l2) all_boids rnds
  = match update_each w l1 all_boids rnds with
    | None => None
    | Some w1 => update_each w1 l2 all_boids (skipn (List.length l1) rnds)
    end.
Proof.
  revert w rnds; induction l1 as [| b l1 IH]; intros w rnds; cbn;
    [reflexivity |].
  destruct (update w b all_boids BOIDS_PER_SQUAD (hd (0, 0) rnds));
    [| reflexivity].
  rewrite IH. destruct rnds; cbn [tl]; [now rewrite skipn_nil | reflexivity].
Qed.

Lemma update_each_alive (todo : list ref) (w w' : World)
    (all_boids : list ref) (rnds : list (R * R)) :
  update_each w todo all_boids rnds = Some w' ->
  forall a, 0 < health (heap w a) -> 0 < health (heap w' a).
Proof.
  revert w rnds; induction todo as [| b todo IH]; intros w rnds E a Ha;
    cbn in E.
  - now injection E as <-.
  - destruct (update w b all_boids BOIDS_PER_SQUAD (hd (0, 0) rnds))
      as [w1 |] eqn:Eu; [| discriminate].
    apply (IH _ _ E).
    pose proof (update_health_mono _ _ _ _ _ _ a Eu). lra.
Qed.

(** In the boid pass of a tick, when the turn of an agent [b] of the pruned
    roster comes, the agents [l1] before it have been updated, giving a
    world [w1], and every agent of the roster that [b.update] receives is
    alive in [w1]. *)
Lemma boid_pass_rosters_live (w w' : World) (boids roster : list ref)
    (rnds : list (R * R)) (l1 l2 : list ref) (b : ref) :
  boid_pass w boids rnds = Some (w', roster) ->
  roster = l1 ++ b :: l2 ->
  exists w1,
    update_each w l1 roster rnds = Some w1
    /\ forall a, In a roster -> 0 < health (heap w1 a).
Proof.
  unfold boid_pass. intros E Er.
  destruct (update_each w _ _ rnds) as [w2 |] eqn:Ep; [| discriminate].
  injection E as <- <-. rewrite Er in Ep at 1.
  rewrite update_each_app in Ep.
  destruct (update_each w l1 _ rnds) as [w1 |] eqn:E1; [| discriminate].
  exists w1. split; [reflexivity |].
  intros a Ha. apply (update_each_alive _ _ _ _ _ E1).
  now apply live_roster_alive in Ha.
Qed.

(** The boid pass returns when the waypoint index of every agent is
    usable. *)
Lemma update_each_returns (todo : list ref) (w : World)
    (all_boids : list ref) (rnds : list (R * R)) :
  (forall b, wp_valid (heap w b)) ->
  exists w', update_each w todo all_boids rnds = Some w'.
Proof.
  revert w rnds; induction todo as [| b todo IH]; intros w rnds V; cbn;
    [eauto |].
  destruct (update_returns w b all_boids BOIDS_PER_SQUAD (hd (0, 0) rnds)
              (V b)) as [w1 E].
  rewrite E. apply IH. intros x.
  eapply update_wp_valid; [exact E | apply V].
Qed.

Lemma boid_pass_returns (w : World) (boids : list ref)
    (rnds : list (R * R)) :
  (forall b, wp_valid (heap w b)) ->
  exists w', boid_pass w boids rnds
             = Some (w', live_roster (heap w) boids).
Proof.
  intros V. unfold boid_pass.
  destruct (update_each_returns (live_roster (heap w) boids) w
              (live_roster (heap w) boids) rnds V) as [w' ->].
  eauto.
Qed.

(** * Further properties *)

(** ** Formation offsets, continued *)

Lemma hypot_scale_abs (k x y : R) :
  hypot (k * x) (k * y) = Rabs k * hypot x y.
Proof.
  unfold hypot.
  replace (k * x * (k * x) + k * y * (k * y))
    with (Rsqr k * (x * x + y * y)) by (unfold Rsqr; ring).
  rewrite sqrt_mult; [| apply Rle_0_sqr | nra].
  now rewrite sqrt_Rsqr_abs.
Qed.

Lemma hypot_cos_sin (a : R) : hypot (cos a) (sin a) = 1.
Proof.
  unfold hypot. pose proof (sin2_cos2 a) as E. unfold Rsqr in E.
  replace (cos a * cos a + sin a * sin a) with 1 by lra.
  apply sqrt_1.
Qed.

(** X1: in mode CIRCLE the offset of every index lies on the circle of
    radius 60 around the leader, up to TOL, when the squad size is not zero;
    with squad size zero the call raises (division by zero); a mode that is
    neither V nor CIRCLE gives the zero offset. *)
Theorem formation_offset_circle (index total : Z) (mode : string) :
  (total <> 0%Z ->
   exists off, get_formation_offset index "CIRCLE" total = Some off
               /\ Rabs (hypot (fst off) (snd off) - 60) <= TOL)
  /\ get_formation_offset index "CIRCLE" 0 = None
  /\ (mode <> "V"%string -> mode <> "CIRCLE"%string ->
      get_formation_offset index mode total = Some (0, 0)).
Proof.
  split; [| split].
  - intros Ht. unfold get_formation_offset. cbn [String.eqb Ascii.eqb Bool.eqb].
    apply Z.eqb_neq in Ht. rewrite Ht. eexists. split; [reflexivity |].
    cbv [fst snd].
    rewrite (Rmult_comm (cos _)), (Rmult_comm (sin _)).
    rewrite hypot_scale_abs, hypot_cos_sin.
    rewrite (Rabs_pos_eq 60) by lra.
    replace (60 * 1 - 60) with 0 by ring. rewrite Rabs_R0. unfold TOL. lra.
  - reflexivity.
  - intros HV HC. unfold get_formation_offset.
    apply String.eqb_neq in HV, HC. now rewrite HV, HC.
Qed.

Lemma formation_offset_circle_witness :
  (exists off, get_formation_offset 1 "CIRCLE" 6 = Some off
               /\ Rabs (hypot (fst off) (snd off) - 60) <= TOL)
  /\ get_formation_offset 1 "LINE" 6 = Some (0, 0).
Proof.
  destruct (formation_offset_circle 1 6 "LINE") as (A & _ & C).
  split.
  - apply A. discriminate.
  - apply C; discriminate.
Defined.

Lemma formation_offset_V_value (i total : Z) :
  get_formation_offset i "V" total
  = Some (IZR ((if (i mod 2 =? 0)%Z then -1 else 1) * 30 * ((i + 1) / 2)),
          IZR (30 * ((i + 1) / 2))).
Proof. reflexivity. Qed.

(** X2: in mode V the offset does not depend on the squad size, the call
    never raises, and the followers with a non-negative index get pairwise
    different offsets, each on one of the two arms y = |x| behind the
    leader. *)
Theorem formation_offset_V_slots (i j total total' : Z) :
  get_formation_offset i "V" total = get_formation_offset i "V" total'
  /\ (exists off,
        get_formation_offset i "V" total = Some off
        /\ ((0 <= i)%Z -> 0 <= snd off /\ Rabs (fst off) = snd off))
  /\ ((0 <= i)%Z -> (0 <= j)%Z ->
      get_formation_offset i "V" total = get_formation_offset j "V" total' ->
      i = j).
Proof.
  rewrite !formation_offset_V_value.
  pose proof (Z.div_mod (i + 1) 2 ltac:(lia)) as Di.
  pose proof (Z.mod_pos_bound (i + 1) 2 ltac:(lia)) as Bi.
  pose proof (Z.div_mod i 2 ltac:(lia)) as Di'.
  pose proof (Z.mod_pos_bound i 2 ltac:(lia)) as Bi'.
  split; [reflexivity |]. split.
  - eexists. split; [reflexivity |]. intros Hi. cbv [fst snd].
    assert (Li : (0 <= (i + 1) / 2)%Z) by (apply Z.div_pos; lia).
    split; [apply IZR_le; lia |].
    rewrite <- abs_IZR. f_equal.
    destruct (i mod 2 =? 0)%Z; lia.
  - intros Hi Hj E.
    assert (E0 : IZR ((if (i mod 2 =? 0)%Z then -1 else 1) * 30
                      * ((i + 1) / 2))
                 = IZR ((if (j mod 2 =? 0)%Z then -1 else 1) * 30
                        * ((j + 1) / 2))) by congruence.
    assert (E1 : IZR (30 * ((i + 1) / 2)) = IZR (30 * ((j + 1) / 2)))
      by congruence.
    apply eq_IZR in E0, E1.
    pose proof (Z.div_mod (j + 1) 2 ltac:(lia)) as Dj.
    pose proof (Z.mod_pos_bound (j + 1) 2 ltac:(lia)) as Bj.
    pose proof (Z.div_mod j 2 ltac:(lia)) as Dj'.
    pose proof (Z.mod_pos_bound j 2 ltac:(lia)) as Bj'.
    destruct (Z.eqb_spec (i mod 2) 0), (Z.eqb_spec (j mod 2) 0); lia.
Qed.

(** The follower of index 4 has the same slot, (-60, 60), in a squad of 6
    and in a squad of 2, and the follower of index 3 has another one. *)
Lemma formation_offset_V_slots_witness :
  get_formation_offset 4 "V" 6 = get_formation_offset 4 "V" 2
  /\ get_formation_offset 4 "V" 6 = Some (IZR (-60), IZR 60)
  /\ get_formation_offset 3 "V" 6 <> get_formation_offset 4 "V" 2.
Proof.
  destruct (formation_offset_V_slots 3 4 6 2) as (_ & _ & C).
  destruct (formation_offset_V_slots 4 4 6 2) as (A & _ & _).
  split; [exact A |]. split; [reflexivity |].
  intros E. apply C in E; lia.
Defined.

(** ** Ping *)

(** A new ping after [n] updates. *)
Lemma ping_updates_init (p : vec) (n : nat) :
  let q := Nat.iter n Ping.update (Ping.init p) in
  Ping.radius q = (3 * Z.min (Z.of_nat n) 34)%Z
  /\ Ping.active q = (Z.of_nat n <=? 34)%Z
  /\ Ping.pos q = p /\ Ping.max_radius q = 100%Z.
Proof.
  induction n as [| n IH]; [cbn; auto |].
  cbv zeta in *. rewrite Nat.iter_succ.
  destruct IH as (Hr & Ha & Hp & Hm).
  set (q := Nat.iter n Ping.update (Ping.init p)) in *.
  unfold Ping.update. rewrite Hr, Hm.
  destruct (Z.ltb_spec (3 * Z.min (Z.of_nat n) 34) 100) as [Hlt | Hge];
    cbn [Ping.radius Ping.active Ping.pos Ping.max_radius].
  - rewrite Ha. repeat split; auto; [lia |].
    destruct (Z.leb_spec (Z.of_nat n) 34), (Z.leb_spec (Z.of_nat (S n)) 34);
      auto; lia.
  - repeat split; auto; [lia |].
    destruct (Z.leb_spec (Z.of_nat (S n)) 34); auto; lia.
Qed.

(** X3: a new ping stays active through its first 34 updates while its
    radius grows by 3 per update up to 102, two beyond max_radius; the 35th
    update deactivates it, and from then on it stays inactive with radius
    102 at its original position. *)
Theorem ping_lifecycle (p : vec) (n : nat) :
  let q := Nat.iter n Ping.update (Ping.init p) in
  Ping.radius q = (3 * Z.min (Z.of_nat n) 34)%Z
  /\ Ping.active q = (Z.of_nat n <=? 34)%Z
  /\ Ping.pos q = p /\ Ping.max_radius q = 100%Z.
Proof. apply ping_updates_init. Qed.

(** ** Projectile, continued *)

Lemma projectile_updates_inactive (h : Heap) (p : Projectile.t) (n : nat) :
  Projectile.active p = false -> projectile_updates n h p = (h, p).
Proof.
  intros Ha. induction n as [| n IH]; [reflexivity |].
  cbn [projectile_updates]. unfold Projectile.update. rewrite Ha.
  cbn [negb orb].
  replace (Projectile.set_active false p) with p; [exact IH |].
  destruct p; cbn in *; now subst.
Qed.

(** X4: a projectile that is inactive is inert: however often it is updated,
    it stays as it is (inactive, in place) and the store is not touched; in
    particular it never reactivates. *)
Theorem projectile_inactive_inert (h : Heap) (p : Projectile.t) (n : nat) :
  Projectile.active p = false -> projectile_updates n h p = (h, p).
Proof. apply projectile_updates_inactive. Qed.

Lemma projectile_inactive_inert_witness :
  projectile_updates 3 squad0
    (Projectile.set_active false (Projectile.init (156, 350) 1))
  = (squad0, Projectile.set_active false (Projectile.init (156, 350) 1)).
Proof.
  exact (projectile_inactive_inert squad0
           (Projectile.set_active false (Projectile.init (156, 350) 1)) 3
           eq_refl).
Defined.










Lemma boid_eta (x : Boid) : x = set_health (health x) x.
Proof. now destruct x. Qed.

(** What one [Projectile.update] does to an agent [b]: nothing, or, when [b]
    is the live unshielded target, 5 less health. *)
Lemma projectile_update_frame (h : Heap) (p : Projectile.t) (b : ref) :
  fst (Projectile.update h p) b = h b
  \/ (b = Projectile.target_boid p /\ 0 < health (h b)
      /\ shielded (h b) = false
      /\ fst (Projectile.update h p) b
         = set_health (health (h b) - 5) (h b)).
Proof.
  unfold Projectile.update.
  destruct (Projectile.active p); cbn [negb orb]; [| now left].
  destruct (Rle_dec (health (h (Projectile.target_boid p))) 0) as [Hd | Hl].
  { rewrite (Rleb_true _ _ Hd). now left. }
  rewrite Rleb_false by lra.
  change (Projectile.target_boid (Projectile.advance h p))
    with (Projectile.target_boid p).
  destruct (Rltb _ BOID_RADIUS); cbn [fst]; [| now left].
  destruct (shielded (h (Projectile.target_boid p))) eqn:Hs; cbn [negb];
    [now left |].
  destruct (Nat.eq_dec b (Projectile.target_boid p)) as [-> | Hne].
  - right. rewrite modify_same. repeat split; auto. lra.
  - left. now apply modify_other.
Qed.

Lemma projectile_pass_cons (h : Heap) (p : Projectile.t)
    (ps : list Projectile.t) :
  fst (projectile_pass h (p :: ps))
  = fst (projectile_pass (fst (Projectile.update h p)) ps).
Proof.
  cbn [projectile_pass]. destruct (Projectile.update h p) as [h1 p1].
  cbn [fst]. now destruct (projectile_pass h1 ps).
Qed.

Lemma projectile_pass_agent (ps : list Projectile.t) (h : Heap) (b : ref) :
  let h' := fst (projectile_pass h ps) in
  h' b = set_health (health (h' b)) (h b)
  /\ health (h b) - 5 * INR (aimed_at b ps) <= health (h' b) <= health (h b)
  /\ (health (h b) <= 0 \/ shielded (h b) = true -> h' b = h b)
  /\ (-5 < health (h b) -> -5 < health (h' b)).
Proof.
  revert h; induction ps as [| p ps IH]; intros h h'; subst h'.
  - cbn. repeat split; auto using boid_eta; lra.
  - rewrite projectile_pass_cons.
    specialize (IH (fst (Projectile.update h p))). cbv zeta in IH.
    destruct IH as (I1 & I2 & I3 & I4).
    unfold aimed_at in *. cbn [filter].
    destruct (projectile_update_frame h p b) as [E | (Eb & Hl & Hs & E)].
    + rewrite E in *.
      assert (C : INR (List.length
                         (filter (fun q => Nat.eqb (Projectile.target_boid q) b)
                                 ps))
                  <= INR (List.length
                            (if Nat.eqb (Projectile.target_boid p) b
                             then p :: filter
                                    (fun q =>
                                       Nat.eqb (Projectile.target_boid q) b)
                                    ps
                             else filter
                                    (fun q =>
                                       Nat.eqb (Projectile.target_boid q) b)
                                    ps))).
      { destruct (Nat.eqb _ b); cbn [List.length]; [rewrite S_INR |]; lra. }
      repeat split; auto; lra.
    + subst b. rewrite Nat.eqb_refl. cbn [List.length]. rewrite S_INR.
      rewrite E in *. cbn [health set_health shielded] in *.
      split; [rewrite I1 at 1; reflexivity |].
      split; [lra |]. split; [| intros _; apply I4; lra].
      intros [Hd | Hsh]; [lra | congruence].
Qed.

(** X7: in the loop over the projectiles an agent can only lose health, at
    most 5 for each projectile aimed at it, and none of its other attributes
    changes; an agent that is dead (health <= 0) or shielded when the loop
    starts is not touched at all, so no health ever falls to -5 or below
    from above it. *)
Theorem projectile_pass_damage (ps : list Projectile.t) (h : Heap)
    (b : ref) :
  let h' := fst (projectile_pass h ps) in
  h' b = set_health (health (h' b)) (h b)
  /\ health (h b) - 5 * INR (aimed_at b ps) <= health (h' b) <= health (h b)
  /\ (health (h b) <= 0 \/ shielded (h b) = true -> h' b = h b)
  /\ (-5 < health (h b) -> -5 < health (h' b)).
Proof. apply projectile_pass_agent. Qed.

(** With the followers of squad 0 shielded, a projectile in reach of the
    medic leaves it as it is. *)
Lemma projectile_pass_damage_witness :
  fst (projectile_pass (apply_shield squad0 0 roster0)
         [Projectile.init (156, 350) 1]) 1%nat
  = apply_shield squad0 0 roster0 1%nat.
Proof.
  destruct (projectile_pass_damage [Projectile.init (156, 350) 1]
              (apply_shield squad0 0 roster0) 1) as (_ & _ & A & _).
  apply A. right. reflexivity.
Defined.

(** ** The effect of [Boid.update] on the agent itself and on the others *)

(** Splits the conditionals of a hypothesis [E], innermost first. *)
Ltac split_inner E :=
  match type of E with
  | context [match ?c with _ => _ end] =>
    lazymatch c with
    | context [match _ with _ => _ end] => fail
    | _ => destruct c
    end
  end.

Ltac split_all E :=
  repeat (split_inner E; cbn [heap projectiles] in E).

Lemma heal_ally_self (h : Heap) (self : ref) (all_boids : list ref) :
  heal_ally h self all_boids self = h self.
Proof.
  unfold heal_ally. destruct (is_medic (h self)); [| reflexivity].
  apply heal_fold_notin. intros H. apply filter_In in H.
  destruct H as [_ H]. rewrite Nat.eqb_refl in H.
  cbn in H. rewrite andb_false_r in H. discriminate.
Qed.

Lemma flock_self (h : Heap) (self : ref) (all_boids : list ref) :
  exists v, flock h self all_boids self = set_velocity v (h self).
Proof.
  unfold flock. destruct (neighbors h self all_boids).
  - exists (velocity (h self)). now destruct (h self).
  - eexists. rewrite modify_same. reflexivity.
Qed.

(** [update] on a live agent: the behaviour step gives a world [w2]; after
    it only the velocity and the position of the agent change, the list of
    projectiles stays as the behaviour step left it, and another agent
    keeps everything but, possibly, its health. *)
Lemma update_decompose (w w' : World) (self : ref) (all_boids : list ref)
    (squad_size : Z) (rnd : R * R) :
  update w self all_boids squad_size rnd = Some w' ->
  0 < health (heap w self) ->
  exists (w2 : World) (p v : vec),
    update_behave w self all_boids squad_size rnd = Some w2
    /\ projectiles w' = projectiles w2
    /\ heap w' self = set_position p (set_velocity v (heap w2 self))
    /\ (forall b, b <> self ->
                  heap w2 b = heap w b
                  /\ heap w' b = set_health (health (heap w' b)) (heap w b)).
Proof.
  unfold update, update_motion. intros E Hlive.
  rewrite (Rleb_false _ _ Hlive) in E.
  destruct (update_behave w self all_boids squad_size rnd) as [w2 |] eqn:Eb;
    [| discriminate].
  injection E as <-. cbn [heap projectiles].
  destruct (flock_self (heap w2) self all_boids) as [v Ev].
  exists w2. eexists. eexists. split; [reflexivity |]. split; [reflexivity |].
  split.
  - rewrite heal_ally_self, !modify_same, Ev. unfold integrate.
    cbn [position velocity set_velocity set_position]. reflexivity.
  - intros b Hb.
    assert (F : heap w2 b = heap w b).
    { unfold update_behave in Eb. apply dispatch_frame in Eb.
      destruct Eb as [Fo _]. rewrite (Fo b Hb). cbn [heap].
      now apply modify_other. }
    split; [exact F |].
    rewrite heal_ally_frame at 1. rewrite !modify_other by assumption.
    unfold flock. destruct (neighbors _ _ _);
      rewrite ?modify_other by assumption; now rewrite F.
Qed.

(** The behaviours assign neither [shielded] nor [shield_timer]. *)
Lemma dispatch_shield (w w2 : World) (self : ref) (all_boids : list ref)
    (squad_size : Z) (rnd : R * R) :
  dispatch w self all_boids squad_size rnd = Some w2 ->
  shielded (heap w2 self) = shielded (heap w self)
  /\ shield_timer (heap w2 self) = shield_timer (heap w self).
Proof.
  unfold dispatch, handle_patrol, patrol_steer, patrol_acquire,
    handle_engage, handle_evade.
  intros E. split_all E; try discriminate; injection E as <-;
    cbn [heap]; rewrite ?modify_same; split; reflexivity.
Qed.

(** ** Shield duration and cooldown *)

Lemma tick_timers_shield (b : Boid) :
  shield_state (tick_timers b) = tick_shield (shield_state b).
Proof.
  destruct b as [p v sq ld ix lr fo wp cw hl atk te md sh st pc en fr dr s].
  unfold tick_timers, tick_shield, shield_state. cbn.
  repeat (match goal with
          | |- context [if ?c then _ else _] =>
            lazymatch c with
            | context [if _ then _ else _] => fail
            | _ => destruct c
            end
          end; cbn);
    reflexivity.
Qed.

(** [update] steps the shield attributes of a live agent once and leaves
    those of every other agent alone. *)
Lemma update_shield_state (w w' : World) (self : ref)
    (all_boids : list ref) (squad_size : Z) (rnd : R * R) (b : ref) :
  update w self all_boids squad_size rnd = Some w' ->
  shield_state (heap w' b)
  = if Nat.eqb b self && Rltb 0 (health (heap w self))
    then tick_shield (shield_state (heap w b))
    else shield_state (heap w b).
Proof.
  intros E.
  destruct (Rlt_dec 0 (health (heap w self))) as [Hlive | Hdead].
  - rewrite (Rltb_true _ _ Hlive), andb_true_r.
    destruct (update_decompose _ _ _ _ _ _ E Hlive)
      as (w2 & p & v & Eb & _ & Es & Eo).
    destruct (Nat.eqb_spec b self) as [-> | Hb].
    + rewrite Es. unfold update_behave in Eb.
      apply dispatch_shield in Eb. cbn [heap] in Eb.
      rewrite modify_same in Eb. destruct Eb as [E1 E2].
      rewrite <- tick_timers_shield. unfold shield_state.
      cbn [shielded shield_timer set_position set_velocity]. congruence.
    + destruct (Eo b Hb) as [_ ->]. reflexivity.
  - rewrite Rltb_false by lra. rewrite andb_false_r.
    unfold update in E. rewrite Rleb_true in E by lra. now injection E as <-.
Qed.

Lemma update_each_shield_state (todo : list ref) (w w' : World)
    (all_boids : list ref) (rnds : list (R * R)) (b : ref) :
  NoDup todo ->
  (forall a, In a todo -> 0 < health (heap w a)) ->
  update_each w todo all_boids rnds = Some w' ->
  shield_state (heap w' b)
  = if existsb (Nat.eqb b) todo then tick_shield (shield_state (heap w b))
    else shield_state (heap w b).
Proof.
  intros N; revert w rnds; induction N as [| a todo Hnin N IH];
    intros w rnds Hlive E; cbn in E.
  - now injection E as <-.
  - destruct (update w a all_boids BOIDS_PER_SQUAD (hd (0, 0) rnds))
      as [w1 |] eqn:Eu; [| discriminate].
    rewrite (IH w1 (tl rnds)); [| | exact E].
    + rewrite !(update_shield_state _ _ _ _ _ _ _ Eu).
      rewrite (Rltb_true 0 (health (heap w a)))
        by (apply Hlive; now left).
      rewrite andb_true_r. cbn [existsb].
      destruct (Nat.eqb_spec b a) as [-> | Hb]; cbn [orb]; [| reflexivity].
      destruct (existsb (Nat.eqb a) todo) eqn:Ex; [| reflexivity].
      apply existsb_eqb_In in Ex. contradiction.
    + intros x Hx.
      pose proof (update_health_mono _ _ _ _ _ _ x Eu).
      specialize (Hlive x (or_intror Hx)). lra.
Qed.

Lemma projectile_pass_shield_state (ps : list Projectile.t) (h : Heap)
    (b : ref) :
  shield_state (fst (projectile_pass h ps) b) = shield_state (h b).
Proof.
  destruct (projectile_pass_agent ps h b) as (E & _). cbv zeta in E.
  rewrite E. reflexivity.
Qed.

Lemma live_roster_NoDup (h : Heap) (l : list ref) :
  NoDup l -> NoDup (live_roster h l).
Proof. apply NoDup_filter. Qed.

(** One frame: the roster is the pruned one, and the shield attributes of
    its agents are stepped once. *)
Lemma frame_shield_state (g g' : Game) (rnds : list (R * R)) (b : ref) :
  NoDup (boids g) ->
  frame g rnds = Some g' ->
  boids g' = live_roster (heap (world g)) (boids g)
  /\ shield_state (heap (world g') b)
     = if existsb (Nat.eqb b) (boids g')
       then tick_shield (shield_state (heap (world g) b))
       else shield_state (heap (world g) b).
Proof.
  intros N E. unfold frame, boid_pass in E. cbn [heap projectiles] in E.
  destruct (update_each _ _ _ rnds) as [w1 |] eqn:Ep; [| discriminate].
  destruct (projectile_pass (heap w1) (projectiles w1)) as [h2 ps2] eqn:Epp.
  injection E as <-. cbn [boids world heap]. split; [reflexivity |].
  replace h2 with (fst (projectile_pass (heap w1) (projectiles w1)))
    by now rewrite Epp.
  rewrite projectile_pass_shield_state.
  rewrite (update_each_shield_state _ _ _ _ _ b
             (live_roster_NoDup _ _ N)
             (fun a Ha => proj2 (proj1 (live_roster_alive _ _ a) Ha)) Ep).
  reflexivity.
Qed.

Lemma live_roster_In (h : Heap) (l : list ref) (b : ref) :
  In b (live_roster h l) -> In b l.
Proof. intros H. now apply live_roster_alive in H. Qed.

(** Over successive frames the roster only shrinks, and an agent that is
    still in it has had its shield attributes stepped once per frame. *)
Lemma frames_shield_state (rnds : list (list (R * R))) (g g' : Game)
    (b : ref) :
  NoDup (boids g) ->
  frames g rnds = Some g' ->
  In b (boids g') ->
  In b (boids g)
  /\ shield_state (heap (world g') b)
     = Nat.iter (List.length rnds) tick_shield
         (shield_state (heap (world g) b)).
Proof.
  revert g; induction rnds as [| r rnds IH]; intros g N E Hin; cbn in E.
  - injection E as <-. split; [assumption | reflexivity].
  - destruct (frame g r) as [g1 |] eqn:Ef; [| discriminate].
    destruct (frame_shield_state g g1 r b N Ef) as [Eb Es].
    assert (N1 : NoDup (boids g1))
      by (rewrite Eb; now apply live_roster_NoDup).
    destruct (IH g1 N1 E Hin) as [Hin1 E1].
    split; [rewrite Eb in Hin1; now apply live_roster_In in Hin1 |].
    rewrite E1, Es.
    apply existsb_eqb_In in Hin1. rewrite Hin1.
    cbn [List.length]. now rewrite Nat.iter_succ_r.
Qed.

Lemma tick_shield_iter (n : nat) (s : bool) (t : Z) :
  (0 < t)%Z ->
  Nat.iter n tick_shield (s, t)
  = (s && (Z.of_nat n <? t)%Z, Z.max 0 (t - Z.of_nat n)).
Proof.
  intros Ht. induction n as [| n IH].
  - cbn. destruct (Z.ltb_spec 0 t); [| lia].
    rewrite andb_true_r. f_equal. lia.
  - rewrite Nat.iter_succ, IH. unfold tick_shield. cbn [fst snd].
    destruct (Z.ltb_spec 0 (Z.max 0 (t - Z.of_nat n))).
    + destruct (Z.leb_spec (Z.max 0 (t - Z.of_nat n) - 1) 0);
        destruct (Z.ltb_spec (Z.of_nat n) t);
        destruct (Z.ltb_spec (Z.of_nat (S n)) t); try lia;
        destruct s; cbn [andb]; f_equal; lia.
    + destruct (Z.leb_spec (Z.max 0 (t - Z.of_nat n)) 0);
        destruct (Z.ltb_spec (Z.of_nat n) t);
        destruct (Z.ltb_spec (Z.of_nat (S n)) t); try lia;
        destruct s; cbn [andb]; f_equal; lia.
Qed.

Lemma update_each_wp_valid (todo : list ref) (w w' : World)
    (all_boids : list ref) (rnds : list (R * R)) :
  update_each w todo all_boids rnds = Some w' ->
  (forall b, wp_valid (heap w b)) -> forall b, wp_valid (heap w' b).
Proof.
  revert w rnds; induction todo as [| a todo IH]; intros w rnds E V;
    cbn in E.
  - now injection E as <-.
  - destruct (update w a all_boids BOIDS_PER_SQUAD (hd (0, 0) rnds))
      as [w1 |] eqn:Eu; [| discriminate].
    apply (IH _ _ E). intros x. eapply update_wp_valid; [exact Eu | apply V].
Qed.

Lemma projectile_pass_wp_valid (ps : list Projectile.t) (h : Heap) :
  (forall b, wp_valid (h b)) ->
  forall b, wp_valid (fst (projectile_pass h ps) b).
Proof.
  intros V b. destruct (projectile_pass_agent ps h b) as (E & _).
  cbv zeta in E. rewrite E. exact (V b).
Qed.

(** A frame returns, and keeps every waypoint index usable, when every
    waypoint index is usable. *)
Lemma frame_returns (g : Game) (rnds : list (R * R)) :
  (forall b, wp_valid (heap (world g) b)) ->
  exists g', frame g rnds = Some g'
             /\ forall b, wp_valid (heap (world g') b).
Proof.
  intros V. unfold frame, boid_pass. cbn [heap projectiles].
  set (w0 := {| heap := heap (world g);
                projectiles := filter Projectile.active
                                 (projectiles (world g)) |}).
  destruct (update_each_returns (live_roster (heap (world g)) (boids g)) w0
              (live_roster (heap (world g)) (boids g)) rnds V) as [w1 E1].
  rewrite E1.
  pose proof (update_each_wp_valid _ _ _ _ _ E1 V) as V1.
  pose proof (projectile_pass_wp_valid (projectiles w1) (heap w1) V1) as V2.
  destruct (projectile_pass (heap w1) (projectiles w1)) as [h2 ps2].
  eexists. split; [reflexivity |]. exact V2.
Qed.

Lemma frames_returns (rnds : list (list (R * R))) (g : Game) :
  (forall b, wp_valid (heap (world g) b)) ->
  exists g', frames g rnds = Some g'.
Proof.
  revert g; induction rnds as [| r rnds IH]; intros g V; cbn; [eauto |].
  destruct (frame_returns g r V) as (g1 & -> & V1). now apply IH.
Qed.

(** X8: over successive frames, an agent that is still in the roster (so it
    was alive at the start of each frame) and started shielded with
    shield_timer T > 0 is shielded after n frames exactly when n < T, and
    its shield_timer is then max(0, T - n): the shield of 180 given by
    apply_shield is gone after the update of the 180th frame. *)
Theorem shield_duration (rnds : list (list (R * R))) (g g' : Game)
    (b : ref) :
  NoDup (boids g) ->
  frames g rnds = Some g' ->
  In b (boids g') ->
  shielded (heap (world g) b) = true ->
  (0 < shield_timer (heap (world g) b))%Z ->
  shielded (heap (world g') b)
  = (Z.of_nat (List.length rnds) <? shield_timer (heap (world g) b))%Z
  /\ shield_timer (heap (world g') b)
     = Z.max 0 (shield_timer (heap (world g) b)
                - Z.of_nat (List.length rnds)).
Proof.
  intros N E Hin Hs Ht.
  destruct (frames_shield_state rnds g g' b N E Hin) as [_ Es].
  unfold shield_state in Es at 2. rewrite Hs in Es.
  rewrite (tick_shield_iter _ _ _ Ht) in Es. cbn [andb] in Es.
  unfold shield_state in Es. now injection Es as -> ->.
Qed.

(** The game of the examples right after the leader of squad 0 has shielded
    its followers: one frame later the medic is still shielded, with 179
    left. *)
Lemma shield_duration_witness :
  exists g',
    frames {| world := {| heap := apply_shield squad0 0 roster0;
                          projectiles := [] |};
              boids := roster0; pings := [] |} [[]] = Some g'
    /\ shielded (heap (world g') 1%nat) = true
    /\ shield_timer (heap (world g') 1%nat) = 179%Z.
Proof.
  set (g := {| world := {| heap := apply_shield squad0 0 roster0;
                           projectiles := [] |};
               boids := roster0; pings := [] |}).
  assert (V : forall b, wp_valid (heap (world g) b)).
  { intros b. left. cbn [g world heap].
    rewrite (apply_shield_active squad0 0 roster0 b eq_refl eq_refl)
      by (cbn; lia).
    destruct b as [| [| [| b]]]; reflexivity. }
  destruct (frames_returns [[]] g V) as [g' E].
  exists g'. split; [exact E |].
  assert (Hin : In 1%nat (boids g')).
  { cbn in E. destruct (frame g []) as [g1 |] eqn:E1; [| discriminate].
    injection E as <-.
    destruct (frame_shield_state g g1 [] 1 roster0_NoDup E1) as [B1 _].
    rewrite B1. apply live_roster_alive. split; [cbn; auto |].
    cbn. lra. }
  destruct (shield_duration [[]] g g' 1 roster0_NoDup E Hin eq_refl
              ltac:(cbn; lia)) as [A B].
  split; [exact A | exact B].
Defined.

(** X9: the cooldown of the shield runs in frames: for an agent that is
    still in the roster and had shield_timer T > 0, apply_shield is a no-op
    on every roster as long as fewer than T frames have passed, and after T
    or more frames its shield_timer is 0, so that a player leader can
    activate the shield again (T = 600 after an activation). *)
Theorem shield_cooldown (rnds : list (list (R * R))) (g g' : Game)
    (l : ref) :
  NoDup (boids g) ->
  frames g rnds = Some g' ->
  In l (boids g') ->
  (0 < shield_timer (heap (world g) l))%Z ->
  ((Z.of_nat (List.length rnds) < shield_timer (heap (world g) l))%Z ->
   forall all_boids b,
     apply_shield (heap (world g')) l all_boids b = heap (world g') b)
  /\ ((shield_timer (heap (world g) l) <= Z.of_nat (List.length rnds))%Z ->
      shield_timer (heap (world g') l) = 0%Z).
Proof.
  intros N E Hin Ht.
  destruct (frames_shield_state rnds g g' l N E Hin) as [_ Es].
  unfold shield_state in Es at 2.
  rewrite (tick_shield_iter _ _ _ Ht) in Es.
  unfold shield_state in Es. injection Es as _ Et.
  split.
  - intros Hn all_boids b. rewrite apply_shield_inactive; [reflexivity |].
    left. lia.
  - intros Hn. lia.
Qed.

(** One frame after the activation a second activation by the leader does
    nothing. *)
Lemma shield_cooldown_witness :
  exists g',
    frames {| world := {| heap := apply_shield squad0 0 roster0;
                          projectiles := [] |};
              boids := roster0; pings := [] |} [[]] = Some g'
    /\ forall b, apply_shield (heap (world g')) 0 roster0 b
                 = heap (world g') b.
Proof.
  set (g := {| world := {| heap := apply_shield squad0 0 roster0;
                           projectiles := [] |};
               boids := roster0; pings := [] |}).
  assert (V : forall b, wp_valid (heap (world g) b)).
  { intros b. left. cbn [g world heap].
    rewrite (apply_shield_active squad0 0 roster0 b eq_refl eq_refl)
      by (cbn; lia).
    destruct b as [| [| [| b]]]; reflexivity. }
  destruct (frames_returns [[]] g V) as [g' E].
  exists g'. split; [exact E |].
  assert (Hin : In 0%nat (boids g')).
  { cbn in E. destruct (frame g []) as [g1 |] eqn:E1; [| discriminate].
    injection E as <-.
    destruct (frame_shield_state g g1 [] 0 roster0_NoDup E1) as [B1 _].
    rewrite B1. apply live_roster_alive. split; [cbn; auto |].
    cbn. lra. }
  destruct (shield_cooldown [[]] g g' 0 roster0_NoDup E Hin
              ltac:(cbn; lia)) as [A _].
  apply A. cbn. lia.
Defined.

(** ** Firing *)

Lemma modify_proj {A : Type} (F : Boid -> A) (h : Heap) (self : ref)
    (f : Boid -> Boid) (b : ref) :
  (forall x, F (f x) = F x) -> F (modify h self f b) = F (h b).
Proof.
  intros Hf. unfold modify. destruct (Nat.eqb_spec b self) as [-> |]; auto.
Qed.

(** The timer step in terms of attribute assignments. *)
Lemma tick_timers_form (b : Boid) :
  exists (sh : bool) (st : Z),
    tick_timers b
    = set_shielded sh
        (set_shield_timer st
           (set_projectile_cooldown
              (if (0 <? projectile_cooldown b)%Z
               then projectile_cooldown b - 1 else projectile_cooldown b)%Z
              b)).
Proof.
  exists (shielded (tick_timers b)), (shield_timer (tick_timers b)).
  destruct b as [p v sq ld ix lr fo wp cw hl atk te md sh st pc en fr dr s].
  unfold tick_timers.
  cbn [projectile_cooldown shield_timer shielded set_projectile_cooldown
       set_shield_timer set_shielded].
  destruct (0 <? pc)%Z;
    cbn [projectile_cooldown shield_timer shielded set_projectile_cooldown
         set_shield_timer set_shielded];
    destruct (0 <? st)%Z;
    cbn [projectile_cooldown shield_timer shielded set_projectile_cooldown
         set_shield_timer set_shielded];
    match goal with
    | |- context [if ?c then _ else _] => destruct c
    end;
    reflexivity.
Qed.

(** [handle_engage] fires exactly when the target is alive, the cooldown is
    0 and the target is within firing range. *)
Lemma handle_engage_fire (w : World) (self : ref) (all_boids : list ref) :
  let h := heap w in
  let w' := handle_engage w self all_boids in
  (forall e,
      target_enemy (h self) = Some e -> 0 < health (h e) ->
      projectile_cooldown (h self) = 0%Z ->
      distance (position (h self)) (position (h e))
      <= firing_range (h self) ->
      projectiles w'
      = projectiles w ++ [Projectile.init (position (h self)) e]
      /\ projectile_cooldown (heap w' self) = 60%Z)
  /\ ((forall e,
          target_enemy (h self) = Some e ->
          ~ (0 < health (h e) /\ projectile_cooldown (h self) = 0%Z
             /\ distance (position (h self)) (position (h e))
                <= firing_range (h self))) ->
      projectiles w' = projectiles w
      /\ projectile_cooldown (heap w' self)
         = projectile_cooldown (h self)).
Proof.
  intros h w'. subst w'. unfold handle_engage. fold h.
  set (back := {| heap := modify h self
                            (fun b => set_state "PATROL"
                                        (set_target_enemy None
                                           (set_attacking false b)));
                  projectiles := projectiles w |}).
  (* the last conditional touches neither the list nor the cooldown *)
  assert (L : forall w1 : World,
             projectiles
               (if Rltb (health (heap w1 self)) 30
                   && negb (is_enemy (heap w1 self))
                then {| heap := modify (heap w1) self (set_state "EVADE");
                        projectiles := projectiles w1 |}
                else w1) = projectiles w1
             /\ projectile_cooldown
                  (heap (if Rltb (health (heap w1 self)) 30
                            && negb (is_enemy (heap w1 self))
                         then {| heap := modify (heap w1) self
                                           (set_state "EVADE");
                                 projectiles := projectiles w1 |}
                         else w1) self)
                = projectile_cooldown (heap w1 self)).
  { intros w1. destruct (_ && _); cbn [heap projectiles];
      rewrite ?modify_same; split; reflexivity. }
  destruct (target_enemy (h self)) as [e |] eqn:Et.
  2:{ split; [intros e He; discriminate |].
      intros _. destruct (L back) as [-> ->]. subst back.
      cbn [heap projectiles]. rewrite modify_same. split; reflexivity. }
  destruct (Rlt_dec 0 (health (h e))) as [Hl | Hd].
  2:{ rewrite (Rltb_false 0 (health (h e))) by lra. split.
      - intros e' He'. injection He' as <-. intros; contradiction.
      - intros _. destruct (L back) as [-> ->]. subst back.
        cbn [heap projectiles]. rewrite modify_same. split; reflexivity. }
  rewrite (Rltb_true _ _ Hl).
  set (h1 := if Rltb (firing_range (h self) * 0.8) _ then _ else _).
  assert (P : forall b, position (h1 b) = position (h b)).
  { intros b. subst h1. destruct (Rltb _ _);
      apply (modify_proj position); reflexivity. }
  assert (C : projectile_cooldown (h1 self) = projectile_cooldown (h self)).
  { subst h1. destruct (Rltb _ _);
      apply (modify_proj projectile_cooldown); reflexivity. }
  assert (F : firing_range (h1 self) = firing_range (h self)).
  { subst h1. destruct (Rltb _ _);
      apply (modify_proj firing_range); reflexivity. }
  rewrite C, F, !P.
  destruct (Z.eqb_spec (projectile_cooldown (h self)) 0) as [Hc | Hc];
    cbn [andb].
  - destruct (Rle_dec (distance (position (h self)) (position (h e)))
                (firing_range (h self))) as [Hr | Hr].
    + rewrite (Rleb_true _ _ Hr). cbv iota. split.
      * intros e' He' _ _ _. injection He' as <-.
        lazymatch goal with
        | |- context [projectiles (if _ then _ else ?b)] =>
          destruct (L b) as [-> ->]
        end.
        cbn [heap projectiles]. rewrite modify_same. split; reflexivity.
      * intros H. exfalso. apply (H e eq_refl). auto.
    + rewrite Rleb_false by lra. cbv iota. split.
      * intros e' He' _ _ Hr'. injection He' as <-. contradiction.
      * intros _.
        lazymatch goal with
        | |- context [projectiles (if _ then _ else ?b)] =>
          destruct (L b) as [-> ->]
        end.
        cbn [heap projectiles]. split; [reflexivity | exact C].
  - split.
    + intros e' He' _ Hc' _. contradiction.
    + intros _.
      lazymatch goal with
      | |- context [projectiles (if _ then _ else ?b)] =>
        destruct (L b) as [-> ->]
      end.
      cbn [heap projectiles]. split; [reflexivity | exact C].
Qed.

Lemma tick_timers_keeps (b : Boid) :
  health (tick_timers b) = health b
  /\ position (tick_timers b) = position b
  /\ state (tick_timers b) = state b
  /\ target_enemy (tick_timers b) = target_enemy b
  /\ firing_range (tick_timers b) = firing_range b
  /\ is_enemy (tick_timers b) = is_enemy b
  /\ leader_ref (tick_timers b) = leader_ref b
  /\ attacking (tick_timers b) = attacking b
  /\ is_leader (tick_timers b) = is_leader b
  /\ detection_range (tick_timers b) = detection_range b
  /\ projectile_cooldown (tick_timers b)
     = (if (0 <? projectile_cooldown b)%Z
        then projectile_cooldown b - 1 else projectile_cooldown b)%Z.
Proof.
  destruct (tick_timers_form b) as (sh & st & ->). repeat split.
Qed.

(** Outside ENGAGE the behaviour step neither fires nor touches the
    cooldown. *)
Lemma dispatch_no_fire (w w2 : World) (self : ref) (all_boids : list ref)
    (squad_size : Z) (rnd : R * R) :
  state (heap w self) <> "ENGAGE"%string ->
  dispatch w self all_boids squad_size rnd = Some w2 ->
  projectiles w2 = projectiles w
  /\ projectile_cooldown (heap w2 self) = projectile_cooldown (heap w self).
Proof.
  intros Hs. apply String.eqb_neq in Hs. unfold dispatch. rewrite Hs.
  unfold handle_patrol, patrol_steer, patrol_acquire, handle_evade.
  intros E. split_all E; try discriminate; injection E as <-;
    cbn [heap projectiles]; rewrite ?modify_same; split; reflexivity.
Qed.

(** X10: an update fires at most one projectile, and it fires exactly when
    the agent is alive and in state ENGAGE with a live target within its
    firing range and a cooldown of 0 or 1 at the start of the update (the
    cooldown is decremented first): the projectile is then appended to the
    list, it starts at the agent's position before the move and is aimed at
    target_enemy, and the cooldown becomes 60.  Otherwise the list is left
    as it is and the cooldown of a live agent is decremented if positive. *)
Theorem update_fires (w w' : World) (self : ref) (all_boids : list ref)
    (squad_size : Z) (rnd : R * R) :
  update w self all_boids squad_size rnd = Some w' ->
  (forall e,
      ready_to_fire (heap w) self e ->
      projectiles w'
      = projectiles w ++ [Projectile.init (position (heap w self)) e]
      /\ projectile_cooldown (heap w' self) = 60%Z)
  /\ ((forall e, ~ ready_to_fire (heap w) self e) ->
      projectiles w' = projectiles w
      /\ (0 < health (heap w self) ->
          projectile_cooldown (heap w' self)
          = (if (0 <? projectile_cooldown (heap w self))%Z
             then projectile_cooldown (heap w self) - 1
             else projectile_cooldown (heap w self))%Z)).
Proof.
  intros E.
  destruct (Rlt_dec 0 (health (heap w self))) as [Hlive | Hdead].
  2:{ unfold update in E. rewrite Rleb_true in E by lra.
      injection E as <-. split.
      - intros e (H & _). contradiction.
      - intros _. split; [reflexivity | intros; contradiction]. }
  destruct (update_decompose _ _ _ _ _ _ E Hlive)
    as (w2 & p & v & Eb & -> & Es & _).
  assert (Ec : projectile_cooldown (heap w' self)
               = projectile_cooldown (heap w2 self))
    by (rewrite Es; reflexivity).
  rewrite Ec. clear Ec Es E.
  unfold update_behave in Eb.
  set (h1 := modify (heap w) self tick_timers) in Eb.
  set (w1 := {| heap := h1; projectiles := projectiles w |}) in Eb.
  destruct (tick_timers_keeps (heap w self))
    as (K1 & K2 & K3 & K4 & K5 & _ & _ & _ & _ & _ & K6).
  assert (Hh : forall b, health (h1 b) = health (heap w b))
    by (intros b; apply (modify_proj health); intros x;
        apply tick_timers_keeps).
  assert (Hp : forall b, position (h1 b) = position (heap w b))
    by (intros b; apply (modify_proj position); intros x;
        apply tick_timers_keeps).
  assert (S1 : h1 self = tick_timers (heap w self))
    by (apply modify_same).
  destruct (string_dec (state (heap w self)) "ENGAGE") as [He | Hne].
  - assert (Ed : w2 = handle_engage w1 self all_boids).
    { unfold dispatch in Eb. cbn [heap w1] in Eb. rewrite S1, K3, He in Eb.
      cbn in Eb. now injection Eb as <-. }
    destruct (handle_engage_fire w1 self all_boids) as [A B].
    cbv zeta in A, B. rewrite <- Ed in A, B. cbn [heap projectiles w1] in A, B.
    rewrite !Hp in A, B. rewrite S1, K4, K5, K6 in A, B.
    split.
    + intros e (_ & _ & Ht & Hle & Hc & Hr).
      apply (A e Ht); [now rewrite Hh | | now rewrite Hp].
      destruct (Z.ltb_spec 0 (projectile_cooldown (heap w self))); lia.
    + intros Hno. destruct B as [B1 B2].
      * intros e Ht (Hle & Hc & Hr). apply (Hno e).
        rewrite Hh in Hle. rewrite Hp in Hr. repeat split; auto.
        -- destruct (Z.ltb_spec 0 (projectile_cooldown (heap w self))); lia.
        -- destruct (Z.ltb_spec 0 (projectile_cooldown (heap w self))); lia.
      * split; [exact B1 | intros _; exact B2].
  - assert (Hne1 : state (heap w1 self) <> "ENGAGE"%string)
      by (cbn [heap w1]; rewrite S1, K3; exact Hne).
    destruct (dispatch_no_fire _ _ _ _ _ _ Hne1 Eb) as [D1 D2].
    cbn [heap projectiles w1] in D1, D2. rewrite S1, K6 in D2.
    split.
    + intros e (_ & Hs & _). contradiction.
    + intros _. split; [exact D1 | intros _; exact D2].
Qed.

(** The leader of the example fires at its target, 100 away. *)
Lemma update_fires_witness :
  exists w',
    update {| heap := duel; projectiles := [] |} 0 [0; 1]%nat 6 (0, 0)
    = Some w'
    /\ projectiles w' = [Projectile.init (150, 350) 1]
    /\ projectile_cooldown (heap w' 0%nat) = 60%Z.
Proof.
  destruct (update_returns {| heap := duel; projectiles := [] |} 0
              [0; 1]%nat 6 (0, 0)) as [w' E]; [left; reflexivity |].
  exists w'. split; [exact E |].
  destruct (update_fires _ _ _ _ _ _ E) as [A _].
  apply (A 1%nat). unfold ready_to_fire. cbn.
  rewrite distance_same_y. rabs.
  repeat split; try reflexivity; try lra; lia.
Defined.

(** ** The state machine *)

Lemma py_min_In (key : ref -> R) (l : list ref) (best : ref) :
  In (py_min key best l) (best :: l).
Proof.
  destruct (py_min_first key l best) as (l1 & l2 & -> & _).
  apply in_or_app. right. now left.
Qed.

(** [handle_patrol] either leaves state and target alone or, having found a
    live agent of the other faction in the roster, switches to ENGAGE with
    it as target. *)
Lemma handle_patrol_state (h h' : Heap) (self : ref) (all_boids : list ref)
    (squad_size : Z) :
  handle_patrol h self all_boids squad_size = Some h' ->
  (state (h' self) = state (h self)
   /\ target_enemy (h' self) = target_enemy (h self)
   /\ attacking (h' self) = attacking (h self)
   /\ forall b, In b all_boids -> detectableb h self b = false)
  \/ (state (h' self) = "ENGAGE"%string /\ attacking (h' self) = true
      /\ exists e, target_enemy (h' self) = Some e /\ In e all_boids
                   /\ detectable h self e).
Proof.
  unfold handle_patrol. intros E.
  destruct (patrol_steer h self squad_size) as [h1 |] eqn:Es;
    [| discriminate].
  injection E as <-.
  pose proof (patrol_steer_sense _ _ _ _ Es) as S.
  assert (K : state (h1 self) = state (h self)
              /\ target_enemy (h1 self) = target_enemy (h self)
              /\ attacking (h1 self) = attacking (h self)).
  { clear S. unfold patrol_steer in Es.
    split_all Es; try discriminate; injection Es as <-;
      rewrite ?modify_same; repeat split. }
  unfold patrol_acquire. rewrite enemies_in_detection_range_filter.
  rewrite (filter_ext _ (detectableb h self)
             (fun x => sense_eq_detectableb h h1 self x S)).
  destruct (filter (detectableb h self) all_boids) as [| e0 rest] eqn:F.
  - left. destruct K as (K1 & K2 & K3). repeat split; auto.
    intros b Hb. destruct (detectableb h self b) eqn:D; [| reflexivity].
    assert (Hf : In b (filter (detectableb h self) all_boids))
      by (apply filter_In; auto).
    rewrite F in Hf. destruct Hf.
  - right. rewrite modify_same. split; [reflexivity |].
    split; [reflexivity |].
    eexists. split; [reflexivity |].
    match goal with |- In ?m _ /\ _ =>
      assert (Hm : In m (filter (detectableb h self) all_boids))
        by (rewrite F; apply py_min_In)
    end.
    apply filter_In in Hm. destruct Hm as [Hin Hd].
    split; [exact Hin | now apply detectableb_iff].
Qed.

(** [handle_engage] keeps state and target when the target is alive, goes
    back to PATROL without target when it is not, and in both cases a
    player agent with health below 30 ends in EVADE. *)
Lemma handle_engage_state (w : World) (self : ref) (all_boids : list ref) :
  let h := heap w in
  let h' := heap (handle_engage w self all_boids) in
  let live_target :=
    exists e, target_enemy (h self) = Some e /\ 0 < health (h e) in
  let wounded_player :=
    health (h self) < 30 /\ is_enemy (h self) = false in
  (wounded_player -> state (h' self) = "EVADE"%string)
  /\ (~ wounded_player -> live_target ->
      state (h' self) = state (h self))
  /\ (~ wounded_player -> ~ live_target ->
      state (h' self) = "PATROL"%string)
  /\ (live_target -> target_enemy (h' self) = target_enemy (h self)
                     /\ attacking (h' self) = attacking (h self))
  /\ (~ live_target -> target_enemy (h' self) = None
                       /\ attacking (h' self) = false).
Proof.
  intros h h' live_target wounded_player.
  subst h' live_target wounded_player. unfold handle_engage. fold h.
  set (w1 := match target_enemy (h self) with
             | Some e => _ | None => _ end).
  assert (W : health (heap w1 self) = health (h self)
              /\ is_enemy (heap w1 self) = is_enemy (h self)).
  { subst w1. destruct (target_enemy (h self)) as [e |]; cbn [heap].
    - destruct (Rltb 0 (health (h e))); cbn [heap].
      + match goal with |- context [if ?c && _ then _ else _] =>
          destruct c end; cbn [andb];
          repeat match goal with
                 | |- context [if ?c then _ else _] => destruct c
                 end; cbn [heap]; rewrite ?modify_same; split; reflexivity.
      + rewrite modify_same. split; reflexivity.
    - rewrite modify_same. split; reflexivity. }
  assert (T : (forall e, target_enemy (h self) = Some e ->
                         0 < health (h e) ->
                         state (heap w1 self) = state (h self)
                         /\ target_enemy (heap w1 self)
                            = target_enemy (h self)
                         /\ attacking (heap w1 self) = attacking (h self))
              /\ ((forall e, target_enemy (h self) = Some e ->
                             health (h e) <= 0) ->
                  state (heap w1 self) = "PATROL"%string
                  /\ target_enemy (heap w1 self) = None
                  /\ attacking (heap w1 self) = false)).
  { clear W. subst w1.
    destruct (target_enemy (h self)) as [e |] eqn:Et; cbn [heap].
    - destruct (Rlt_dec 0 (health (h e))) as [Hl | Hd].
      + rewrite (Rltb_true _ _ Hl). split.
        * intros _ _ _.
          repeat match goal with
                 | |- context [if ?c then _ else _] => destruct c
                 end; cbn [heap]; rewrite ?modify_same; repeat split;
            exact Et.
        * intros H. specialize (H e eq_refl). lra.
      + rewrite Rltb_false by lra. split.
        * intros e' He' Hl. injection He' as <-. contradiction.
        * intros _. cbn [heap]. rewrite modify_same. repeat split.
    - split; [intros e He; discriminate |].
      intros _. rewrite modify_same. repeat split. }
  destruct T as [T1 T2]. destruct W as [W1 W2]. clearbody w1.
  rewrite W1, W2.
  assert (D : (exists e, target_enemy (h self) = Some e /\ 0 < health (h e))
              \/ forall e, target_enemy (h self) = Some e ->
                           health (h e) <= 0).
  { destruct (target_enemy (h self)) as [e |].
    - destruct (Rlt_dec 0 (health (h e))); [left; eauto |].
      right. intros e' He'. injection He' as <-. lra.
    - right. intros e He. discriminate. }
  assert (Dead : ~ (exists e, target_enemy (h self) = Some e
                              /\ 0 < health (h e)) ->
                 forall e, target_enemy (h self) = Some e ->
                           health (h e) <= 0).
  { intros Hn. destruct D as [D | D]; [contradiction | exact D]. }
  set (c := Rltb (health (h self)) 30 && negb (is_enemy (h self))).
  assert (F : target_enemy
                (heap (if c
                       then {| heap := modify (heap w1) self
                                         (set_state "EVADE");
                               projectiles := projectiles w1 |}
                       else w1) self) = target_enemy (heap w1 self)
              /\ attacking
                   (heap (if c
                          then {| heap := modify (heap w1) self
                                            (set_state "EVADE");
                                  projectiles := projectiles w1 |}
                          else w1) self) = attacking (heap w1 self)
              /\ state
                   (heap (if c
                          then {| heap := modify (heap w1) self
                                            (set_state "EVADE");
                                  projectiles := projectiles w1 |}
                          else w1) self)
                 = if c then "EVADE"%string else state (heap w1 self)).
  { destruct c; cbn [heap]; rewrite ?modify_same; repeat split. }
  destruct F as (F1 & F2 & F3). rewrite F1, F2, F3.
  assert (C : c = true <-> health (h self) < 30 /\ is_enemy (h self) = false).
  { subst c. rewrite andb_true_iff, Rltb_iff, negb_true_iff. tauto. }
  split; [| split; [| split; [| split]]].
  - intros Hw. apply C in Hw. now rewrite Hw.
  - intros Hw (e & He & Hl). destruct c; [exfalso; apply Hw, C; auto |].
    now apply (T1 e He Hl).
  - intros Hw Hn. destruct c; [exfalso; apply Hw, C; auto |].
    now apply (T2 (Dead Hn)).
  - intros (e & He & Hl). split; now apply (T1 e He Hl).
  - intros Hn. split; now apply (T2 (Dead Hn)).
Qed.

(** [handle_evade] goes back to PATROL exactly when there is no threat, and
    never touches the target. *)
Lemma handle_evade_state (h : Heap) (self : ref) (all_boids : list ref)
    (rnd : R * R) :
  let h' := handle_evade h self all_boids rnd in
  (threats h self all_boids = [] -> state (h' self) = "PATROL"%string)
  /\ (threats h self all_boids <> [] -> state (h' self) = state (h self))
  /\ target_enemy (h' self) = target_enemy (h self)
  /\ attacking (h' self) = attacking (h self).
Proof.
  intros h'. subst h'. unfold handle_evade.
  destruct (threats h self all_boids) as [| t0 rest].
  - destruct (Rltb 50 (health (h self))); rewrite modify_same;
      repeat split; intros H; now contradiction H.
  - rewrite modify_same. repeat split. intros H. discriminate.
Qed.

Lemma live_target_dec (h : Heap) (self : ref) :
  (exists e, target_enemy (h self) = Some e /\ 0 < health (h e))
  \/ ~ (exists e, target_enemy (h self) = Some e /\ 0 < health (h e)).
Proof.
  destruct (target_enemy (h self)) as [e |].
  - destruct (Rlt_dec 0 (health (h e))); [left; eauto |].
    right. intros (e' & He' & Hl). injection He' as <-. contradiction.
  - right. intros (e & He & _). discriminate.
Qed.

Lemma wounded_player_dec (h : Heap) (self : ref) :
  (health (h self) < 30 /\ is_enemy (h self) = false)
  \/ ~ (health (h self) < 30 /\ is_enemy (h self) = false).
Proof.
  destruct (Rlt_dec (health (h self)) 30), (is_enemy (h self)); auto;
    right; intros [? ?]; (contradiction || discriminate).
Qed.

(** The transitions of the behaviour step. *)
Lemma dispatch_state (w w2 : World) (self : ref) (all_boids : list ref)
    (squad_size : Z) (rnd : R * R) :
  dispatch w self all_boids squad_size rnd = Some w2 ->
  let h := heap w in
  let s := state (h self) in
  let s' := state (heap w2 self) in
  (s = "PATROL"%string -> s' = "PATROL"%string \/ s' = "ENGAGE"%string)
  /\ (s = "ENGAGE"%string ->
      s' = "ENGAGE"%string \/ s' = "PATROL"%string \/ s' = "EVADE"%string)
  /\ (s = "EVADE"%string -> s' = "EVADE"%string \/ s' = "PATROL"%string)
  /\ (s <> "PATROL"%string -> s <> "ENGAGE"%string ->
      s <> "EVADE"%string -> s' = s)
  /\ (s' = "EVADE"%string ->
      s = "EVADE"%string
      \/ (is_enemy (h self) = false /\ health (h self) < 30))
  /\ (s' = "ENGAGE"%string ->
      exists e, target_enemy (heap w2 self) = Some e /\ 0 < health (h e)).
Proof.
  intros E h s s'. subst s s'. unfold dispatch in E. fold h in E.
  destruct (String.eqb_spec (state (h self)) "PATROL") as [Hp | Hp].
  { destruct (handle_patrol h self all_boids squad_size) as [h1 |] eqn:Ep;
      [| discriminate].
    injection E as <-. cbn [heap].
    destruct (handle_patrol_state _ _ _ _ _ Ep)
      as [(S1 & _) | (S1 & _ & e & He & _ & Hd)]; rewrite S1, ?Hp.
    - repeat split; auto; try discriminate; congruence.
    - repeat split; auto; try discriminate; try congruence.
      intros _. exists e. split; [exact He | apply Hd]. }
  destruct (String.eqb_spec (state (h self)) "ENGAGE") as [He | He].
  { injection E as <-.
    destruct (handle_engage_state w self all_boids) as (A & B & C & D & _).
    cbv zeta in A, B, C, D. fold h in A, B, C, D.
    destruct (wounded_player_dec h self) as [Hw | Hw].
    - rewrite (A Hw). repeat split; auto; try discriminate; try congruence.
      intros _. right. tauto.
    - destruct (live_target_dec h self) as [Hl | Hl].
      + rewrite (B Hw Hl), He.
        repeat split; auto; try discriminate; try congruence.
        intros _. destruct Hl as (e & Ht & Hl). exists e.
        destruct (D (ex_intro _ e (conj Ht Hl))) as [-> _]. auto.
      + rewrite (C Hw Hl).
        repeat split; auto; try discriminate; congruence. }
  destruct (String.eqb_spec (state (h self)) "EVADE") as [Hv | Hv].
  { injection E as <-. cbn [heap].
    destruct (handle_evade_state h self all_boids rnd) as (A & B & _).
    cbv zeta in A, B.
    destruct (threats h self all_boids) as [| t0 rest] eqn:Et.
    - rewrite (A eq_refl).
      repeat split; auto; try discriminate; congruence.
    - rewrite B by discriminate. rewrite Hv.
      repeat split; auto; try discriminate; congruence. }
  injection E as <-. fold h.
  repeat split; auto; try congruence.
Qed.

(** X11: the state machine of an update.  From PATROL the agent stays or
    goes to ENGAGE; from ENGAGE it stays or goes to PATROL or EVADE; from
    EVADE it stays or goes to PATROL; any other state string is left alone.
    EVADE is entered only by a player agent with health below 30, so an
    enemy never starts to evade; a live agent that ends in ENGAGE has a
    target that was alive when the update began; and the state and the
    target of every other agent are untouched. *)
Theorem update_state_machine (w w' : World) (self : ref)
    (all_boids : list ref) (squad_size : Z) (rnd : R * R) :
  update w self all_boids squad_size rnd = Some w' ->
  let s := state (heap w self) in
  let s' := state (heap w' self) in
  (s = "PATROL"%string -> s' = "PATROL"%string \/ s' = "ENGAGE"%string)
  /\ (s = "ENGAGE"%string ->
      s' = "ENGAGE"%string \/ s' = "PATROL"%string \/ s' = "EVADE"%string)
  /\ (s = "EVADE"%string -> s' = "EVADE"%string \/ s' = "PATROL"%string)
  /\ (s <> "PATROL"%string -> s <> "ENGAGE"%string ->
      s <> "EVADE"%string -> s' = s)
  /\ (s' = "EVADE"%string ->
      s = "EVADE"%string
      \/ (is_enemy (heap w self) = false /\ health (heap w self) < 30))
  /\ (s' = "ENGAGE"%string -> 0 < health (heap w self) ->
      exists e, target_enemy (heap w' self) = Some e
                /\ 0 < health (heap w e))
  /\ (forall b, b <> self ->
                state (heap w' b) = state (heap w b)
                /\ target_enemy (heap w' b) = target_enemy (heap w b)).
Proof.
  intros E s s'. subst s s'.
  destruct (Rlt_dec 0 (health (heap w self))) as [Hlive | Hdead].
  2:{ unfold update in E. rewrite Rleb_true in E by lra.
      injection E as <-.
      repeat split; auto; try tauto. }
  destruct (update_decompose _ _ _ _ _ _ E Hlive)
    as (w2 & p & v & Eb & _ & Es & Eo).
  unfold update_behave in Eb.
  destruct (dispatch_state _ _ _ _ _ _ Eb) as (A & B & C & D & F & G).
  cbn [heap] in A, B, C, D, F, G. rewrite modify_same in A, B, C, D, F.
  destruct (tick_timers_keeps (heap w self))
    as (K1 & _ & K3 & _ & _ & K6 & _).
  rewrite K3 in A, B, C, D, F. rewrite K1, K6 in F.
  assert (S : state (heap w' self) = state (heap w2 self))
    by (rewrite Es; reflexivity).
  assert (T : target_enemy (heap w' self) = target_enemy (heap w2 self))
    by (rewrite Es; reflexivity).
  rewrite S, T.
  split; [exact A |]. split; [exact B |]. split; [exact C |].
  split; [exact D |]. split; [exact F |]. split.
  - intros H _. destruct (G H) as (e & He & Hl). exists e.
    split; [exact He |].
    rewrite (modify_proj health) in Hl; [exact Hl |].
    intros x. apply tick_timers_keeps.
  - intros b Hb. destruct (Eo b Hb) as [_ ->]. split; reflexivity.
Qed.

(** The patrolling leader of the targeting example sees the enemy 100 away
    and ends in ENGAGE with a live target. *)
Lemma update_state_machine_witness :
  exists w',
    update {| heap := skirmish; projectiles := [] |} 0 roster0 6 (0, 0)
    = Some w'
    /\ (state (heap w' 0%nat) = "PATROL"%string
        \/ state (heap w' 0%nat) = "ENGAGE"%string)
    /\ (state (heap w' 0%nat) = "EVADE"%string -> False)
    /\ state (heap w' 1%nat) = "PATROL"%string.
Proof.
  destruct (update_returns {| heap := skirmish; projectiles := [] |} 0
              roster0 6 (0, 0)) as [w' E]; [left; reflexivity |].
  exists w'. split; [exact E |].
  destruct (update_state_machine _ _ _ _ _ _ E) as (A & _ & _ & _ & F & _ & O).
  cbn in A, F. split; [exact (A eq_refl) |]. split.
  - intros H. destruct (F H) as [H' | [_ H']]; [discriminate | lra].
  - destruct (O 1%nat ltac:(discriminate)) as [-> _]. reflexivity.
Defined.

Lemma tick_opposing_live (h : Heap) (self b : ref) :
  opposing_live (modify h self tick_timers) self b = opposing_live h self b.
Proof.
  unfold opposing_live.
  rewrite !(modify_proj is_enemy), (modify_proj health);
    try reflexivity; intros x; apply tick_timers_keeps.
Qed.

(** X12: without a live agent of the other faction in the roster, an update
    of a live agent brings it to PATROL or keeps it there: from PATROL and
    from EVADE always, and from ENGAGE when its target is gone, unless it is
    a player agent with health below 30, which then goes to EVADE (and from
    there to PATROL at its next update). *)
Theorem update_calm (w w' : World) (self : ref) (all_boids : list ref)
    (squad_size : Z) (rnd : R * R) :
  update w self all_boids squad_size rnd = Some w' ->
  0 < health (heap w self) ->
  no_opposition (heap w) self all_boids ->
  let s := state (heap w self) in
  let s' := state (heap w' self) in
  (s = "PATROL"%string -> s' = "PATROL"%string)
  /\ (s = "EVADE"%string -> s' = "PATROL"%string)
  /\ (s = "ENGAGE"%string ->
      (forall e, target_enemy (heap w self) = Some e ->
                 health (heap w e) <= 0) ->
      target_enemy (heap w' self) = None
      /\ (health (heap w self) < 30 /\ is_enemy (heap w self) = false ->
          s' = "EVADE"%string)
      /\ (~ (health (heap w self) < 30 /\ is_enemy (heap w self) = false) ->
          s' = "PATROL"%string)).
Proof.
  intros E Hlive Hno s s'. subst s s'.
  destruct (update_decompose _ _ _ _ _ _ E Hlive)
    as (w2 & p & v & Eb & _ & Es & _).
  assert (S : state (heap w' self) = state (heap w2 self))
    by (rewrite Es; reflexivity).
  assert (T : target_enemy (heap w' self) = target_enemy (heap w2 self))
    by (rewrite Es; reflexivity).
  rewrite S, T. clear S T Es E.
  unfold update_behave, dispatch in Eb. cbn [heap projectiles] in Eb.
  set (h1 := modify (heap w) self tick_timers) in *.
  assert (S1 : h1 self = tick_timers (heap w self)) by apply modify_same.
  destruct (tick_timers_keeps (heap w self))
    as (K1 & _ & K3 & K4 & _ & K6 & _).
  assert (Hno1 : forall b, In b all_boids -> opposing_live h1 self b = false).
  { intros b Hb. subst h1. rewrite tick_opposing_live. now apply Hno. }
  rewrite S1, K3 in Eb.
  split; [| split].
  - intros Hs. rewrite Hs in Eb. cbn in Eb.
    destruct (handle_patrol h1 self all_boids squad_size) as [h2 |] eqn:Ep;
      [| discriminate].
    injection Eb as <-. cbn [heap].
    destruct (handle_patrol_state _ _ _ _ _ Ep)
      as [(A & _) | (_ & _ & e & _ & Hin & Hd)].
    + now rewrite A, S1, K3.
    + exfalso. apply detectableb_iff in Hd. unfold detectableb in Hd.
      rewrite (Hno1 e Hin) in Hd. discriminate.
  - intros Hs. rewrite Hs in Eb. cbn in Eb. injection Eb as <-. cbn [heap].
    destruct (handle_evade_state h1 self all_boids rnd) as (A & _).
    apply A. unfold threats.
    destruct (filter _ all_boids) as [| t0 rest] eqn:F; [reflexivity |].
    assert (Ht : In t0 (t0 :: rest)) by now left.
    rewrite <- F in Ht. apply filter_In in Ht. destruct Ht as [Hin Ht].
    rewrite (Hno1 t0 Hin) in Ht. discriminate.
  - intros Hs Hdead. rewrite Hs in Eb. cbn in Eb. injection Eb as <-.
    destruct (handle_engage_state {| heap := h1; projectiles := projectiles w |}
                self all_boids) as (A & _ & C & _ & F).
    cbv zeta in A, C, F. cbn [heap] in A, C, F.
    rewrite S1 in A, C, F. rewrite K1, K6 in A, C. rewrite K4 in C, F.
    assert (Hn : ~ (exists e, target_enemy (heap w self) = Some e
                              /\ 0 < health (h1 e))).
    { intros (e & He & Hl). specialize (Hdead e He).
      subst h1. rewrite (modify_proj health) in Hl; [lra |].
      intros x. apply tick_timers_keeps. }
    split; [apply F; exact Hn |]. split.
    + exact A.
    + intros Hw. now apply C.
Qed.

(** The wounded follower of the evasion example, alone in the roster, goes
    back to PATROL. *)
Lemma update_calm_witness :
  exists w',
    update {| heap := retreat; projectiles := [] |} 0 [0%nat] 6 (0, 0)
    = Some w'
    /\ state (heap w' 0%nat) = "PATROL"%string.
Proof.
  destruct (update_returns {| heap := retreat; projectiles := [] |} 0
              [0%nat] 6 (0, 0)) as [w' E]; [left; reflexivity |].
  exists w'. split; [exact E |].
  assert (Hlive : 0 < health (heap {| heap := retreat; projectiles := [] |}
                                   0%nat)) by (cbn; lra).
  assert (Hno : no_opposition retreat 0 [0%nat]).
  { intros b [<- | []]. reflexivity. }
  destruct (update_calm _ _ _ _ _ _ E Hlive Hno) as (_ & B & _).
  apply B. reflexivity.
Defined.

(** ** Evasion *)

(** The minimum-speed step on a velocity of speed [s]: kept when
    [s >= MAX_SPEED / 2]; divided by [s] and multiplied by MAX_SPEED / 2
    when [0 < s < MAX_SPEED / 2], which stretches each component and keeps
    its sign; and of speed MAX_SPEED / 2 or more, up to TOL, afterwards. *)
Lemma evade_min_speed_cases (v : vec) (rnd : R * R) :
  let s := hypot (fst v) (snd v) in
  let v' := evade_min_speed v rnd in
  (MAX_SPEED / 2 <= s -> v' = v)
  /\ (0 < s < MAX_SPEED / 2 ->
      v' = (fst v / s * (MAX_SPEED / 2), snd v / s * (MAX_SPEED / 2)))
  /\ (TOL <= s -> MAX_SPEED / 2 - TOL <= hypot (fst v') (snd v'))
  /\ (0 < s ->
      Rabs (fst v) <= Rabs (fst v') /\ Rabs (snd v) <= Rabs (snd v')
      /\ 0 <= fst v * fst v' /\ 0 <= snd v * snd v').
Proof.
  intros s v'. subst v'.
  assert (F : MAX_SPEED / 2 <= s -> evade_min_speed v rnd = v)
    by apply evade_min_speed_fast.
  assert (G : 0 < s < MAX_SPEED / 2 ->
              evade_min_speed v rnd
              = (fst v / s * (MAX_SPEED / 2), snd v / s * (MAX_SPEED / 2))).
  { intros [Hpos Hslow]. unfold evade_min_speed. fold s.
    now rewrite (Rltb_true _ _ Hslow), (Rltb_true _ _ Hpos). }
  split; [exact F |]. split; [exact G |]. split.
  - intros Hs. unfold TOL in *.
    destruct (Rlt_dec s (MAX_SPEED / 2)) as [Hslow | Hfast].
    + destruct (evade_min_speed_rescale v rnd) as [E _];
        [fold s; lra | exact Hslow |].
      cbv zeta in E. rewrite E. lra.
    + rewrite F by lra. fold s. lra.
  - intros Hpos.
    destruct (Rlt_dec s (MAX_SPEED / 2)) as [Hslow | Hfast].
    + rewrite G by lra. cbn [fst snd].
      set (k := MAX_SPEED / 2 / s).
      assert (Hk : 1 <= k).
      { unfold k. apply (Rmult_le_reg_r s); [exact Hpos |].
        replace (MAX_SPEED / 2 / s * s) with (MAX_SPEED / 2)
          by (field; lra).
        lra. }
      replace (fst v / s * (MAX_SPEED / 2)) with (k * fst v)
        by (unfold k; field; lra).
      replace (snd v / s * (MAX_SPEED / 2)) with (k * snd v)
        by (unfold k; field; lra).
      rewrite !Rabs_mult, (Rabs_pos_eq k) by lra.
      pose proof (Rabs_pos (fst v)). pose proof (Rabs_pos (snd v)).
      repeat split; nra.
    + rewrite F by lra. repeat split; try lra; nra.
Qed.

(** X13: when handle_evade finds a live agent of the other faction within
    1.5 times the detection range, it flees a nearest one: the velocity gets
    the boost 0.1 * (position - threat position); a boosted velocity of
    speed MAX_SPEED / 2 or more is kept, a slower one that is not zero is
    divided by its speed and multiplied by MAX_SPEED / 2, which stretches
    each component and keeps its sign; unless the boosted speed is below
    TOL the final speed is at least MAX_SPEED / 2, up to TOL; the state is
    kept. *)
Theorem handle_evade_flees (h : Heap) (self : ref) (all_boids : list ref)
    (rnd : R * R) :
  (exists b, In b all_boids /\ opposing_live h self b = true
             /\ distance (position (h self)) (position (h b))
                < detection_range (h self) * 1.5) ->
  exists t,
    In t all_boids /\ opposing_live h self t = true
    /\ (forall x, In x all_boids -> opposing_live h self x = true ->
                  distance (position (h self)) (position (h x))
                  < detection_range (h self) * 1.5 ->
                  distance (position (h self)) (position (h t))
                  <= distance (position (h self)) (position (h x)))
    /\ state (handle_evade h self all_boids rnd self) = state (h self)
    /\ let boosted :=
         (fst (velocity (h self))
          + (fst (position (h self)) - fst (position (h t))) * 0.1,
          snd (velocity (h self))
          + (snd (position (h self)) - snd (position (h t))) * 0.1) in
       let speed := hypot (fst boosted) (snd boosted) in
       let v' := velocity (handle_evade h self all_boids rnd self) in
       (MAX_SPEED / 2 <= speed -> v' = boosted)
       /\ (0 < speed < MAX_SPEED / 2 ->
           v' = (fst boosted / speed * (MAX_SPEED / 2),
                 snd boosted / speed * (MAX_SPEED / 2)))
       /\ (TOL <= speed -> MAX_SPEED / 2 - TOL <= hypot (fst v') (snd v'))
       /\ (0 < speed ->
           Rabs (fst boosted) <= Rabs (fst v')
           /\ Rabs (snd boosted) <= Rabs (snd v')
           /\ 0 <= fst boosted * fst v' /\ 0 <= snd boosted * snd v').
Proof.
  intros (b & Hin & Ho & Hd).
  set (key := fun x => distance (position (h self)) (position (h x))).
  assert (Hb : In b (threats h self all_boids)).
  { unfold threats. apply filter_In. split; [assumption |].
    rewrite Ho. cbn [andb]. now apply Rltb_iff. }
  unfold handle_evade.
  destruct (threats h self all_boids) as [| t0 rest] eqn:Et;
    [destruct Hb |].
  destruct (py_min_first key rest t0) as (l1 & l2 & Ed & H1 & H2).
  fold key. set (t := py_min key t0 rest) in *.
  assert (Ht : In t (threats h self all_boids))
    by (rewrite Et, Ed; apply in_or_app; right; now left).
  unfold threats in Ht. apply filter_In in Ht. destruct Ht as [Htin Htc].
  apply andb_true_iff in Htc. destruct Htc as [Hto _].
  exists t. split; [exact Htin |]. split; [exact Hto |]. split.
  { intros x Hx Hox Hdx.
    assert (Hxt : In x (t0 :: rest)).
    { rewrite <- Et. unfold threats. apply filter_In. split; [assumption |].
      rewrite Hox. cbn [andb]. now apply Rltb_iff. }
    rewrite Ed in Hxt. apply in_app_or in Hxt.
    destruct Hxt as [Hx1 | [<- | Hx2]].
    - left. exact (H1 x Hx1).
    - right. reflexivity.
    - exact (H2 x Hx2). }
  rewrite modify_same. split; [reflexivity |].
  cbv zeta. cbn [velocity set_velocity].
  exact (evade_min_speed_cases _ rnd).
Qed.

(** The wounded follower of the evasion example, moved to (165, 350): the
    boost away from the enemy at (150, 350) turns its velocity (-1, 0) into
    (0.5, 0), which is stretched to the speed MAX_SPEED / 2. *)
Lemma handle_evade_flees_witness :
  MAX_SPEED / 2 - TOL
  <= hypot
       (fst (velocity (handle_evade (modify retreat 0
                                       (set_position (165, 350)))
                         0 [0; 1]%nat (0, 0) 0%nat)))
       (snd (velocity (handle_evade (modify retreat 0
                                       (set_position (165, 350)))
                         0 [0; 1]%nat (0, 0) 0%nat)))
  /\ state (handle_evade (modify retreat 0 (set_position (165, 350)))
              0 [0; 1]%nat (0, 0) 0%nat) = "EVADE"%string.
Proof.
  set (h := modify retreat 0 (set_position (165, 350))).
  destruct (handle_evade_flees h 0 [0; 1]%nat (0, 0))
    as (t & A & B & _ & D & V).
  - exists 1%nat. split; [cbn; auto |]. split.
    + unfold opposing_live. cbn. rcmp. reflexivity.
    + cbn. rewrite distance_same_y. rabs. lra.
  - split; [| exact D].
    assert (T : t = 1%nat).
    { destruct A as [<- | [<- | []]]; [| reflexivity].
      unfold opposing_live in B. cbn in B. discriminate. }
    subst t. cbv zeta in V. destruct V as (_ & _ & V & _).
    apply V. cbn.
    replace (-1 + (165 - 150) * 0.1) with 0.5 by lra.
    replace (0 + (350 - 350) * 0.1) with 0 by lra.
    rewrite hypot_x_0_abs. rabs. unfold TOL. lra.
Defined.

(** ** What an update does to the other agents *)

Lemma heal_fold_full (self : ref) (l : list ref) (h : Heap) (b : ref) :
  100 <= health (h b) -> fold_left (heal_one self) l h b = h b.
Proof.
  revert h; induction l as [| a l IH]; intros h Hb; cbn [fold_left];
    [reflexivity |].
  assert (E : heal_one self h a b = h b).
  { rewrite heal_one_eq. destruct (Nat.eqb_spec b a) as [-> | _];
      [| now rewrite andb_false_r].
    unfold heal_due. rewrite (Rltb_false (health (h a)) 100) by lra.
    now rewrite andb_false_r. }
  rewrite IH; [exact E | now rewrite E].
Qed.

(** The effect of an update on the health of the agent and on the other
    agents. *)
Lemma update_others_agent (w w' : World) (self : ref)
    (all_boids : list ref) (squad_size : Z) (rnd : R * R) :
  update w self all_boids squad_size rnd = Some w' ->
  health (heap w' self) = health (heap w self)
  /\ forall b, b <> self ->
       heap w' b = set_health (health (heap w' b)) (heap w b)
       /\ health (heap w b) <= health (heap w' b)
       /\ (health (heap w self) <= 0 \/ is_medic (heap w self) = false
           \/ ~ In b all_boids \/ is_enemy (heap w b) = true
           \/ squad_id (heap w b) <> squad_id (heap w self)
           \/ 100 <= health (heap w b) ->
           heap w' b = heap w b).
Proof.
  intros E.
  destruct (Rlt_dec 0 (health (heap w self))) as [Hlive | Hdead].
  2:{ unfold update in E. rewrite Rleb_true in E by lra.
      injection E as <-. split; [reflexivity |].
      intros b _. split; [apply boid_eta |]. split; [lra | reflexivity]. }
  pose proof (fun b => update_health_mono _ _ _ _ _ _ b E) as Hmono.
  destruct (update_decompose _ _ _ _ _ _ E Hlive)
    as (w2 & p & v & Eb & _ & Es & Eo).
  unfold update in E. rewrite (Rleb_false _ _ Hlive) in E.
  destruct (update_motion w self all_boids squad_size rnd) as [w5 |] eqn:Em;
    [| discriminate].
  injection E as <-. cbn [heap] in *.
  destruct (update_motion_inv _ _ _ _ _ _ Em)
    as (h4 & v4 & [Ho4 Hs4] & _ & E5).
  destruct Hs4 as (_ & S1 & S2 & _ & S4 & _).
  split.
  - rewrite heal_ally_self, E5, modify_same. cbn. exact S1.
  - intros b Hb. destruct (Eo b Hb) as [_ Ew]. split; [exact Ew |].
    split; [apply Hmono |].
    assert (E5b : heap w5 b = heap w b)
      by (rewrite E5, modify_other by assumption; now apply Ho4).
    assert (M5 : is_medic (heap w5 self) = is_medic (heap w self))
      by (rewrite E5, modify_same; cbn; exact S4).
    assert (Q5 : squad_id (heap w5 self) = squad_id (heap w self))
      by (rewrite E5, modify_same; cbn; exact S2).
    intros [H | [H | [H | [H | [H | H]]]]].
    + lra.
    + unfold heal_ally. rewrite M5, H. exact E5b.
    + now rewrite heal_ally_outside.
    + unfold heal_ally. destruct (is_medic (heap w5 self)); [| exact E5b].
      rewrite heal_fold_notin; [exact E5b |].
      intros Hin. apply filter_In in Hin. destruct Hin as [_ Hc].
      rewrite E5b, H in Hc. cbn in Hc. rewrite andb_false_r in Hc.
      discriminate.
    + unfold heal_ally. destruct (is_medic (heap w5 self)); [| exact E5b].
      rewrite heal_fold_notin; [exact E5b |].
      intros Hin. apply filter_In in Hin. destruct Hin as [_ Hc].
      rewrite E5b, Q5 in Hc. apply Z.eqb_neq in H. rewrite H in Hc.
      discriminate.
    + unfold heal_ally. destruct (is_medic (heap w5 self)); [| exact E5b].
      rewrite heal_fold_full; [exact E5b | now rewrite E5b].
Qed.

(** X14: the only thing an update does to another agent is healing: every
    attribute of another agent but its health is kept and its health does
    not decrease; the agent's own health is kept; and another agent is not
    touched at all when the updating agent is dead or no medic, or when the
    other agent is not in the roster, is an enemy, belongs to another
    squad, or has health 100 or more. *)
Theorem update_others (w w' : World) (self : ref) (all_boids : list ref)
    (squad_size : Z) (rnd : R * R) :
  update w self all_boids squad_size rnd = Some w' ->
  health (heap w' self) = health (heap w self)
  /\ forall b, b <> self ->
       heap w' b = set_health (health (heap w' b)) (heap w b)
       /\ health (heap w b) <= health (heap w' b)
       /\ (health (heap w self) <= 0 \/ is_medic (heap w self) = false
           \/ ~ In b all_boids \/ is_enemy (heap w b) = true
           \/ squad_id (heap w b) <> squad_id (heap w self)
           \/ 100 <= health (heap w b) ->
           heap w' b = heap w b).
Proof. apply update_others_agent. Qed.

(** The medic of the healing example does not touch the enemy, and its own
    health stays 100. *)
Lemma update_others_witness :
  exists w',
    update {| heap := wounded; projectiles := [] |} 1 roster0 6 (0, 0)
    = Some w'
    /\ health (heap w' 1%nat) = 100
    /\ heap w' 3%nat = wounded 3%nat.
Proof.
  destruct (update_returns {| heap := wounded; projectiles := [] |} 1
              roster0 6 (0, 0)) as [w' E]; [left; reflexivity |].
  exists w'. split; [exact E |].
  destruct (update_others _ _ _ _ _ _ E) as [A B].
  split; [exact A |].
  destruct (B 3%nat ltac:(discriminate)) as (_ & _ & C).
  apply C. right. right. right. left. reflexivity.
Defined.

(** ** Invariants of the frames *)

Section FrameRelation.

(** A relation between the earlier and the later record of an agent that
    every update and every projectile update respects. *)
Variable Q : Boid -> Boid -> Prop.
Hypothesis Q_refl : forall x, Q x x.
Hypothesis Q_trans : forall x y z, Q x y -> Q y z -> Q x z.
Hypothesis Q_update :
  forall w w' self all_boids squad_size rnd b,
    update w self all_boids squad_size rnd = Some w' ->
    Q (heap w b) (heap w' b).
Hypothesis Q_projectile :
  forall h p b, Q (h b) (fst (Projectile.update h p) b).

Lemma update_each_rel (todo : list ref) (w w' : World)
    (all_boids : list ref) (rnds : list (R * R)) (b : ref) :
  update_each w todo all_boids rnds = Some w' -> Q (heap w b) (heap w' b).
Proof.
  revert w rnds; induction todo as [| a todo IH]; intros w rnds E;
    cbn in E.
  - injection E as <-. apply Q_refl.
  - destruct (update w a all_boids BOIDS_PER_SQUAD (hd (0, 0) rnds))
      as [w1 |] eqn:Eu; [| discriminate].
    eapply Q_trans; [eapply Q_update; exact Eu | eapply IH; exact E].
Qed.

Lemma projectile_pass_rel (ps : list Projectile.t) (h : Heap) (b : ref) :
  Q (h b) (fst (projectile_pass h ps) b).
Proof.
  revert h; induction ps as [| p ps IH]; intros h; [apply Q_refl |].
  rewrite projectile_pass_cons.
  eapply Q_trans; [apply Q_projectile | apply IH].
Qed.

Lemma frame_rel (g g' : Game) (rnds : list (R * R)) (b : ref) :
  frame g rnds = Some g' ->
  Q (heap (world g) b) (heap (world g') b).
Proof.
  unfold frame, boid_pass. cbn [heap projectiles]. intros E.
  destruct (update_each _ _ _ rnds) as [w1 |] eqn:Ep; [| discriminate].
  pose proof (projectile_pass_rel (projectiles w1) (heap w1) b) as Hp.
  destruct (projectile_pass (heap w1) (projectiles w1)) as [h2 ps2].
  injection E as <-. cbn [world heap fst] in *.
  eapply Q_trans; [| exact Hp].
  exact (update_each_rel _ _ _ _ _ b Ep).
Qed.

Lemma frames_rel (rnds : list (list (R * R))) (g g' : Game) (b : ref) :
  frames g rnds = Some g' ->
  Q (heap (world g) b) (heap (world g') b).
Proof.
  revert g; induction rnds as [| r rnds IH]; intros g E; cbn in E.
  - injection E as <-. apply Q_refl.
  - destruct (frame g r) as [g1 |] eqn:Ef; [| discriminate].
    eapply Q_trans; [eapply frame_rel; exact Ef | apply IH; exact E].
Qed.

End FrameRelation.

Lemma heal_fold_le_100 (self : ref) (l : list ref) (h : Heap) (b : ref) :
  health (h b) <= 100 -> health (fold_left (heal_one self) l h b) <= 100.
Proof.
  revert h; induction l as [| a l IH]; intros h Hb; cbn [fold_left];
    [exact Hb |].
  apply IH. rewrite heal_one_eq.
  destruct (heal_due h self a && Nat.eqb b a); [| exact Hb].
  rewrite health_healed. apply Rmin_r.
Qed.

Lemma update_health_le_100 (w w' : World) (self : ref)
    (all_boids : list ref) (squad_size : Z) (rnd : R * R) (b : ref) :
  update w self all_boids squad_size rnd = Some w' ->
  health (heap w b) <= 100 -> health (heap w' b) <= 100.
Proof.
  intros E Hb.
  destruct (Nat.eq_dec b self) as [-> | Hne].
  - destruct (update_others_agent _ _ _ _ _ _ E) as [-> _]. exact Hb.
  - unfold update in E. destruct (Rleb _ _); [now injection E as <- |].
    destruct (update_motion w self all_boids squad_size rnd) as [w5 |] eqn:Em;
      [| discriminate].
    injection E as <-. cbn [heap].
    destruct (update_motion_inv _ _ _ _ _ _ Em)
      as (h4 & v4 & [Ho4 _] & _ & E5).
    assert (E5b : heap w5 b = heap w b)
      by (rewrite E5, modify_other by assumption; now apply Ho4).
    unfold heal_ally. destruct (is_medic _); [| now rewrite E5b].
    apply heal_fold_le_100. now rewrite E5b.
Qed.

Lemma update_role (w w' : World) (self : ref) (all_boids : list ref)
    (squad_size : Z) (rnd : R * R) (b : ref) :
  update w self all_boids squad_size rnd = Some w' ->
  role (heap w' b) = role (heap w b).
Proof.
  intros E. unfold update in E.
  destruct (Rleb _ _); [now injection E as <- |].
  destruct (update_motion w self all_boids squad_size rnd) as [w5 |] eqn:Em;
    [| discriminate].
  injection E as <-. cbn [heap].
  destruct (update_motion_inv _ _ _ _ _ _ Em)
    as (h4 & v4 & [Ho4 Hs4] & _ & E5).
  rewrite heal_ally_frame. unfold role at 1.
  cbn [squad_id is_leader is_medic is_enemy index_in_squad firing_range
       detection_range set_health].
  rewrite E5. destruct (Nat.eq_dec b self) as [-> | Hne].
  - rewrite modify_same. unfold integrate.
    cbn [squad_id is_leader is_medic is_enemy index_in_squad firing_range
         detection_range set_position].
    destruct Hs4 as (_ & _ & -> & -> & -> & -> & -> & -> & -> & _).
    reflexivity.
  - rewrite modify_other by assumption. now rewrite Ho4.
Qed.

Lemma projectile_update_role (h : Heap) (p : Projectile.t) (b : ref) :
  role (fst (Projectile.update h p) b) = role (h b).
Proof.
  destruct (projectile_update_frame h p b) as [-> | (_ & _ & _ & ->)];
    reflexivity.
Qed.

Lemma projectile_update_le_100 (h : Heap) (p : Projectile.t) (b : ref) :
  health (h b) <= 100 -> health (fst (Projectile.update h p) b) <= 100.
Proof.
  destruct (projectile_update_frame h p b) as [-> | (_ & _ & _ & ->)];
    cbn [health set_health]; lra.
Qed.

(** An update leaves an agent outside the roster alone. *)
Lemma update_outside (w w' : World) (self : ref) (all_boids : list ref)
    (squad_size : Z) (rnd : R * R) (b : ref) :
  update w self all_boids squad_size rnd = Some w' ->
  b <> self -> ~ In b all_boids -> heap w' b = heap w b.
Proof.
  intros E Hb Hnin.
  destruct (update_others_agent _ _ _ _ _ _ E) as [_ A].
  destruct (A b Hb) as (_ & _ & C). apply C. tauto.
Qed.

Lemma update_each_outside (todo : list ref) (w w' : World)
    (all_boids : list ref) (rnds : list (R * R)) (b : ref) :
  (forall a, In a todo -> In a all_boids) ->
  update_each w todo all_boids rnds = Some w' ->
  ~ In b all_boids -> heap w' b = heap w b.
Proof.
  revert w rnds; induction todo as [| a todo IH]; intros w rnds Hsub E Hnin;
    cbn in E.
  - now injection E as <-.
  - destruct (update w a all_boids BOIDS_PER_SQUAD (hd (0, 0) rnds))
      as [w1 |] eqn:Eu; [| discriminate].
    rewrite (IH w1 (tl rnds)); [| | exact E | exact Hnin].
    + apply (update_outside _ _ _ _ _ _ b Eu); [| exact Hnin].
      intros ->. apply Hnin, Hsub. now left.
    + intros x Hx. apply Hsub. now right.
Qed.

(** A frame does not touch an agent that is dead when it starts, and does
    not keep it in the roster. *)
Lemma frame_dead (g g' : Game) (rnds : list (R * R)) (b : ref) :
  frame g rnds = Some g' ->
  health (heap (world g) b) <= 0 ->
  heap (world g') b = heap (world g) b /\ ~ In b (boids g').
Proof.
  unfold frame, boid_pass. cbn [heap projectiles]. intros E Hd.
  destruct (update_each _ _ _ rnds) as [w1 |] eqn:Ep; [| discriminate].
  destruct (projectile_pass_agent (projectiles w1) (heap w1) b)
    as (_ & _ & Hp & _).
  cbv zeta in Hp.
  destruct (projectile_pass (heap w1) (projectiles w1)) as [h2 ps2].
  injection E as <-. cbn [world heap boids fst] in *.
  assert (Hnin : ~ In b (live_roster (heap (world g)) (boids g))).
  { intros H. apply live_roster_alive in H. lra. }
  assert (E1 : heap w1 b = heap (world g) b).
  { apply (update_each_outside _ _ _ _ _ b (fun a Ha => Ha) Ep Hnin). }
  split; [| exact Hnin].
  rewrite Hp; [exact E1 | left; now rewrite E1].
Qed.

Lemma frames_dead (rnds : list (list (R * R))) (g g' : Game) (b : ref) :
  frames g rnds = Some g' ->
  health (heap (world g) b) <= 0 ->
  heap (world g') b = heap (world g) b
  /\ (rnds <> [] -> ~ In b (boids g')).
Proof.
  revert g; induction rnds as [| r rnds IH]; intros g E Hd; cbn in E.
  - injection E as <-. split; [reflexivity | intros H; now contradiction H].
  - destruct (frame g r) as [g1 |] eqn:Ef; [| discriminate].
    destruct (frame_dead _ _ _ b Ef Hd) as [E1 N1].
    destruct (IH g1 E ltac:(now rewrite E1)) as [E2 N2].
    split; [now rewrite E2 |].
    intros _. destruct rnds as [| r' rnds'].
    + cbn in E. now injection E as <-.
    + apply N2. discriminate.
Qed.

(** X15: over any number of frames, an agent whose health is at most 100
    keeps a health of at most 100; an agent that is dead (health <= 0) when
    the frames start is never touched again and is in no later roster; and
    the roster after at least one frame holds only agents of the earlier
    roster that were alive at the start. *)
Theorem frames_health (rnds : list (list (R * R))) (g g' : Game)
    (b : ref) :
  frames g rnds = Some g' ->
  (health (heap (world g) b) <= 100 -> health (heap (world g') b) <= 100)
  /\ (health (heap (world g) b) <= 0 ->
      heap (world g') b = heap (world g) b)
  /\ (rnds <> [] -> In b (boids g') ->
      In b (boids g) /\ 0 < health (heap (world g) b)).
Proof.
  intros E. split; [| split].
  - apply (frames_rel (fun x y => health x <= 100 -> health y <= 100))
      with (rnds := rnds); auto.
    + intros w w' self all_boids squad_size rnd b0 Eu.
      now apply (update_health_le_100 _ _ _ _ _ _ b0 Eu).
    + intros h p b0. apply projectile_update_le_100.
  - intros Hd. now apply (frames_dead rnds g g' b E Hd).
  - intros Hne Hin. split.
    + clear Hne. revert g E. induction rnds as [| r rnds IH]; intros g E;
        cbn in E.
      * now injection E as <-.
      * destruct (frame g r) as [g1 |] eqn:Ef; [| discriminate].
        specialize (IH g1 E).
        unfold frame, boid_pass in Ef. cbn [heap projectiles] in Ef.
        destruct (update_each _ _ _ r) as [w1 |]; [| discriminate].
        destruct (projectile_pass (heap w1) (projectiles w1)).
        injection Ef as <-. cbn [boids] in IH.
        now apply live_roster_In in IH.
    + destruct (Rlt_dec 0 (health (heap (world g) b))) as [H | H];
        [exact H |].
      exfalso.
      destruct (frames_dead rnds g g' b E ltac:(lra)) as [_ N].
      now apply (N Hne).
Qed.

(** After one frame the dead follower of the example is as it was and the
    leader's health is still at most 100. *)
Lemma frames_health_witness :
  exists g',
    frames (game0 fallen) [[]] = Some g'
    /\ health (heap (world g') 0%nat) <= 100
    /\ heap (world g') 2%nat = fallen 2%nat.
Proof.
  assert (V : forall b, wp_valid (heap (world (game0 fallen)) b)).
  { intros b. left. destruct b as [| [| [| b]]]; reflexivity. }
  destruct (frames_returns [[]] (game0 fallen) V) as [g' E].
  exists g'. split; [exact E |].
  split.
  - destruct (frames_health [[]] (game0 fallen) g' 0 E) as (A & _).
    apply A. cbn. lra.
  - destruct (frames_health [[]] (game0 fallen) g' 2 E) as (_ & B & _).
    apply B. cbn. lra.
Defined.

(** ** The left-click handler *)

Lemma eq_except_shield_trans (a b c : Boid) :
  eq_except_shield a b -> eq_except_shield b c -> eq_except_shield a c.
Proof.
  unfold eq_except_shield. intros HA HB.
  repeat match goal with
         | H : _ /\ _ |- _ => destruct H
         end.
  repeat split; congruence.
Qed.

Lemma apply_shield_eq_except (h : Heap) (self : ref) (all_boids : list ref)
    (b : ref) :
  eq_except_shield (h b) (apply_shield h self all_boids b).
Proof.
  unfold apply_shield. destruct (_ && _);
    [| unfold eq_except_shield; repeat split].
  destruct (Nat.eq_dec b self) as [-> | Hne].
  - rewrite modify_same, fold_shield_one.
    destruct (existsb _ _); unfold eq_except_shield; repeat split.
  - rewrite modify_other by assumption. rewrite fold_shield_one.
    destruct (existsb _ _); unfold eq_except_shield; repeat split.
Qed.

Lemma eq_except_shield_clicked (h h' : Heap) (click : vec) (b : ref) :
  eq_except_shield (h b) (h' b) -> clicked h' click b = clicked h click b.
Proof.
  unfold eq_except_shield, clicked. intros H.
  repeat match goal with
         | H : _ /\ _ |- _ => destruct H
         end.
  congruence.
Qed.

Lemma eq_except_shield_member (h h' : Heap) (l f : ref) :
  (forall x, eq_except_shield (h x) (h' x)) ->
  shield_member h' l f = shield_member h l f.
Proof.
  unfold shield_member. intros H.
  pose proof (H l) as Hl. pose proof (H f) as Hf.
  unfold eq_except_shield in Hl, Hf.
  repeat match goal with
         | H : _ /\ _ |- _ => destruct H
         end.
  congruence.
Qed.

(** One iteration of the click loop. *)
Lemma shield_click_one_spec (click : vec) (all_boids : list ref)
    (h : Heap) (ps : list Ping.t) (b : ref) :
  let r := shield_click_one click all_boids (h, ps) b in
  snd r = ps ++ (if clicked h click b then [Ping.init (position (h b))]
                 else [])
  /\ fst r = if clicked h click b then apply_shield h b all_boids else h.
Proof.
  unfold shield_click_one, clicked. cbn [fst snd].
  destruct (_ && _); cbn [fst snd].
  - split; [| reflexivity]. f_equal. f_equal. f_equal.
    destruct (apply_shield_eq_except h b all_boids b) as (-> & _).
    reflexivity.
  - now rewrite app_nil_r.
Qed.

Lemma eq_except_shield_refl (b : Boid) : eq_except_shield b b.
Proof. unfold eq_except_shield. repeat split. Qed.

Lemma clicked_leader (h : Heap) (click : vec) (b : ref) :
  clicked h click b = true ->
  is_leader (h b) = true /\ is_enemy (h b) = false.
Proof.
  unfold clicked. intros H.
  apply andb_prop in H. destruct H as [H _].
  apply andb_prop in H. destruct H as [H1 H2].
  split; [exact H1 | now destruct (is_enemy (h b))].
Qed.

(** What one iteration of the click loop does to the shield attributes of a
    leader and of a follower. *)
Lemma shield_click_one_state (click : vec) (all_boids : list ref)
    (h : Heap) (ps : list Ping.t) (b : ref) :
  let h1 := fst (shield_click_one click all_boids (h, ps) b) in
  (forall x, eq_except_shield (h x) (h1 x))
  /\ (forall l, is_leader (h l) = true ->
        shield_state (h1 l)
        = if Nat.eqb l b && clicked h click b
             && (shield_timer (h b) <=? 0)%Z
          then (shielded (h l), 600%Z) else shield_state (h l))
  /\ (forall f, is_leader (h f) = false ->
        shield_state (h1 f)
        = if clicked h click b && (shield_timer (h b) <=? 0)%Z
             && existsb (Nat.eqb f) (filter (shield_member h b) all_boids)
          then (true, 180%Z) else shield_state (h f)).
Proof.
  intros h1.
  destruct (shield_click_one_spec click all_boids h ps b) as [_ E].
  fold h1 in E.
  destruct (clicked h click b) eqn:Ec.
  2:{ rewrite E. split; [intros x; apply eq_except_shield_refl |].
      split; [intros l _; now rewrite andb_false_r | intros f _; reflexivity]. }
  destruct (clicked_leader _ _ _ Ec) as [Hl He].
  split; [intros x; rewrite E; apply apply_shield_eq_except |].
  destruct (Z.leb_spec (shield_timer (h b)) 0) as [Ht | Ht].
  - split.
    + intros l Hll. rewrite E, apply_shield_active by assumption.
      rewrite andb_true_r.
      destruct (Nat.eqb_spec l b) as [-> | Hne]; [reflexivity |].
      destruct (existsb _ _) eqn:Ex; [| reflexivity].
      apply existsb_eqb_In, filter_In in Ex. destruct Ex as [_ Ex].
      unfold shield_member in Ex. rewrite Hll in Ex.
      rewrite andb_false_r in Ex. discriminate.
    + intros f Hf. rewrite E, apply_shield_active by assumption.
      destruct (Nat.eqb_spec f b) as [-> | Hne]; [congruence |].
      cbn [andb]. now destruct (existsb _ _).
  - rewrite E, apply_shield_inactive by (left; lia).
    split; [intros l _; now rewrite andb_false_r | intros f _; reflexivity].
Qed.

Lemma eq_except_shield_leader (h h' : Heap) (b : ref) :
  eq_except_shield (h b) (h' b) -> is_leader (h' b) = is_leader (h b).
Proof. unfold eq_except_shield. tauto. Qed.

Lemma eq_except_shield_position (h h' : Heap) (b : ref) :
  eq_except_shield (h b) (h' b) -> position (h' b) = position (h b).
Proof. unfold eq_except_shield. tauto. Qed.

(** The click loop from any point on. *)
Lemma shield_click_fold (click : vec) (all_boids todo : list ref)
    (h : Heap) (ps : list Ping.t) :
  let r := fold_left (shield_click_one click all_boids) todo (h, ps) in
  snd r = ps ++ map (fun b => Ping.init (position (h b)))
                    (filter (clicked h click) todo)
  /\ (forall x, eq_except_shield (h x) (fst r x))
  /\ (forall l, is_leader (h l) = true ->
        shield_state (fst r l)
        = if existsb (Nat.eqb l) todo && clicked h click l
             && (shield_timer (h l) <=? 0)%Z
          then (shielded (h l), 600%Z) else shield_state (h l))
  /\ (forall f, is_leader (h f) = false ->
        (shield_state (fst r f) = shield_state (h f)
         \/ shield_state (fst r f) = (true, 180%Z))
        /\ (forall l, In l todo -> clicked h click l = true ->
              (shield_timer (h l) <= 0)%Z -> In f all_boids ->
              shield_member h l f = true ->
              shield_state (fst r f) = (true, 180%Z))).
Proof.
  revert h ps; induction todo as [| b todo IH]; intros h ps;
    cbn [fold_left].
  - cbn. rewrite app_nil_r. split; [reflexivity |].
    split; [intros x; apply eq_except_shield_refl |].
    split; [intros l _; reflexivity |].
    intros f _. split; [now left | intros l []].
  - destruct (shield_click_one_spec click all_boids h ps b) as [Ep _].
    destruct (shield_click_one_state click all_boids h ps b)
      as (S1 & S2 & S3).
    destruct (shield_click_one click all_boids (h, ps) b) as [h1 ps1] eqn:Es.
    cbn [fst snd] in *.
    specialize (IH h1 ps1). cbv zeta in IH.
    destruct IH as (I0 & I1 & I2 & I3).
    set (r := fold_left (shield_click_one click all_boids) todo (h1, ps1))
      in *.
    assert (Ck : forall x, clicked h1 click x = clicked h click x)
      by (intros x; apply eq_except_shield_clicked, S1).
    assert (Mb : forall l f, shield_member h1 l f = shield_member h l f)
      by (intros l f; now apply eq_except_shield_member).
    split; [| split; [| split]].
    + rewrite I0, Ep, <- app_assoc. f_equal.
      rewrite (filter_ext _ _ Ck).
      rewrite (map_ext (fun b0 => Ping.init (position (h1 b0)))
                 (fun b0 => Ping.init (position (h b0))))
        by (intros x; now rewrite (eq_except_shield_position h h1 x)).
      cbn [filter]. now destruct (clicked h click b).
    + intros x. eapply eq_except_shield_trans; [apply S1 | apply I1].
    + intros l Hl.
      assert (Hl1 : is_leader (h1 l) = true)
        by (now rewrite (eq_except_shield_leader h h1 l)).
      rewrite (I2 l Hl1), Ck. cbn [existsb].
      pose proof (S2 l Hl) as E1.
      destruct (Nat.eqb_spec l b) as [-> | Hne].
      * cbn [orb andb] in *.
        destruct (clicked h click b); cbn [andb] in *.
        -- destruct (Z.leb_spec (shield_timer (h b)) 0) as [Ht | Ht].
           ++ unfold shield_state in E1. injection E1 as E1 E2.
              rewrite E2. cbn. rewrite andb_false_r.
              unfold shield_state. now rewrite E1, E2.
           ++ unfold shield_state in E1. injection E1 as E1 E2.
              rewrite E2.
              destruct (Z.leb_spec (shield_timer (h b)) 0); [lia |].
              rewrite andb_false_r. unfold shield_state.
              now rewrite E1, E2.
        -- rewrite andb_false_r. exact E1.
      * cbn [orb andb] in *.
        unfold shield_state in E1. injection E1 as E1 E2.
        rewrite E2. unfold shield_state. now rewrite E1, E2.
    + intros f Hf.
      assert (Hf1 : is_leader (h1 f) = false)
        by (now rewrite (eq_except_shield_leader h h1 f)).
      destruct (I3 f Hf1) as [J1 J2].
      pose proof (S3 f Hf) as E1.
      split.
      * destruct (_ && _) in E1; destruct J1 as [J1 | J1];
          rewrite J1; rewrite ?E1; tauto.
      * intros l [<- | Hin] Hc Ht Hfa Hm.
        -- rewrite Hc in E1.
           destruct (Z.leb_spec (shield_timer (h b)) 0); [| lia].
           cbn [andb] in E1.
           assert (Ex : existsb (Nat.eqb f)
                          (filter (shield_member h b) all_boids) = true)
             by (apply existsb_eqb_In, filter_In; now split).
           rewrite Ex in E1. destruct J1 as [J1 | J1]; congruence.
        -- destruct (clicked_leader _ _ _ Hc) as [Hll _].
           pose proof (S2 l Hll) as E2.
           destruct (Nat.eqb_spec l b) as [-> | Hne].
           ++ rewrite Hc in E1.
              destruct (Z.leb_spec (shield_timer (h b)) 0); [| lia].
              cbn [andb] in E1.
              assert (Ex : existsb (Nat.eqb f)
                             (filter (shield_member h b) all_boids) = true)
                by (apply existsb_eqb_In, filter_In; now split).
              rewrite Ex in E1. destruct J1 as [J1 | J1]; congruence.
           ++ cbn [andb] in E2. unfold shield_state in E2.
              injection E2 as _ E2.
              apply (J2 l Hin); [now rewrite Ck | lia | assumption |].
              now rewrite Mb.
Qed.

(** X16: a left click emits one ping per player leader of the roster
    strictly within 2 * BOID_RADIUS of it, at the leader's position and in
    roster order, whether or not that leader's shield was ready; it changes
    no attribute of any agent but [shielded] and [shield_timer], and leaves
    the roster and the projectiles alone.  A clicked leader whose timer was
    at most 0 ends with timer 600 and its own [shielded] flag as before, and
    every follower of its squad in the roster ends shielded with timer 180; a
    leader that was not clicked, or was on cooldown, keeps its shield
    attributes; a follower keeps them or ends shielded with timer 180. *)
Theorem shield_click_spec (g : Game) (click : vec) :
  let h := heap (world g) in
  let g' := shield_click g click in
  boids g' = boids g
  /\ projectiles (world g') = projectiles (world g)
  /\ pings g' = pings g ++ map (fun b => Ping.init (position (h b)))
                             (filter (clicked h click) (boids g))
  /\ (forall x, eq_except_shield (h x) (heap (world g') x))
  /\ (forall l, In l (boids g) -> clicked h click l = true ->
        (shield_timer (h l) <= 0)%Z ->
        shield_state (heap (world g') l) = (shielded (h l), 600%Z)
        /\ forall f, In f (boids g) -> shield_member h l f = true ->
             shield_state (heap (world g') f) = (true, 180%Z))
  /\ (forall l, is_leader (h l) = true ->
        ~ In l (boids g) \/ clicked h click l = false
        \/ (0 < shield_timer (h l))%Z ->
        shield_state (heap (world g') l) = shield_state (h l))
  /\ (forall f, is_leader (h f) = false ->
        shield_state (heap (world g') f) = shield_state (h f)
        \/ shield_state (heap (world g') f) = (true, 180%Z)).
Proof.
  intros h g'.
  destruct (shield_click_fold click (boids g) (boids g) h (pings g))
    as (F0 & F1 & F2 & F3).
  unfold g', shield_click. fold h. cbn [boids world pings heap projectiles].
  split; [reflexivity |]. split; [reflexivity |].
  split; [exact F0 |]. split; [exact F1 |].
  split; [| split].
  - intros l Hin Hc Ht.
    destruct (clicked_leader _ _ _ Hc) as [Hl _].
    split.
    + rewrite (F2 l Hl), Hc.
      apply existsb_eqb_In in Hin. rewrite Hin.
      apply Z.leb_le in Ht. now rewrite Ht.
    + intros f Hf Hm.
      assert (Hfl : is_leader (h f) = false).
      { unfold shield_member in Hm.
        apply andb_prop in Hm. destruct Hm as [Hm _].
        apply andb_prop in Hm. destruct Hm as [_ Hm].
        now destruct (is_leader (h f)). }
      destruct (F3 f Hfl) as [_ J]. now apply (J l).
  - intros l Hl H. rewrite (F2 l Hl).
    destruct H as [H | [H | H]].
    + destruct (existsb (Nat.eqb l) (boids g)) eqn:Ex; [| reflexivity].
      apply existsb_eqb_In in Ex. contradiction.
    + rewrite H. now rewrite andb_false_r.
    + apply Z.leb_gt in H. rewrite H. now rewrite andb_false_r.
  - intros f Hf. apply (F3 f Hf).
Qed.

(** A click 5 units off the leader of the example squad: one ping, the
    leader's timer at 600, its second follower shielded for 180 frames, and
    the enemy leader as before. *)
Lemma shield_click_spec_witness :
  pings (shield_click (game0 squad0) (155, 350)) = [Ping.init (150, 350)]
  /\ shield_state (heap (world (shield_click (game0 squad0) (155, 350)))
                     0%nat) = (false, 600%Z)
  /\ shield_state (heap (world (shield_click (game0 squad0) (155, 350)))
                     2%nat) = (true, 180%Z)
  /\ shield_state (heap (world (shield_click (game0 squad0) (155, 350)))
                     3%nat) = (false, 0%Z).
Proof.
  assert (D : forall x, distance (x, 350) (155, 350) = Rabs (x - 155))
    by (intros x; apply distance_same_y).
  assert (C0 : clicked squad0 (155, 350) 0 = true).
  { unfold clicked. cbn. rewrite D. rabs. unfold BOID_RADIUS. now rcmp. }
  assert (C1 : forall b, b <> 0%nat -> clicked squad0 (155, 350) b = false).
  { intros b Hb. unfold clicked.
    destruct b as [| [| [| b]]]; [contradiction | reflexivity .. ]. }
  destruct (shield_click_spec (game0 squad0) (155, 350))
    as (_ & _ & P & _ & A & B & _).
  cbn [game0 world heap boids pings] in P, A, B.
  split; [| split; [| split]].
  - rewrite P. unfold roster0. cbn [filter].
    rewrite C0, !C1 by discriminate. reflexivity.
  - destruct (A 0%nat) as [A0 _]; [cbn; auto | exact C0 | cbn; lia |].
    exact A0.
  - destruct (A 0%nat) as [_ A2]; [cbn; auto | exact C0 | cbn; lia |].
    apply A2; [cbn; auto | reflexivity].
  - rewrite B; [reflexivity | reflexivity |].
    right. left. apply C1. discriminate.
Defined.

(** ** The right-click handler *)

(** The search loop is [min] over the player leaders of the roster. *)
Lemma closer_leader_fold (h : Heap) (m : vec) (l : list ref) (best : ref) :
  let key := fun b => distance (position (h b)) m in
  fold_left (closer_leader h m) l (Some (best, key best))
  = Some (py_min key best (filter (player_leader h) l),
          key (py_min key best (filter (player_leader h) l))).
Proof.
  intros key. revert best; induction l as [| a l IH]; intros best;
    cbn [fold_left filter]; [reflexivity |].
  unfold closer_leader at 2. fold (player_leader h a).
  destruct (player_leader h a); [| apply IH].
  cbv zeta. fold (key a). cbn [py_min].
  destruct (Rltb (key a) (key best)); apply IH.
Qed.

Lemma closer_leader_fold_None (h : Heap) (m : vec) (l : list ref) :
  let key := fun b => distance (position (h b)) m in
  fold_left (closer_leader h m) l None
  = match filter (player_leader h) l with
    | [] => None
    | x :: rest => Some (py_min key x rest, key (py_min key x rest))
    end.
Proof.
  intros key. induction l as [| a l IH]; cbn [fold_left filter];
    [reflexivity |].
  unfold closer_leader at 2. fold (player_leader h a).
  destruct (player_leader h a); [| exact IH].
  cbv zeta. apply closer_leader_fold.
Qed.

(** X17: a right click changes nothing when the roster has no player
    leader; otherwise it picks the player leader of the roster nearest to
    the click, the first such in roster order among equidistant ones,
    replaces its waypoints with the click position alone, resets its
    waypoint index to 0 and puts it in state PATROL, keeping every other
    attribute of it (its target included) and every other agent, the
    roster, the projectiles and the pings. *)
Theorem waypoint_click_spec (g : Game) (mouse_pos : vec) :
  let h := heap (world g) in
  let g' := waypoint_click g mouse_pos in
  let dist := fun b => distance (position (h b)) mouse_pos in
  boids g' = boids g /\ pings g' = pings g
  /\ projectiles (world g') = projectiles (world g)
  /\ ((forall b, In b (boids g) -> player_leader h b = false) -> g' = g)
  /\ ((exists b, In b (boids g) /\ player_leader h b = true) ->
      exists l l1 l2,
        boids g = l1 ++ l :: l2 /\ player_leader h l = true
        /\ (forall x, In x l1 -> player_leader h x = true ->
                      dist l < dist x)
        /\ (forall x, In x l2 -> player_leader h x = true ->
                      dist l <= dist x)
        /\ heap (world g') l
           = set_state "PATROL"
               (set_current_wp 0 (set_waypoints [mouse_pos] (h l)))
        /\ forall b, b <> l -> heap (world g') b = h b).
Proof.
  intros h g' dist. unfold g', waypoint_click. fold h.
  rewrite closer_leader_fold_None. fold dist.
  destruct (filter (player_leader h) (boids g)) as [| e0 rest] eqn:F.
  - repeat split; try reflexivity.
    intros (b & Hin & Hb). exfalso.
    assert (Hf : In b (filter (player_leader h) (boids g)))
      by (apply filter_In; now split).
    rewrite F in Hf. destruct Hf.
  - cbn [boids pings world projectiles heap].
    split; [reflexivity |]. split; [reflexivity |].
    split; [reflexivity |]. split.
    + intros Hno. exfalso.
      assert (Hf : In e0 (filter (player_leader h) (boids g)))
        by (rewrite F; now left).
      apply filter_In in Hf. destruct Hf as [Hin Hb].
      rewrite (Hno e0 Hin) in Hb. discriminate.
    + intros _.
      destruct (py_min_first dist rest e0) as (l1' & l2' & Ed & H1 & H2).
      rewrite <- F in Ed.
      destruct (filter_split _ _ _ _ _ Ed) as (l1 & l2 & El & F1 & F2 & Fe).
      exists (py_min dist e0 rest), l1, l2.
      split; [exact El |]. split; [exact Fe |].
      split; [| split; [| split]].
      * intros x Hx Px. apply H1. rewrite <- F1. apply filter_In.
        now split.
      * intros x Hx Px. apply H2. rewrite <- F2. apply filter_In.
        now split.
      * now rewrite modify_same.
      * intros b Hb. now rewrite modify_other.
Qed.

(** A right click in the example game: the leader (0), the only player
    leader, gets the clicked point as its only waypoint and its follower (1)
    is as before. *)
Lemma waypoint_click_spec_witness :
  waypoints (heap (world (waypoint_click (game0 squad0) (400, 300))) 0%nat)
  = [(400, 300)]
  /\ heap (world (waypoint_click (game0 squad0) (400, 300))) 1%nat
     = squad0 1%nat.
Proof.
  destruct (waypoint_click_spec (game0 squad0) (400, 300))
    as (_ & _ & _ & _ & A).
  destruct A as (l & l1 & l2 & El & Pl & _ & _ & Hl & Ho).
  { exists 0%nat. split; [cbn; auto | reflexivity]. }
  cbn [game0 world heap boids] in El, Pl, Hl, Ho.
  assert (L0 : l = 0%nat).
  { destruct l as [| [| [| l]]]; [reflexivity | discriminate .. ]. }
  subst l. split.
  - rewrite Hl. reflexivity.
  - apply Ho. discriminate.
Defined.

(** ** Waypoints *)

Lemma py_index_nil {A : Type} (i : Z) : py_index (@nil A) i = None.
Proof.
  unfold py_index. cbn [List.length].
  destruct (0 <=? i)%Z; [now destruct (Z.to_nat i) |].
  destruct (- Z.of_nat 0 <=? i)%Z; [| reflexivity].
  now destruct (Z.to_nat (Z.of_nat 0 + i)).
Qed.

Lemma patrol_steer_wp (h h1 : Heap) (self : ref) (squad_size : Z) :
  patrol_steer h self squad_size = Some h1 ->
  waypoints (h1 self) = waypoints (h self)
  /\ current_wp (h1 self)
     = if is_leader (h self) then patrol_next_wp (h self)
       else current_wp (h self).
Proof.
  unfold patrol_steer, patrol_next_wp. intros E.
  destruct (is_leader (h self)).
  - destruct (waypoints (h self)) as [| v l] eqn:Ew.
    + injection E as <-. rewrite Ew, py_index_nil. now split.
    + destruct (py_index (v :: l) (current_wp (h self))) as [t |];
        [| discriminate].
      destruct (Rltb _ 10); injection E as <-; rewrite modify_same;
        cbn [waypoints current_wp set_current_wp set_velocity];
        rewrite Ew; now split.
  - split_all E; try discriminate; injection E as <-;
      rewrite modify_same; now split.
Qed.

Lemma patrol_acquire_wp (h : Heap) (self : ref) (all_boids : list ref) :
  waypoints (patrol_acquire h self all_boids self) = waypoints (h self)
  /\ current_wp (patrol_acquire h self all_boids self)
     = current_wp (h self).
Proof.
  unfold patrol_acquire. destruct (enemies_in_detection_range _ _ _);
    [now split |].
  rewrite modify_same. now split.
Qed.

(** The behaviour step moves the waypoint index in the patrol of a leader
    only. *)
Lemma dispatch_wp (w w2 : World) (self : ref) (all_boids : list ref)
    (squad_size : Z) (rnd : R * R) :
  dispatch w self all_boids squad_size rnd = Some w2 ->
  waypoints (heap w2 self) = waypoints (heap w self)
  /\ current_wp (heap w2 self)
     = if String.eqb (state (heap w self)) "PATROL"
          && is_leader (heap w self)
       then patrol_next_wp (heap w self)
       else current_wp (heap w self).
Proof.
  unfold dispatch. intros E.
  destruct (String.eqb (state (heap w self)) "PATROL").
  - unfold handle_patrol in E.
    destruct (patrol_steer (heap w) self squad_size) as [h1 |] eqn:Es;
      [| discriminate].
    injection E as <-. cbn [heap andb].
    destruct (patrol_steer_wp _ _ _ _ Es) as [A B].
    destruct (patrol_acquire_wp h1 self all_boids) as [C D].
    rewrite C, D. now split.
  - cbn [andb]. unfold handle_engage, handle_evade in E.
    split_all E; try discriminate; injection E as <-;
      cbn [heap]; rewrite ?modify_same; split; reflexivity.
Qed.

Lemma tick_timers_wp (b : Boid) :
  waypoints (tick_timers b) = waypoints b
  /\ current_wp (tick_timers b) = current_wp b
  /\ state (tick_timers b) = state b
  /\ is_leader (tick_timers b) = is_leader b
  /\ position (tick_timers b) = position b.
Proof.
  destruct (tick_timers_form b) as (sh & st & ->). repeat split.
Qed.

(** The waypoints and the waypoint index of every agent after an update. *)
Lemma update_wp (w w' : World) (self : ref) (all_boids : list ref)
    (squad_size : Z) (rnd : R * R) :
  update w self all_boids squad_size rnd = Some w' ->
  (forall b, waypoints (heap w' b) = waypoints (heap w b))
  /\ (forall b, b <> self -> current_wp (heap w' b) = current_wp (heap w b))
  /\ current_wp (heap w' self)
     = if Rltb 0 (health (heap w self))
          && String.eqb (state (heap w self)) "PATROL"
          && is_leader (heap w self)
       then patrol_next_wp (heap w self)
       else current_wp (heap w self).
Proof.
  intros E.
  destruct (Rlt_dec 0 (health (heap w self))) as [Hlive | Hdead].
  2:{ unfold update in E. rewrite Rleb_true in E by lra.
      injection E as <-. rewrite Rltb_false by lra. now repeat split. }
  rewrite (Rltb_true _ _ Hlive). cbn [andb].
  destruct (update_decompose _ _ _ _ _ _ E Hlive)
    as (w2 & p & v & Eb & _ & Es & Eo).
  unfold update_behave in Eb. apply dispatch_wp in Eb.
  cbn [heap] in Eb. rewrite modify_same in Eb.
  destruct (tick_timers_wp (heap w self)) as (T1 & T2 & T3 & T4 & T5).
  unfold patrol_next_wp in Eb. rewrite T1, T2, T3, T4, T5 in Eb.
  fold (patrol_next_wp (heap w self)) in Eb.
  destruct Eb as [A B].
  split; [| split].
  - intros b. destruct (Nat.eq_dec b self) as [-> | Hb].
    + rewrite Es. exact A.
    + destruct (Eo b Hb) as [_ ->]. reflexivity.
  - intros b Hb. destruct (Eo b Hb) as [_ ->]. reflexivity.
  - rewrite Es. exact B.
Qed.

Lemma wp_index_ok_valid (b : Boid) : wp_index_ok b -> wp_valid b.
Proof.
  unfold wp_index_ok, wp_valid. intros [H0 H1].
  destruct (waypoints b) as [| v l]; [now left | right].
  cbn [List.length] in *. lia.
Qed.

Lemma patrol_next_wp_ok (b : Boid) :
  wp_index_ok b ->
  (0 <= patrol_next_wp b)%Z
  /\ (patrol_next_wp b = 0
      \/ patrol_next_wp b < Z.of_nat (List.length (waypoints b)))%Z.
Proof.
  intros Hok. unfold patrol_next_wp.
  destruct (py_index (waypoints b) (current_wp b)) as [t |] eqn:Ei;
    [| exact Hok].
  destruct (Rltb _ 10); [| exact Hok].
  assert (Hl : (0 < Z.of_nat (List.length (waypoints b)))%Z).
  { destruct (waypoints b); [| cbn [List.length]; lia].
    rewrite py_index_nil in Ei. discriminate. }
  pose proof (Z.mod_pos_bound (current_wp b + 1) _ Hl). lia.
Qed.

Lemma update_wp_index_ok (w w' : World) (self : ref) (all_boids : list ref)
    (squad_size : Z) (rnd : R * R) (b : ref) :
  update w self all_boids squad_size rnd = Some w' ->
  wp_index_ok (heap w b) -> wp_index_ok (heap w' b).
Proof.
  intros E Hok. destruct (update_wp _ _ _ _ _ _ E) as (A & B & C).
  unfold wp_index_ok. rewrite A.
  destruct (Nat.eq_dec b self) as [-> | Hb].
  - rewrite C. destruct (_ && _); [| exact Hok].
    now apply patrol_next_wp_ok.
  - rewrite (B b Hb). exact Hok.
Qed.

Lemma projectile_update_wp_index_ok (h : Heap) (p : Projectile.t)
    (b : ref) :
  wp_index_ok (h b) -> wp_index_ok (fst (Projectile.update h p) b).
Proof.
  destruct (projectile_update_frame h p b) as [-> | (_ & _ & _ & ->)];
    [auto |].
  unfold wp_index_ok. auto.
Qed.

Lemma frames_wp_index_ok (rnds : list (list (R * R))) (g g' : Game)
    (b : ref) :
  frames g rnds = Some g' ->
  wp_index_ok (heap (world g) b) -> wp_index_ok (heap (world g') b).
Proof.
  intros E.
  apply (frames_rel (fun x y => wp_index_ok x -> wp_index_ok y))
    with (rnds := rnds); auto.
  - intros. eapply update_wp_index_ok; eauto.
  - intros. now apply projectile_update_wp_index_ok.
Qed.

Lemma patrol_steer_None (h : Heap) (self : ref) (squad_size : Z) :
  patrol_steer h self squad_size = None
  <-> is_leader (h self) = true /\ waypoints (h self) <> []
      /\ py_index (waypoints (h self)) (current_wp (h self)) = None.
Proof.
  unfold patrol_steer.
  destruct (is_leader (h self)).
  - destruct (waypoints (h self)) as [| v l].
    + split; [discriminate | intros (_ & H & _); now contradiction H].
    + destruct (py_index (v :: l) (current_wp (h self))) as [t |].
      * destruct (Rltb _ 10); split; try discriminate;
          intros (_ & _ & H); discriminate.
      * split; [intros _; repeat split; discriminate | reflexivity].
  - split; [| intros (H & _); discriminate].
    destruct (leader_ref (h self)); [| discriminate].
    destruct (Rltb _ _); [| discriminate].
    unfold get_formation_offset, FORMATION_MODE. cbn. discriminate.
Qed.

(** X18: an update raises (the IndexError of [waypoints[current_wp]])
    exactly when the agent is alive, in state PATROL, a leader with at least
    one waypoint, and its waypoint index is out of the range Python accepts;
    in every other case it returns. *)
Theorem update_raises (w : World) (self : ref) (all_boids : list ref)
    (squad_size : Z) (rnd : R * R) :
  update w self all_boids squad_size rnd = None
  <-> 0 < health (heap w self)
      /\ state (heap w self) = "PATROL"%string
      /\ is_leader (heap w self) = true
      /\ waypoints (heap w self) <> []
      /\ py_index (waypoints (heap w self)) (current_wp (heap w self))
         = None.
Proof.
  destruct (tick_timers_wp (heap w self)) as (T1 & T2 & T3 & T4 & _).
  assert (P : patrol_steer (modify (heap w) self tick_timers) self
                squad_size = None
              <-> is_leader (heap w self) = true
                  /\ waypoints (heap w self) <> []
                  /\ py_index (waypoints (heap w self))
                       (current_wp (heap w self)) = None).
  { rewrite patrol_steer_None, modify_same, T1, T2, T4. reflexivity. }
  unfold update, update_motion, update_behave, dispatch, handle_patrol.
  cbn [heap projectiles]. rewrite modify_same, T3.
  destruct (Rlt_dec 0 (health (heap w self))) as [Hlive | Hdead].
  2:{ rewrite Rleb_true by lra. split; [discriminate | intros [H _]; lra]. }
  rewrite (Rleb_false _ _ Hlive).
  destruct (String.eqb_spec (state (heap w self)) "PATROL") as [Hp | Hp].
  - destruct (patrol_steer (modify (heap w) self tick_timers) self
                squad_size) as [h1 |].
    + split; [discriminate |]. intros (_ & _ & H).
      apply P in H. discriminate.
    + split; [| reflexivity]. intros _.
      split; [exact Hlive |]. split; [exact Hp |]. now apply P.
  - split; [| intros (_ & H & _); contradiction].
    repeat destruct (String.eqb _ _); discriminate.
Qed.

(** A leader with one waypoint and the index 5 raises; the same leader with
    the index 0 does not. *)
Lemma update_raises_witness :
  update {| heap := modify squad0 0
                      (fun b => set_current_wp 5
                                  (set_waypoints [(100, 150)] b));
            projectiles := [] |} 0 roster0 6 (0, 0) = None
  /\ update {| heap := modify squad0 0 (set_waypoints [(100, 150)]);
               projectiles := [] |} 0 roster0 6 (0, 0) <> None.
Proof.
  split.
  - apply update_raises. cbn. repeat split; try lra; discriminate.
  - intros H. apply update_raises in H.
    destruct H as (_ & _ & _ & _ & H). discriminate.
Defined.

(** X19: waypoints are never changed by an update, and the waypoint index
    of no agent but the updated one.  The index of the updated agent moves
    only when it is a live leader in state PATROL whose current waypoint is
    strictly within 10 units of its position: then it steps to the next
    index, cyclically; in every other case it stays.  An index in range
    stays in range. *)
Theorem update_patrol_cycle (w w' : World) (self : ref)
    (all_boids : list ref) (squad_size : Z) (rnd : R * R) :
  update w self all_boids squad_size rnd = Some w' ->
  let me := heap w self in
  (forall b, waypoints (heap w' b) = waypoints (heap w b))
  /\ (forall b, b <> self -> current_wp (heap w' b) = current_wp (heap w b))
  /\ (forall target,
        0 < health me -> state me = "PATROL"%string ->
        is_leader me = true ->
        py_index (waypoints me) (current_wp me) = Some target ->
        distance (position me) target < 10 ->
        current_wp (heap w' self)
        = ((current_wp me + 1)
             mod Z.of_nat (List.length (waypoints me)))%Z)
  /\ (health me <= 0 \/ state me <> "PATROL"%string
      \/ is_leader me = false \/ waypoints me = []
      \/ (exists target,
            py_index (waypoints me) (current_wp me) = Some target
            /\ 10 <= distance (position me) target) ->
      current_wp (heap w' self) = current_wp me)
  /\ (forall b, wp_index_ok (heap w b) -> wp_index_ok (heap w' b)).
Proof.
  intros E me. destruct (update_wp _ _ _ _ _ _ E) as (A & B & C).
  fold me in C.
  split; [exact A |]. split; [exact B |]. split; [| split].
  - intros t Hlive Hp Hl Hi Hd. rewrite C.
    rewrite (Rltb_true _ _ Hlive), Hp, Hl, String.eqb_refl. cbn [andb].
    unfold patrol_next_wp. rewrite Hi.
    now rewrite (Rltb_true _ _ Hd).
  - intros H. rewrite C.
    destruct H as [H | [H | [H | [H | (t & Hi & Hd)]]]].
    + now rewrite Rltb_false by lra.
    + apply String.eqb_neq in H. rewrite H. now rewrite andb_false_r.
    + rewrite H. now rewrite andb_false_r.
    + destruct (_ && _); [| reflexivity].
      unfold patrol_next_wp. now rewrite H, py_index_nil.
    + destruct (_ && _); [| reflexivity].
      unfold patrol_next_wp. rewrite Hi. now rewrite Rltb_false by lra.
  - intros b. eapply update_wp_index_ok; exact E.
Qed.

(** The leader of the example squad, 5 units from the first of its two
    waypoints, steps to the second. *)
Lemma update_patrol_cycle_witness :
  exists w',
    update {| heap := modify squad0 0
                        (set_waypoints [(155, 350); (100, 550)]);
              projectiles := [] |} 0 roster0 6 (0, 0) = Some w'
    /\ current_wp (heap w' 0%nat) = 1%Z.
Proof.
  set (w := {| heap := modify squad0 0
                         (set_waypoints [(155, 350); (100, 550)]);
               projectiles := [] |}).
  destruct (update_returns w 0 roster0 6 (0, 0)) as [w' E].
  { right. cbn. lia. }
  exists w'. split; [exact E |].
  destruct (update_patrol_cycle _ _ _ _ _ _ E) as (_ & _ & A & _).
  apply (A (155, 350)).
  - cbn. lra.
  - reflexivity.
  - reflexivity.
  - reflexivity.
  - cbn. rewrite distance_same_y. rabs. lra.
Defined.

(** X20: the waypoint index stays in range.  A new agent has its index in
    range; [add_waypoint], a left click, a right click and any number of
    frames keep the index of every agent in range; and from a state where
    every index is in range no frame ever raises. *)
Theorem wp_index_invariant :
  (forall x y squad leader index enemy rnd,
      wp_index_ok (Boid_init x y squad leader index enemy rnd))
  /\ (forall h self pos b,
        wp_index_ok (h b) -> wp_index_ok (add_waypoint h self pos b))
  /\ (forall g click b,
        wp_index_ok (heap (world g) b) ->
        wp_index_ok (heap (world (shield_click g click)) b))
  /\ (forall g mouse_pos b,
        wp_index_ok (heap (world g) b) ->
        wp_index_ok (heap (world (waypoint_click g mouse_pos)) b))
  /\ (forall g rnds,
        (forall b, wp_index_ok (heap (world g) b)) ->
        exists g', frames g rnds = Some g'
                   /\ forall b, wp_index_ok (heap (world g') b)).
Proof.
  split; [| split; [| split; [| split]]].
  - intros. unfold wp_index_ok. cbn. lia.
  - intros h self pos b Hok. unfold add_waypoint.
    destruct (Nat.eq_dec b self) as [-> | Hb];
      [| now rewrite modify_other].
    rewrite modify_same. unfold wp_index_ok in *.
    cbn [current_wp waypoints set_waypoints].
    rewrite length_app. cbn [List.length]. lia.
  - intros g click b Hok.
    destruct (shield_click_fold click (boids g) (boids g) (heap (world g))
                (pings g)) as (_ & F & _).
    specialize (F b). unfold shield_click. cbn [world heap].
    unfold eq_except_shield in F. unfold wp_index_ok in *.
    destruct F as (_ & _ & _ & _ & _ & _ & _ & -> & -> & _). exact Hok.
  - intros g m b Hok. unfold waypoint_click.
    destruct (fold_left _ _ _) as [[l d] |]; [| exact Hok].
    cbn [world heap].
    destruct (Nat.eq_dec b l) as [-> | Hb]; [| now rewrite modify_other].
    rewrite modify_same. unfold wp_index_ok. cbn. lia.
  - intros g rnds Hok.
    destruct (frames_returns rnds g) as [g' E].
    { intros b. apply wp_index_ok_valid, Hok. }
    exists g'. split; [exact E |].
    intros b. eapply frames_wp_index_ok; [exact E | apply Hok].
Qed.

(** The example game runs two frames and the leader's index is in range
    afterwards. *)
Lemma wp_index_invariant_witness :
  exists g',
    frames (game0 squad0) [[]; []] = Some g'
    /\ wp_index_ok (heap (world g') 0%nat).
Proof.
  destruct wp_index_invariant as (I & _ & _ & _ & F).
  destruct (F (game0 squad0) [[]; []]) as (g' & E & Hok).
  { intros b. destruct b as [| [| [| b]]]; cbn [game0 world heap squad0];
      unfold wp_index_ok; cbn; lia. }
  exists g'. split; [exact E | apply Hok].
Defined.

(** ** Followers and their leader *)

Lemma patrol_steer_follow (h h1 : Heap) (self : ref) (squad_size : Z) :
  patrol_steer h self squad_size = Some h1 ->
  (leader_ref (h1 self), Some (formation_offset (h1 self)))
  = if is_leader (h self)
    then (leader_ref (h self), Some (formation_offset (h self)))
    else patrol_follow h (h self) squad_size.
Proof.
  unfold patrol_steer, patrol_follow. intros E.
  destruct (is_leader (h self)).
  - split_all E; try discriminate; injection E as <-;
      rewrite ?modify_same; reflexivity.
  - destruct (leader_ref (h self)) as [l |] eqn:El;
      [| injection E as <-; now rewrite modify_same].
    destruct (Rltb 0 (health (h l)));
      [| injection E as <-; now rewrite modify_same].
    destruct (get_formation_offset _ _ _) as [off |]; [| discriminate].
    injection E as <-. rewrite modify_same.
    cbn [leader_ref formation_offset set_velocity set_formation_offset].
    now rewrite El.
Qed.

Lemma patrol_acquire_follow (h : Heap) (self : ref) (all_boids : list ref) :
  leader_ref (patrol_acquire h self all_boids self) = leader_ref (h self)
  /\ formation_offset (patrol_acquire h self all_boids self)
     = formation_offset (h self).
Proof.
  unfold patrol_acquire. destruct (enemies_in_detection_range _ _ _);
    [now split |].
  rewrite modify_same. now split.
Qed.

Lemma dispatch_follow (w w2 : World) (self : ref) (all_boids : list ref)
    (squad_size : Z) (rnd : R * R) :
  dispatch w self all_boids squad_size rnd = Some w2 ->
  (leader_ref (heap w2 self), Some (formation_offset (heap w2 self)))
  = if String.eqb (state (heap w self)) "PATROL"
       && negb (is_leader (heap w self))
    then patrol_follow (heap w) (heap w self) squad_size
    else (leader_ref (heap w self), Some (formation_offset (heap w self))).
Proof.
  unfold dispatch. intros E.
  destruct (String.eqb (state (heap w self)) "PATROL").
  - unfold handle_patrol in E.
    destruct (patrol_steer (heap w) self squad_size) as [h1 |] eqn:Es;
      [| discriminate].
    injection E as <-. cbn [heap andb].
    destruct (patrol_acquire_follow h1 self all_boids) as [-> ->].
    rewrite (patrol_steer_follow _ _ _ _ Es).
    now destruct (is_leader (heap w self)).
  - cbn [andb]. unfold handle_engage, handle_evade in E.
    split_all E; try discriminate; injection E as <-;
      cbn [heap]; rewrite ?modify_same; reflexivity.
Qed.

Lemma tick_timers_follow (b : Boid) :
  leader_ref (tick_timers b) = leader_ref b
  /\ formation_offset (tick_timers b) = formation_offset b
  /\ index_in_squad (tick_timers b) = index_in_squad b
  /\ state (tick_timers b) = state b
  /\ is_leader (tick_timers b) = is_leader b
  /\ health (tick_timers b) = health b.
Proof.
  destruct (tick_timers_form b) as (sh & st & ->). repeat split.
Qed.

(** The leader reference and the formation offset of every agent after an
    update. *)
Lemma update_follow (w w' : World) (self : ref) (all_boids : list ref)
    (squad_size : Z) (rnd : R * R) :
  update w self all_boids squad_size rnd = Some w' ->
  (forall b, b <> self ->
     leader_ref (heap w' b) = leader_ref (heap w b)
     /\ formation_offset (heap w' b) = formation_offset (heap w b))
  /\ (leader_ref (heap w' self), Some (formation_offset (heap w' self)))
     = if Rltb 0 (health (heap w self))
          && String.eqb (state (heap w self)) "PATROL"
          && negb (is_leader (heap w self))
       then patrol_follow (heap w) (heap w self) squad_size
       else (leader_ref (heap w self),
             Some (formation_offset (heap w self))).
Proof.
  intros E.
  destruct (Rlt_dec 0 (health (heap w self))) as [Hlive | Hdead].
  2:{ unfold update in E. rewrite Rleb_true in E by lra.
      injection E as <-. rewrite Rltb_false by lra. now repeat split. }
  rewrite (Rltb_true _ _ Hlive). cbn [andb].
  destruct (update_decompose _ _ _ _ _ _ E Hlive)
    as (w2 & p & v & Eb & _ & Es & Eo).
  split.
  - intros b Hb. destruct (Eo b Hb) as [_ ->]. now split.
  - unfold update_behave in Eb. apply dispatch_follow in Eb.
    cbn [heap] in Eb. rewrite modify_same in Eb.
    destruct (tick_timers_follow (heap w self))
      as (T1 & T2 & T3 & T4 & T5 & T6).
    rewrite T4, T5 in Eb.
    rewrite Es. cbn [leader_ref formation_offset set_position set_velocity].
    rewrite Eb. clear Eb.
    destruct (String.eqb _ _ && negb _); [| now rewrite T1, T2].
    unfold patrol_follow. rewrite T1, T2, T3.
    destruct (leader_ref (heap w self)) as [l |]; [| reflexivity].
    destruct (Nat.eq_dec l self) as [-> | Hl].
    + now rewrite modify_same, T6.
    + now rewrite modify_other.
Qed.

(** X21: an update touches the leader reference and the formation offset
    of no agent but the updated one, and of that one only when it is a live
    follower in state PATROL.  Then, if its leader reference names a live
    agent, the reference is kept and the formation offset becomes the slot of
    the agent's index in the formation of the configured mode; if it names a
    dead agent or is empty, the reference is cleared and the offset is
    kept. *)
Theorem update_follower (w w' : World) (self : ref) (all_boids : list ref)
    (squad_size : Z) (rnd : R * R) :
  update w self all_boids squad_size rnd = Some w' ->
  let me := heap w self in
  (forall b, b <> self ->
     leader_ref (heap w' b) = leader_ref (heap w b)
     /\ formation_offset (heap w' b) = formation_offset (heap w b))
  /\ (health me <= 0 \/ state me <> "PATROL"%string
      \/ is_leader me = true ->
      leader_ref (heap w' self) = leader_ref me
      /\ formation_offset (heap w' self) = formation_offset me)
  /\ (0 < health me -> state me = "PATROL"%string ->
      is_leader me = false ->
      (forall l, leader_ref me = Some l -> 0 < health (heap w l) ->
         leader_ref (heap w' self) = Some l
         /\ get_formation_offset (index_in_squad me) FORMATION_MODE
              squad_size = Some (formation_offset (heap w' self)))
      /\ (leader_ref me = None
          \/ (exists l, leader_ref me = Some l /\ health (heap w l) <= 0) ->
          leader_ref (heap w' self) = None
          /\ formation_offset (heap w' self) = formation_offset me)).
Proof.
  intros E me. destruct (update_follow _ _ _ _ _ _ E) as [A B].
  fold me in B. split; [exact A |]. split.
  - intros H.
    assert (C : Rltb 0 (health me) && String.eqb (state me) "PATROL"
                && negb (is_leader me) = false).
    { destruct H as [H | [H | H]].
      - now rewrite Rltb_false by lra.
      - apply String.eqb_neq in H. rewrite H. now rewrite andb_false_r.
      - rewrite H. now rewrite andb_false_r. }
    rewrite C in B. injection B as B1 B2. now split.
  - intros Hlive Hp Hl.
    rewrite (Rltb_true _ _ Hlive), Hp, Hl, String.eqb_refl in B.
    cbn [andb negb] in B. unfold patrol_follow in B. split.
    + intros l Hr Hh. rewrite Hr, (Rltb_true _ _ Hh) in B.
      pose proof (f_equal fst B) as B1. pose proof (f_equal snd B) as B2.
      cbn [fst snd] in B1, B2. split; [exact B1 | symmetry; exact B2].
    + intros [Hr | (l & Hr & Hh)]; rewrite Hr in B.
      * injection B as B1 B2. now split.
      * rewrite Rltb_false in B by lra. injection B as B1 B2. now split.
Qed.

(** The second follower of the example squad (index 1) keeps its live
    leader and takes the slot of index 1. *)
Lemma update_follower_witness :
  exists w',
    update {| heap := squad0; projectiles := [] |} 2 roster0 6 (0, 0)
    = Some w'
    /\ leader_ref (heap w' 2%nat) = Some 0%nat
    /\ get_formation_offset 1 FORMATION_MODE 6
       = Some (formation_offset (heap w' 2%nat)).
Proof.
  destruct (update_returns {| heap := squad0; projectiles := [] |} 2
              roster0 6 (0, 0)) as [w' E]; [left; reflexivity |].
  exists w'. split; [exact E |].
  destruct (update_follower _ _ _ _ _ _ E) as (_ & _ & A).
  destruct A as [A _]; [cbn; lra | reflexivity | reflexivity |].
  apply (A 0%nat); [reflexivity | cbn; lra].
Defined.

Lemma projectile_update_keeps (h : Heap) (p : Projectile.t) (b : ref) :
  waypoints (fst (Projectile.update h p) b) = waypoints (h b)
  /\ leader_ref (fst (Projectile.update h p) b) = leader_ref (h b).
Proof.
  destruct (projectile_update_frame h p b) as [-> | (_ & _ & _ & ->)];
    now split.
Qed.

Lemma update_leader_ref (w w' : World) (self : ref) (all_boids : list ref)
    (squad_size : Z) (rnd : R * R) (b : ref) :
  update w self all_boids squad_size rnd = Some w' ->
  leader_ref (heap w' b) = leader_ref (heap w b)
  \/ leader_ref (heap w' b) = None.
Proof.
  intros E. destruct (update_follow _ _ _ _ _ _ E) as [A B].
  destruct (Nat.eq_dec b self) as [-> | Hb]; [| left; now apply A].
  pose proof (f_equal fst B) as B1. cbn [fst] in B1. rewrite B1.
  destruct (_ && _); [| now left].
  unfold patrol_follow. destruct (leader_ref (heap w self)); [| now left].
  destruct (Rltb _ _); [now left | now right].
Qed.

(** X22: what no number of frames changes.  The role of an agent (squad,
    leadership, medic role, faction, index in the squad, firing and detection
    range) and its waypoints are the same after any number of frames, and
    its leader reference is the same or has been cleared: a follower never
    gets a new leader, and one that has lost its leader stays without. *)
Theorem frames_fixed (rnds : list (list (R * R))) (g g' : Game) (b : ref) :
  frames g rnds = Some g' ->
  role (heap (world g') b) = role (heap (world g) b)
  /\ waypoints (heap (world g') b) = waypoints (heap (world g) b)
  /\ (leader_ref (heap (world g') b) = leader_ref (heap (world g) b)
      \/ leader_ref (heap (world g') b) = None).
Proof.
  intros E.
  apply (frames_rel
           (fun x y => role y = role x /\ waypoints y = waypoints x
                       /\ (leader_ref y = leader_ref x
                           \/ leader_ref y = None)))
    with (rnds := rnds); [| | | | exact E].
  - intros x. auto.
  - intros x y z (R1 & W1 & L1) (R2 & W2 & L2).
    split; [congruence |]. split; [congruence |].
    destruct L2 as [L2 | L2]; [rewrite L2; exact L1 | now right].
  - intros w0 w1 self all_boids squad_size rnd a Eu.
    split; [eapply update_role; exact Eu |].
    split; [eapply update_wp; exact Eu |].
    eapply update_leader_ref; exact Eu.
  - intros h p a. destruct (projectile_update_keeps h p a) as [W L].
    split; [apply projectile_update_role |]. split; [exact W | now left].
Qed.

(** After two frames of the example game the medic (1) is still the medic
    of squad 0. *)
Lemma frames_fixed_witness :
  exists g',
    frames (game0 squad0) [[]; []] = Some g'
    /\ is_medic (heap (world g') 1%nat) = true
    /\ squad_id (heap (world g') 1%nat) = 0%Z.
Proof.
  destruct (frames_returns [[]; []] (game0 squad0)) as [g' E].
  { intros b. left. destruct b as [| [| [| b]]]; reflexivity. }
  exists g'. split; [exact E |].
  destruct (frames_fixed _ _ _ 1 E) as [A _].
  unfold role in A. cbn [game0 world heap] in A.
  injection A as A1 _ A3 _ _ _ _. now split.
Defined.

(** ** Motion *)

Lemma py_fmod_shift (x m : R) (k : Z) :
  0 < m -> IZR k * m <= x < (IZR k + 1) * m -> py_fmod x m = x - IZR k * m.
Proof.
  intros Hm [Hl Hu]. unfold py_fmod.
  assert (E : x = x / m * m) by (field; lra).
  rewrite (Zfloor_eq k); [ring |].
  split.
  - apply (Rmult_le_reg_r m); [exact Hm | lra].
  - apply (Rmult_lt_reg_r m); [exact Hm | lra].
Qed.

Lemma hypot_abs_fst (x y : R) : Rabs x <= hypot x y.
Proof.
  unfold hypot. rewrite <- sqrt_Rsqr_abs. apply sqrt_le_1.
  - apply Rle_0_sqr.
  - nra.
  - unfold Rsqr. nra.
Qed.

Lemma hypot_abs_snd (x y : R) : Rabs y <= hypot x y.
Proof.
  unfold hypot. rewrite <- sqrt_Rsqr_abs. apply sqrt_le_1.
  - apply Rle_0_sqr.
  - nra.
  - unfold Rsqr. nra.
Qed.

(** A coordinate in the screen moved by at most [MAX_SPEED] and wrapped. *)
Lemma wrap_step (x v m : R) :
  MAX_SPEED < m -> 0 <= x < m -> Rabs v <= MAX_SPEED ->
  py_fmod (x + v) m
  = if Rltb (x + v) 0 then x + v + m
    else if Rltb (x + v) m then x + v else x + v - m.
Proof.
  unfold MAX_SPEED. intros Hm Hx Hv.
  assert (Hv' : -2 <= v <= 2)
    by (unfold Rabs in Hv; destruct (Rcase_abs v); lra).
  destruct (Rlt_dec (x + v) 0) as [H0 | H0].
  - rewrite (Rltb_true _ _ H0).
    rewrite (py_fmod_shift _ _ (-1)) by lra. lra.
  - rewrite (Rltb_false (x + v) 0) by lra.
    destruct (Rlt_dec (x + v) m) as [H1 | H1].
    + rewrite (Rltb_true _ _ H1).
      rewrite (py_fmod_shift _ _ 0) by lra. lra.
    + rewrite (Rltb_false (x + v) m) by lra.
      rewrite (py_fmod_shift _ _ 1) by lra. lra.
Qed.

(** X23: a live agent moves by its new velocity: after an update its
    position is the old position plus the velocity it ends with, each
    coordinate taken modulo the screen size.  From a position inside the
    screen this is the plain sum, or the sum shifted by one screen size when
    the agent crosses an edge: it re-enters from the opposite edge. *)
Theorem update_kinematics (w w' : World) (self : ref)
    (all_boids : list ref) (squad_size : Z) (rnd : R * R) :
  update w self all_boids squad_size rnd = Some w' ->
  0 < health (heap w self) ->
  let p := position (heap w self) in
  let p' := position (heap w' self) in
  let v' := velocity (heap w' self) in
  p' = (py_fmod (fst p + fst v') WIDTH, py_fmod (snd p + snd v') HEIGHT)
  /\ (0 <= fst p < WIDTH ->
      fst p' = if Rltb (fst p + fst v') 0 then fst p + fst v' + WIDTH
               else if Rltb (fst p + fst v') WIDTH then fst p + fst v'
                    else fst p + fst v' - WIDTH)
  /\ (0 <= snd p < HEIGHT ->
      snd p' = if Rltb (snd p + snd v') 0 then snd p + snd v' + HEIGHT
               else if Rltb (snd p + snd v') HEIGHT then snd p + snd v'
                    else snd p + snd v' - HEIGHT).
Proof.
  intros E Hlive p p' v'.
  assert (K : p' = (py_fmod (fst p + fst v') WIDTH,
                    py_fmod (snd p + snd v') HEIGHT)
              /\ hypot (fst v') (snd v') <= MAX_SPEED).
  { unfold update in E. rewrite (Rleb_false _ _ Hlive) in E.
    destruct (update_motion _ _ _ _ _) as [w5 |] eqn:Em; [| discriminate].
    injection E as <-.
    destruct (update_motion_inv _ _ _ _ _ _ Em)
      as (h4 & v4 & [_ Hs] & Ev & E5).
    destruct Hs as (Hp & _).
    unfold p', v'. cbn [heap]. rewrite heal_ally_self, E5, modify_same.
    unfold integrate. cbn [position velocity set_position].
    rewrite Hp. split; [reflexivity |]. rewrite Ev. apply cap_speed_bound. }
  destruct K as [K1 K2]. split; [exact K1 |].
  pose proof (hypot_abs_fst (fst v') (snd v')) as A1.
  pose proof (hypot_abs_snd (fst v') (snd v')) as A2.
  rewrite K1. cbn [fst snd]. split; intros Hin.
  - apply wrap_step; [unfold MAX_SPEED, WIDTH; lra | exact Hin | lra].
  - apply wrap_step; [unfold MAX_SPEED, HEIGHT; lra | exact Hin | lra].
Qed.

(** One agent of the example squad moves by its new velocity. *)
Lemma update_kinematics_witness :
  exists w',
    update {| heap := squad0; projectiles := [] |} 0 roster0 6 (0, 0)
    = Some w'
    /\ position (heap w' 0%nat)
       = (py_fmod (150 + fst (velocity (heap w' 0%nat))) WIDTH,
          py_fmod (350 + snd (velocity (heap w' 0%nat))) HEIGHT).
Proof.
  destruct (update_returns {| heap := squad0; projectiles := [] |} 0
              roster0 6 (0, 0)) as [w' E]; [left; reflexivity |].
  exists w'. split; [exact E |].
  destruct (update_kinematics _ _ _ _ _ _ E) as [A _]; [cbn; lra |].
  exact A.
Defined.

(** ** The pings in the game loop *)

Lemma ping_update_active (p : Ping.t) :
  Ping.active (Ping.update p) = true -> Ping.active p = true.
Proof.
  unfold Ping.update. now destruct (Ping.radius p <? Ping.max_radius p)%Z.
Qed.

Lemma ping_updates_active (n : nat) (p : Ping.t) :
  Ping.active (Nat.iter n Ping.update p) = true -> Ping.active p = true.
Proof.
  induction n as [| n IH]; [auto |].
  rewrite Nat.iter_succ. intros H. apply IH. now apply ping_update_active.
Qed.

Lemma filter_map_comm {A B : Type} (f : B -> bool) (u : A -> B)
    (l : list A) :
  filter f (map u l) = map u (filter (fun x => f (u x)) l).
Proof.
  induction l as [| a l IH]; [reflexivity |].
  cbn. destruct (f (u a)); cbn; now rewrite IH.
Qed.

Lemma filter_filter_sub {A : Type} (f g : A -> bool) (l : list A) :
  (forall x, f x = true -> g x = true) ->
  filter f (filter g l) = filter f l.
Proof.
  intros H. induction l as [| a l IH]; [reflexivity |].
  cbn. destruct (g a) eqn:Ga; cbn.
  - now rewrite IH.
  - destruct (f a) eqn:Fa; [| exact IH].
    rewrite (H a Fa) in Ga. discriminate.
Qed.

Lemma frame_pings (g g' : Game) (rnds : list (R * R)) :
  frame g rnds = Some g' ->
  pings g' = map Ping.update (filter Ping.active (pings g)).
Proof.
  unfold frame. intros E.
  destruct (boid_pass _ _ _) as [[w1 boids'] |]; [| discriminate].
  destruct (projectile_pass _ _) as [h2 ps2].
  now injection E as <-.
Qed.

(** The pings after a number of frames. *)
Lemma frames_pings_list (rnds : list (list (R * R))) (g g' : Game) :
  frames g rnds = Some g' ->
  pings g'
  = match rnds with
    | [] => pings g
    | _ :: rest =>
      map (Nat.iter (List.length rnds) Ping.update)
        (filter (fun p => Ping.active
                            (Nat.iter (List.length rest) Ping.update p))
           (pings g))
    end.
Proof.
  revert g; induction rnds as [| r rest IH]; intros g E; cbn in E.
  - now injection E as <-.
  - destruct (frame g r) as [g1 |] eqn:Ef; [| discriminate].
    rewrite (IH g1 E), (frame_pings _ _ _ Ef).
    destruct rest as [| r' rest']; [reflexivity |].
    cbn [List.length]. set (m := List.length rest').
    rewrite filter_map_comm, map_map, filter_filter_sub.
    + rewrite (filter_ext _ (fun p => Ping.active
                                        (Nat.iter (S m) Ping.update p)))
        by (intros p; now rewrite (Nat.iter_succ_r m)).
      apply map_ext. intros p. symmetry. apply Nat.iter_succ_r.
    + intros p H. rewrite <- Nat.iter_succ_r in H.
      now apply ping_updates_active in H.
Qed.

(** X24: the pings in the game loop.  After [n >= 1] frames the list of
    pings holds, in their order, the pings of the start that were still
    active after [n - 1] updates, each updated [n] times; no frame adds a
    ping.  Pings that were new at the start are all present, each updated
    [n] times, through 35 frames and all gone from the 36th on. *)
Theorem frames_pings (rnds : list (list (R * R))) (g g' : Game) :
  frames g rnds = Some g' ->
  let n := List.length rnds in
  (rnds <> [] ->
   pings g'
   = map (Nat.iter n Ping.update)
       (filter (fun p => Ping.active (Nat.iter (n - 1) Ping.update p))
          (pings g)))
  /\ (forall ps, pings g = map Ping.init ps ->
        pings g'
        = if (n <=? 35)%nat
          then map (fun p => Nat.iter n Ping.update (Ping.init p)) ps
          else []).
Proof.
  intros E n. pose proof (frames_pings_list _ _ _ E) as L. split.
  - intros Hne. destruct rnds as [| r rest]; [contradiction |].
    rewrite L. unfold n. cbn [List.length].
    now rewrite Nat.sub_succ, Nat.sub_0_r.
  - intros ps Hps. destruct rnds as [| r rest].
    + rewrite L, Hps. reflexivity.
    + rewrite L, Hps. unfold n. cbn [List.length].
      set (m := List.length rest).
      assert (F : forall p,
                 Ping.active (Nat.iter m Ping.update (Ping.init p))
                 = (m <=? 34)%nat).
      { intros p. destruct (ping_updates_init p m) as (_ & -> & _).
        destruct (Nat.leb_spec m 34), (Z.leb_spec (Z.of_nat m) 34);
          auto; lia. }
      rewrite filter_map_comm, map_map.
      rewrite (filter_ext _ (fun _ => (m <=? 34)%nat) F).
      change (S m <=? 35)%nat with (m <=? 34)%nat.
      destruct (m <=? 34)%nat.
      * f_equal. clear. induction ps as [| a ps IH]; [reflexivity |].
        cbn [filter]. now rewrite IH.
      * clear. induction ps as [| a ps IH]; [reflexivity | exact IH].
Qed.

(** A new ping in the example game after one frame. *)
Lemma frames_pings_witness :
  exists g',
    frames {| world := world (game0 squad0); boids := roster0;
              pings := [Ping.init (150, 350)] |} [[]] = Some g'
    /\ pings g' = [Ping.update (Ping.init (150, 350))].
Proof.
  set (g := {| world := world (game0 squad0); boids := roster0;
               pings := [Ping.init (150, 350)] |}).
  destruct (frames_returns [[]] g) as [g' E].
  { intros b. left. destruct b as [| [| [| b]]]; reflexivity. }
  exists g'. split; [exact E |].
  destruct (frames_pings _ _ _ E) as [_ A].
  exact (A [(150, 350)] eq_refl).
Defined.
